(** * TinyDB storage core: buffer pool, B+Tree page header, index builder,
      integer arithmetic of the type subsystem.

    A shallow embedding of
      - buffer_pool_manager.cpp  (BufferPoolManager)
      - b_plus_tree_page.h       (BPlusTreePage::GetMinSize)
      - index_builder.cpp, index.h (IndexBuilder::Build, IndexMetadata)
      - integer_parent_type.h    (IntegerParentType::AddValue, SubtractValue,
                                  MultiplyValue, DivideValue, ModuloValue)
      - exception.h              (ExceptionType, ExceptionTypeToString)
    together with the properties the specification states about them and
    further properties of the code. *)

From Stdlib Require Import ZArith Lia Bool.
From Stdlib Require QArith.QArith QArith.Qround.
From stdpp Require Import base option list gmap strings.

Local Open Scope Z_scope.

(* ===================================================================== *)
(** * Exceptions (common/exception.h)                                     *)
(* ===================================================================== *)

Inductive ExceptionType :=
| INVALID_EXCEPTION
| OUT_OF_RANGE
| CONVERSION
| UNKNOWN_TYPE
| DECIMAL_EXCEPTION
| MISMATCH_TYPE
| DIVIDE_BY_ZERO
| INCOMPATIBLE_TYPE
| OUT_OF_MEMORY
| NOT_IMPLEMENTED
| IO
| UNREACHABLE
| LOGIC_ERROR.

(** What a call that may throw produces. *)
Inductive Ret (A : Type) :=
| Return (a : A)
| Throw (e : ExceptionType).
Arguments Return {A} a.
Arguments Throw {A} e.

(** The enumerator values of ExceptionType. *)
Definition ExceptionType_value (e : ExceptionType) : Z :=
  match e with
  | INVALID_EXCEPTION => 0
  | OUT_OF_RANGE => 1
  | CONVERSION => 2
  | UNKNOWN_TYPE => 3
  | DECIMAL_EXCEPTION => 4
  | MISMATCH_TYPE => 5
  | DIVIDE_BY_ZERO => 6
  | INCOMPATIBLE_TYPE => 7
  | OUT_OF_MEMORY => 8
  | NOT_IMPLEMENTED => 9
  | IO => 10
  | UNREACHABLE => 11
  | LOGIC_ERROR => 12
  end.

(** Exception::ExceptionTypeToString, on the integer an ExceptionType
    object holds (an enum class object can hold values that are no
    enumerator: the [default] label). *)
Definition ExceptionTypeToString (type : Z) : string :=
  match type with
  | 0 => "Invalid"
  | 1 => "Out of Range"
  | 2 => "Conversion"
  | 3 => "Unknown Type"
  | 4 => "Decimal"
  | 5 => "Mismatch Type"
  | 6 => "Divide by Zero"
  | 7 => "Incompatible Type"
  | 8 => "Out of Memory"
  | 9 => "Not Implemented"
  | 10 => "IO"
  | 11 => "Unreachable"
  | 12 => "Logic Error"
  | _ => "Unknown Exception Type"
  end.


(* ===================================================================== *)
(** * Buffer pool manager (buffer_pool_manager.cpp)                       *)
(* ===================================================================== *)

Module BufferPool.

(** page_id_t is a 32-bit integer; [-1] is what DeletePage stores into a
    freed frame (INVALID_PAGE_ID). frame_id_t indexes the array [pages_];
    it is embedded as [nat]. *)
Definition INVALID_PAGE_ID : Z := -1.

(** Modelled from the spec: PAGE_SIZE (common/config.h is not part of the
    sources; the spec gives 4096 bytes). *)
Definition PAGE_SIZE : nat := 4096.

(** pin_count_ arithmetic. The spec declares the pin count unsigned; the
    increment and decrement are taken modulo 2^32. *)
Definition u32 (z : Z) : Z := z mod 2 ^ 32.

(** Modelled from the spec: class Page (storage/page/page.h is not part of
    the sources): a byte buffer plus page id, pin count and dirty bit. The
    page latch plays no role under the pool mutex and is left out. *)
Record Page := mkPage {
  data_ : list Byte.byte;
  page_id_ : Z;
  pin_count_ : Z;
  is_dirty_ : bool
}.

Definition ZeroData : list Byte.byte := replicate PAGE_SIZE Byte.x00.

(** A default-constructed Page, as [new Page[pool_size_]] leaves it. *)
Definition Page_ctor : Page := mkPage ZeroData INVALID_PAGE_ID 0 false.

(** Modelled from the spec: PageHeader::GetLSN (storage/page/page_header.h
    is not part of the sources). The header is the prefix of the page data;
    the LSN is the little-endian 32-bit field at byte offset 4. *)
Definition le_decode (bs : list Byte.byte) : Z :=
  foldr (fun b acc => Z.of_N (Byte.to_N b) + 256 * acc) 0 bs.

Definition GetLSN (data : list Byte.byte) : Z := le_decode (take 4 (drop 4 data)).

(** ** The replacer *)

(** Modelled from the spec: LRUReplacer (buffer/lru_replacer.h is not part of
    the sources). The eligible frames, least recently unpinned first. *)
Module LRUReplacer.

Definition t := list nat.

Definition empty : t := [].

(** Unpin(fid): add at the most-recent end; idempotent. *)
Definition Unpin (fid : nat) (r : t) : t :=
  if decide (fid ∈ r) then r else r ++ [fid].

(** Pin(fid): remove from the eligible set; no-op if absent. *)
Definition Pin (fid : nat) (r : t) : t := filter (fun g => g ≠ fid) r.

(** Evict(&out): remove and return the least-recent frame; fails when empty. *)
Definition Evict (r : t) : option (nat * t) :=
  match r with
  | [] => None
  | fid :: r' => Some (fid, r')
  end.

Definition Size (r : t) : nat := length r.

End LRUReplacer.

(** ** Calls issued to the collaborators *)

(** Every call on the disk manager and the log manager is recorded, in
    program order (oldest first). *)
Inductive Event :=
| LogFlush (lsn : Z) (force : bool)
| DiskReadPage (pid : Z) (outbound_is_error : bool)
| DiskWritePage (pid : Z) (buf : list Byte.byte)
| DiskAllocatePage (returned : Z)
| DiskDeallocatePage (pid : Z).

(** The disk manager is an interface to the buffer pool (disk_manager.h is
    not part of the sources): any implementation of the four calls of spec
    section 4.1 can be plugged in. [ReadPage] answers [None] when it raises
    the IO error; the other three calls return normally. *)
Class DiskManager (D : Type) := {
  ReadPage : D -> Z -> bool -> option (list Byte.byte);
  WritePage : D -> Z -> list Byte.byte -> D;
  AllocatePage : D -> Z * D;
  DeallocatePage : D -> Z -> D
}.

(** Modelled from the spec: a disk manager for a fresh database file. Page
    ids start at 0 and AllocatePage hands out increasing ids; freed ids are
    tracked; a page never written reads as zeros, or raises IO when
    [outbound_is_error] is set. *)
Record SimpleDisk := mkDisk {
  next_page_id_ : Z;
  stored_ : gmap Z (list Byte.byte);
  freed_ : list Z
}.

Definition SimpleDisk_new : SimpleDisk := mkDisk 0 ∅ [].

#[export] Instance SimpleDisk_manager : DiskManager SimpleDisk := {
  ReadPage d pid outbound_is_error :=
    match stored_ d !! pid with
    | Some buf => Some buf
    | None => if outbound_is_error then None else Some ZeroData
    end;
  WritePage d pid buf := mkDisk (next_page_id_ d) (<[pid := buf]> (stored_ d)) (freed_ d);
  AllocatePage d :=
    (next_page_id_ d, mkDisk (next_page_id_ d + 1) (stored_ d) (freed_ d));
  DeallocatePage d pid := mkDisk (next_page_id_ d) (stored_ d) (pid :: freed_ d)
}.

(** ** State *)

(** The members of BufferPoolManager. [log_manager_] is [true] when the
    pointer is not null. [flush_wait_time_] (wall-clock diagnostics) is left
    out. *)
Record BufferPoolManager := mkBPM {
  pool_size_ : nat;
  pages_ : list Page;
  page_table_ : gmap Z nat;
  free_list_ : list nat;
  replacer_ : LRUReplacer.t;
  log_manager_ : bool
}.

(** The buffer pool together with the disk manager it points to and the
    calls made so far. *)
Record World (D : Type) := mkWorld {
  bpm : BufferPoolManager;
  disk_manager_ : D;
  trace : list Event
}.
Arguments mkWorld {D} _ _ _.
Arguments bpm {D} _.
Arguments disk_manager_ {D} _.
Arguments trace {D} _.

(** ** Field updates *)

Definition set_data (buf : list Byte.byte) (p : Page) : Page :=
  mkPage buf (page_id_ p) (pin_count_ p) (is_dirty_ p).
Definition set_page_id (pid : Z) (p : Page) : Page :=
  mkPage (data_ p) pid (pin_count_ p) (is_dirty_ p).
Definition set_pin_count (n : Z) (p : Page) : Page :=
  mkPage (data_ p) (page_id_ p) n (is_dirty_ p).
Definition set_is_dirty (d : bool) (p : Page) : Page :=
  mkPage (data_ p) (page_id_ p) (pin_count_ p) d.

Definition with_pages (g : list Page -> list Page) (b : BufferPoolManager) :=
  mkBPM (pool_size_ b) (g (pages_ b)) (page_table_ b) (free_list_ b)
        (replacer_ b) (log_manager_ b).
Definition with_page_table (g : gmap Z nat -> gmap Z nat) (b : BufferPoolManager) :=
  mkBPM (pool_size_ b) (pages_ b) (g (page_table_ b)) (free_list_ b)
        (replacer_ b) (log_manager_ b).
Definition with_free_list (g : list nat -> list nat) (b : BufferPoolManager) :=
  mkBPM (pool_size_ b) (pages_ b) (page_table_ b) (g (free_list_ b))
        (replacer_ b) (log_manager_ b).
Definition with_replacer (g : LRUReplacer.t -> LRUReplacer.t) (b : BufferPoolManager) :=
  mkBPM (pool_size_ b) (pages_ b) (page_table_ b) (free_list_ b)
        (g (replacer_ b)) (log_manager_ b).

(** [pages_[frame_id]] read and updated in place. An index outside the
    array, which no reachable state produces, reads a default page and
    updates nothing. *)
Definition frame (b : BufferPoolManager) (frame_id : nat) : Page :=
  default Page_ctor (pages_ b !! frame_id).
Definition with_page (frame_id : nat) (g : Page -> Page) (b : BufferPoolManager) :=
  with_pages (alter g frame_id) b.

(** std::list back()/pop_back(): the last element and the rest. *)
Definition pop_back {A} (l : list A) : option (A * list A) :=
  match reverse l with
  | [] => None
  | x :: r => Some (x, reverse r)
  end.

Section Operations.

Context {D : Type} `{DM : DiskManager D}.

Definition upd (g : BufferPoolManager -> BufferPoolManager) (w : World D) : World D :=
  mkWorld (g (bpm w)) (disk_manager_ w) (trace w).

Definition emit (e : Event) (w : World D) : World D :=
  mkWorld (bpm w) (disk_manager_ w) (trace w ++ [e]).

Definition set_disk (d : D) (w : World D) : World D :=
  mkWorld (bpm w) d (trace w).

(** BufferPoolManager::BufferPoolManager *)
Definition BufferPoolManager_ctor (pool_size : nat) (disk_manager : D)
    (log_manager : bool) : World D :=
  mkWorld
    (mkBPM pool_size (replicate pool_size Page_ctor) ∅ (seq 0 pool_size)
           LRUReplacer.empty log_manager)
    disk_manager [].

(** BufferPoolManager::FlushPageHelper *)
Definition FlushPageHelper (frame_id : nat) (w : World D) : World D :=
  let page := frame (bpm w) frame_id in
  let w1 :=
    if log_manager_ (bpm w)
    then emit (LogFlush (GetLSN (data_ page)) true) w
    else w in
  let w2 :=
    emit (DiskWritePage (page_id_ page) (data_ page))
         (set_disk (WritePage (disk_manager_ w1) (page_id_ page) (data_ page)) w1) in
  upd (with_page frame_id (set_is_dirty false)) w2.

(** The frame acquisition that FetchPage (lines 107-127) and NewPage (lines
    212-227) both spell out: the back of the free list first, otherwise the
    replacer's victim, flushed when dirty and unmapped. [None] is the
    [return nullptr] taken when Evict fails. *)
Definition take_frame (w : World D) : option (nat * World D) :=
  match pop_back (free_list_ (bpm w)) with
  | Some (frame_id, rest) => Some (frame_id, upd (with_free_list (fun _ => rest)) w)
  | None =>
      match LRUReplacer.Evict (replacer_ (bpm w)) with
      | None => None
      | Some (frame_id, r') =>
          let w1 := upd (with_replacer (fun _ => r')) w in
          let w2 :=
            if is_dirty_ (frame (bpm w1) frame_id)
            then FlushPageHelper frame_id w1
            else w1 in
          Some (frame_id,
                upd (with_page_table (delete (page_id_ (frame (bpm w2) frame_id)))) w2)
      end
  end.

(** BufferPoolManager::FetchPage. The result is the frame whose Page is
    returned, [None] for nullptr. *)
Definition FetchPage (page_id : Z) (outbound_is_error : bool) (w : World D)
    : Ret (option nat) * World D :=
  match page_table_ (bpm w) !! page_id with
  | Some frame_id =>
      let w1 := upd (with_replacer (LRUReplacer.Pin frame_id)) w in
      let w2 :=
        upd (with_page frame_id
               (fun p => set_pin_count (u32 (pin_count_ p + 1)) p)) w1 in
      (Return (Some frame_id), w2)
  | None =>
      match take_frame w with
      | None => (Return None, w)
      | Some (frame_id, w1) =>
          let w2 := upd (with_page_table (<[page_id := frame_id]>)) w1 in
          let w3 :=
            upd (with_page frame_id
                   (fun p => mkPage (data_ p) page_id 1 false)) w2 in
          let w4 := emit (DiskReadPage page_id outbound_is_error) w3 in
          match ReadPage (disk_manager_ w4) page_id outbound_is_error with
          | None => (Throw IO, w4)
          | Some buf => (Return (Some frame_id), upd (with_page frame_id (set_data buf)) w4)
          end
      end
  end.

(** BufferPoolManager::UnpinPage *)
Definition UnpinPage (page_id : Z) (is_dirty : bool) (w : World D) : bool * World D :=
  match page_table_ (bpm w) !! page_id with
  | None => (false, w)
  | Some frame_id =>
      let w1 :=
        upd (with_page frame_id
               (fun p => set_is_dirty (is_dirty_ p || is_dirty) p)) w in
      if pin_count_ (frame (bpm w1) frame_id) =? 0 then (false, w1)
      else
        let w2 :=
          upd (with_page frame_id
                 (fun p => set_pin_count (u32 (pin_count_ p - 1)) p)) w1 in
        if pin_count_ (frame (bpm w2) frame_id) =? 0
        then (true, upd (with_replacer (LRUReplacer.Unpin frame_id)) w2)
        else (true, w2)
  end.

(** BufferPoolManager::FlushPage *)
Definition FlushPage (page_id : Z) (w : World D) : bool * World D :=
  match page_table_ (bpm w) !! page_id with
  | None => (false, w)
  | Some frame_id => (true, FlushPageHelper frame_id w)
  end.

(** BufferPoolManager::NewPage. The first component is the returned Page
    (its frame), the second the value stored through [page_id], if any. *)
Definition NewPage (w : World D) : (option nat * option Z) * World D :=
  if bool_decide (free_list_ (bpm w) = [])
     && (LRUReplacer.Size (replacer_ (bpm w)) =? 0)%nat
  then ((None, None), w)
  else
    let '(pid, d) := AllocatePage (disk_manager_ w) in
    let w1 := emit (DiskAllocatePage pid) (set_disk d w) in
    match take_frame w1 with
    | None => ((None, Some pid), w1)
    | Some (frame_id, w2) =>
        let w3 := upd (with_page_table (<[pid := frame_id]>)) w2 in
        let w4 :=
          upd (with_page frame_id (fun p => mkPage ZeroData pid 1 false)) w3 in
        ((Some frame_id, Some pid), w4)
    end.

(** BufferPoolManager::DeletePage *)
Definition DeletePage (page_id : Z) (w : World D) : bool * World D :=
  let w1 :=
    emit (DiskDeallocatePage page_id)
         (set_disk (DeallocatePage (disk_manager_ w) page_id) w) in
  match page_table_ (bpm w1) !! page_id with
  | None => (true, w1)
  | Some frame_id =>
      if 0 <? pin_count_ (frame (bpm w1) frame_id) then (false, w1)
      else
        let w2 := upd (with_page frame_id (set_page_id INVALID_PAGE_ID)) w1 in
        let w3 := upd (with_page_table (delete page_id)) w2 in
        let w4 := upd (with_free_list (cons frame_id)) w3 in
        (true, upd (with_replacer (LRUReplacer.Pin frame_id)) w4)
  end.

(** BufferPoolManager::FlushAllPages: the loop over frames 0 .. pool_size_-1. *)
Definition FlushAllPages_body (w : World D) (i : nat) : World D :=
  match page_table_ (bpm w) !! page_id_ (frame (bpm w) i) with
  | None => w
  | Some _ => FlushPageHelper i w
  end.

Definition FlushAllPages (w : World D) : World D :=
  foldl FlushAllPages_body w (seq 0 (pool_size_ (bpm w))).

(** BufferPoolManager::CheckPinCount (the LOG_ERROR lines aside). *)
Definition CheckPinCount (w : World D) : bool :=
  forallb
    (fun i =>
       match page_table_ (bpm w) !! page_id_ (frame (bpm w) i) with
       | None => true
       | Some _ => pin_count_ (frame (bpm w) i) =? 0
       end)
    (seq 0 (pool_size_ (bpm w))).

(** ** Sequences of public operations *)

(** The operations that change the pool, the disk or the log. *)
Inductive Op :=
| OpFetchPage (page_id : Z) (outbound_is_error : bool)
| OpUnpinPage (page_id : Z) (is_dirty : bool)
| OpNewPage
| OpDeletePage (page_id : Z)
| OpFlushPage (page_id : Z)
| OpFlushAllPages.

Definition step (w : World D) (op : Op) : World D :=
  match op with
  | OpFetchPage page_id oie => snd (FetchPage page_id oie w)
  | OpUnpinPage page_id is_dirty => snd (UnpinPage page_id is_dirty w)
  | OpNewPage => snd (NewPage w)
  | OpDeletePage page_id => snd (DeletePage page_id w)
  | OpFlushPage page_id => snd (FlushPage page_id w)
  | OpFlushAllPages => FlushAllPages w
  end.

Definition run (w : World D) (ops : list Op) : World D := foldl step w ops.

End Operations.

(** ** Write-ahead logging on traces *)

(** Scan a trace, remembering the LSN of the last forced log flush: every
    page write must find one, at least the LSN in the header of the bytes
    written. *)
Fixpoint wal_check (last : option Z) (t : list Event) : bool :=
  match t with
  | [] => true
  | LogFlush lsn true :: t' => wal_check (Some lsn) t'
  | DiskWritePage _ buf :: t' =>
      match last with
      | Some lsn => (GetLSN buf <=? lsn) && wal_check last t'
      | None => false
      end
  | _ :: t' => wal_check last t'
  end.

(** Events that are WAL-ordered whatever came before them. *)
Definition wal_safe (evs : list Event) : Prop := ∀ last, wal_check last evs = true.

Definition is_write (e : Event) : bool :=
  match e with DiskWritePage _ _ => true | _ => false end.

(** ** Invariants *)

(** Two pools that differ at most in the data and dirty bits of frames. *)
Definition same_frames (b b' : BufferPoolManager) : Prop :=
  pool_size_ b' = pool_size_ b ∧ page_table_ b' = page_table_ b ∧
  free_list_ b' = free_list_ b ∧ replacer_ b' = replacer_ b ∧
  log_manager_ b' = log_manager_ b ∧
  length (pages_ b') = length (pages_ b) ∧
  ∀ f, page_id_ (frame b' f) = page_id_ (frame b f) ∧
       pin_count_ (frame b' f) = pin_count_ (frame b f).

(** What every reachable pool satisfies: the free list has no repetition
    and holds frames of the pool; a mapped frame carries the page id it is
    mapped from and is not free; the replacer has no repetition and holds
    frames of the pool that are not free and have pin count zero. *)
Record bpm_inv (b : BufferPoolManager) : Prop := mk_inv {
  inv_pages : length (pages_ b) = pool_size_ b;
  inv_free_nodup : NoDup (free_list_ b);
  inv_free_range : ∀ f, f ∈ free_list_ b → (f < pool_size_ b)%nat;
  inv_table : ∀ pid f, page_table_ b !! pid = Some f →
    (f < pool_size_ b)%nat ∧ page_id_ (frame b f) = pid ∧ (f ∉ free_list_ b);
  inv_repl_nodup : NoDup (replacer_ b);
  inv_repl : ∀ f, f ∈ replacer_ b →
    (f < pool_size_ b)%nat ∧ (f ∉ free_list_ b) ∧ pin_count_ (frame b f) = 0
}.

(** Every frame is either free or mapped: the replacer's frames are mapped
    from their own page id, and the free list and the page table together
    count pool_size frames. *)
Record bpm_conserving (b : BufferPoolManager) : Prop := mk_cons {
  cons_inv : bpm_inv b;
  cons_repl : ∀ f, f ∈ replacer_ b → page_table_ b !! page_id_ (frame b f) = Some f;
  cons_count : (length (free_list_ b) + size (page_table_ b) = pool_size_ b)%nat
}.

(** A frame held by nobody: what take_frame hands out. *)
Definition detached (f : nat) (b : BufferPoolManager) : Prop :=
  (f < pool_size_ b)%nat ∧ (f ∉ free_list_ b) ∧ (f ∉ replacer_ b) ∧
  ∀ pid, page_table_ b !! pid ≠ Some f.

(** What every reachable pool satisfies besides: pin counts are uint32
    values, and a frame on the free list carries INVALID_PAGE_ID and pin
    count zero. *)
Definition bpm_tidy (b : BufferPoolManager) : Prop :=
  (∀ f, 0 ≤ pin_count_ (frame b f) < 2 ^ 32) ∧
  (∀ f, f ∈ free_list_ b →
        page_id_ (frame b f) = INVALID_PAGE_ID ∧ pin_count_ (frame b f) = 0).

Section Properties.

Context {D : Type} `{DM : DiskManager D}.

(** The page id NewPage obtained from AllocatePage is not resident. *)
Definition alloc_fresh (w : World D) (op : Op) : bool :=
  match op with
  | OpNewPage =>
      match snd (fst (NewPage w)) with
      | Some pid =>
          match page_table_ (bpm w) !! pid with None => true | Some _ => false end
      | None => true
      end
  | _ => true
  end.

Fixpoint allocs_fresh (w : World D) (ops : list Op) : bool :=
  match ops with
  | [] => true
  | op :: ops' => alloc_fresh w op && allocs_fresh (step w op) ops'
  end.

(** [w'] keeps the configuration of [w] and extends its trace by events
    that are WAL-ordered when a log manager is configured. *)
Definition wal_ext (w w' : World D) : Prop :=
  (pool_size_ (bpm w') = pool_size_ (bpm w) ∧
   log_manager_ (bpm w') = log_manager_ (bpm w)) ∧
  ∃ evs, trace w' = trace w ++ evs ∧ (log_manager_ (bpm w) = true → wal_safe evs).

End Properties.

End BufferPool.

(* ===================================================================== *)
(** * B+Tree page header (storage/page/b_plus_tree_page.h)                *)
(* ===================================================================== *)

Module BPlusTreePage.

Inductive IndexPageType :=
| INVALID_INDEX_PAGE
| LEAF_PAGE
| INTERNAL_PAGE.

(** Arithmetic on [int]: the result taken in 32-bit two's complement. *)
Definition int_wrap (z : Z) : Z := (z + 2 ^ 31) mod 2 ^ 32 - 2 ^ 31.

(** The header fields: PageId and LSN come from PageHeader, the rest are
    the members of BPlusTreePage. *)
Record t := mk {
  page_id_ : Z;
  lsn_ : Z;
  size_ : Z;
  max_size_ : Z;
  parent_page_id_ : Z;
  page_type_ : IndexPageType
}.

Definition IsLeafPage (p : t) : bool :=
  match page_type_ p with
  | LEAF_PAGE => true
  | _ => false
  end.

Definition IsRootPage (p : t) : bool := parent_page_id_ p =? BufferPool.INVALID_PAGE_ID.

Definition GetSize (p : t) : Z := size_ p.

Definition GetMaxSize (p : t) : Z := max_size_ p.

(** BPlusTreePage::GetMinSize. [/] on [int] truncates toward zero. *)
Definition GetMinSize (p : t) : Z :=
  if IsLeafPage p then Z.quot (max_size_ p) 2
  else Z.quot (int_wrap (max_size_ p + 1)) 2.

(** The threshold in the words of the specification: [max_size/2] for a
    leaf, the ceiling of [(max_size+1)/2] for an internal page. *)
Definition spec_min_size (p : t) : Z :=
  if IsLeafPage p then Qround.Qfloor (QArith_base.Qmake (max_size_ p) 2)
  else Qround.Qceiling (QArith_base.Qmake (max_size_ p + 1) 2).

(** An internal page of max_size 4, as a tree with internal_max_size 4
    creates it. *)
Definition internal_page_4 : t := mk 1 0 0 4 BufferPool.INVALID_PAGE_ID INTERNAL_PAGE.

End BPlusTreePage.

(* ===================================================================== *)
(** * Index metadata and builder (storage/index/index.h, index_builder.cpp) *)
(* ===================================================================== *)

Module Index.

(** The index kinds, spelled as index_builder.cpp uses them
    ([IndexType::BPlusTreeType]); index.h spells them BPlusTree, HashTable. *)
Inductive IndexType :=
| BPlusTreeType
| HashTableType.

(** The members of IndexMetadata. [key_schema_] (catalog/schema.h is not
    part of the sources) is represented by the one thing the builder asks
    of it, the key width. *)
Record IndexMetadata := mkIndexMetadata {
  index_name_ : string;
  table_name_ : string;
  key_attrs_ : list Z;
  type_ : IndexType;
  key_size_ : Z
}.

Definition GetIndexType (m : IndexMetadata) : IndexType := type_ m.

Definition GetKeyAttrs (m : IndexMetadata) : list Z := key_attrs_ m.

(** Modelled from the spec: IndexMetadata::GetKeySize, which the builder
    calls and the index.h of the sources does not declare: the width of the
    key in bytes ([metadata.key_size]). *)
Definition GetKeySize (m : IndexMetadata) : Z := key_size_ m.

(** ** Accessor bodies *)

(** The statements an accessor body is made of. *)
Inductive Stmt (A : Type) :=
| ExprStmt (e : A)
| ReturnStmt (e : A).
Arguments ExprStmt {A} e.
Arguments ReturnStmt {A} e.

(** Running the body of a function that returns an [A]: the value of the
    first [return]; [None] when control flows off the end, where a C++
    function with a non-void result has no defined value. *)
Fixpoint run_body {A} (body : list (Stmt A)) : option A :=
  match body with
  | [] => None
  | ExprStmt _ :: rest => run_body rest
  | ReturnStmt e :: _ => Some e
  end.

(** [return index_name_;] *)
Definition GetIndexName_body (m : IndexMetadata) : list (Stmt string) :=
  [ReturnStmt (index_name_ m)].

(** [table_name_;] *)
Definition GetTableName_body (m : IndexMetadata) : list (Stmt string) :=
  [ExprStmt (table_name_ m)].

Definition GetIndexName (m : IndexMetadata) : option string :=
  run_body (GetIndexName_body m).

Definition GetTableName (m : IndexMetadata) : option string :=
  run_body (GetTableName_body m).

(** ** The builder *)

(** The index objects Build creates: BPlusTreeIndex over GenericKey<W>, RID
    and GenericComparator<W>, holding the metadata and the buffer pool. *)
Inductive Index (B : Type) :=
| BPlusTreeIndex (W : Z) (metadata : IndexMetadata) (bpm : B).
Arguments BPlusTreeIndex {B} W metadata bpm.

Definition supported_key_sizes : list Z := [4; 8; 16; 32; 64].

(** IndexBuilder::Build *)
Definition Build {B : Type} (metadata : IndexMetadata) (bpm : B) : Ret (Index B) :=
  match GetIndexType metadata with
  | BPlusTreeType =>
      match GetKeySize metadata with
      | 4 => Return (BPlusTreeIndex 4 metadata bpm)
      | 8 => Return (BPlusTreeIndex 8 metadata bpm)
      | 16 => Return (BPlusTreeIndex 16 metadata bpm)
      | 32 => Return (BPlusTreeIndex 32 metadata bpm)
      | 64 => Return (BPlusTreeIndex 64 metadata bpm)
      | _ => Throw NOT_IMPLEMENTED
      end
  | _ => Throw NOT_IMPLEMENTED
  end.

End Index.

(* ===================================================================== *)
(** * Integer division and modulo (type/integer_parent_type.h, type/value.h) *)
(* ===================================================================== *)

Module IntegerParentType.

(** The value kinds value.h names (type/type_id.h is not part of the
    sources). *)
Inductive TypeId :=
| INVALID
| BOOLEAN
| TINYINT
| SMALLINT
| INTEGER
| BIGINT
| DECIMAL
| VARCHAR
| TIMESTAMP.

(** The integer types DivideValue and ModuloValue are instantiated with. *)
Inductive CInt :=
| int8_t
| int16_t
| int32_t
| int64_t.

Definition sizeof (T : CInt) : Z :=
  match T with
  | int8_t => 1
  | int16_t => 2
  | int32_t => 4
  | int64_t => 8
  end.

Definition bits (T : CInt) : Z := 8 * sizeof T.

Definition min_of (T : CInt) : Z := - 2 ^ (bits T - 1).

Definition max_of (T : CInt) : Z := 2 ^ (bits T - 1) - 1.

Definition representable (T : CInt) (z : Z) : Prop := min_of T ≤ z ≤ max_of T.

Definition representableb (T : CInt) (z : Z) : bool :=
  (min_of T <=? z) && (z <=? max_of T).

(** static_cast<T>: the value modulo 2^bits, in two's complement. *)
Definition static_cast (T : CInt) (z : Z) : Z :=
  (z + 2 ^ (bits T - 1)) mod 2 ^ bits T - 2 ^ (bits T - 1).

(** The type [x / y] and [x % y] are computed in: both operands promoted to
    [int], or converted to [int64_t] when one of them is. *)
Definition common_type (T1 T2 : CInt) : CInt :=
  match T1, T2 with
  | int64_t, _ | _, int64_t => int64_t
  | _, _ => int32_t
  end.

(** The built-in [/] and [%] on the type [C]. [None] is undefined
    behaviour: a zero divisor, or a quotient that [C] cannot represent. *)
Definition cpp_div (C : CInt) (x y : Z) : option Z :=
  if y =? 0 then None
  else if representableb C (Z.quot x y) then Some (Z.quot x y) else None.

Definition cpp_rem (C : CInt) (x y : Z) : option Z :=
  if y =? 0 then None
  else if representableb C (Z.quot x y) then Some (Z.rem x y) else None.

(** The members of Value: the union [value_] as a 64-bit pattern, [len_]
    and [type_id_]. *)
Record Value := mkValue {
  value_ : Z;
  len_ : Z;
  type_id_ : TypeId
}.

Definition GetTypeId (v : Value) : TypeId := type_id_ v.

(** Value::GetAs<T>: the low sizeof(T) bytes of the union read as a T. *)
Definition GetAs (T : CInt) (v : Value) : Z := static_cast T (value_ v).

(** What a call of DivideValue or ModuloValue does: [Returns type_id T i]
    stands for [return Value(type_id, i)] with [i] of type [T] (the Value
    constructors are in value.cpp, not part of the sources). *)
Inductive Outcome :=
| Returns (type_id : TypeId) (T : CInt) (i : Z)
| Throws (e : ExceptionType)
| Undefined.

(** IntegerParentType::DivideValue<T1, T2> *)
Definition DivideValue (T1 T2 : CInt) (lhs rhs : Value) : Outcome :=
  let x := GetAs T1 lhs in
  let y := GetAs T2 rhs in
  if y =? 0 then Throws DIVIDE_BY_ZERO
  else
    match cpp_div (common_type T1 T2) x y with
    | None => Undefined
    | Some q =>
        let quot1 := static_cast T1 q in
        let quot2 := static_cast T2 q in
        if sizeof T2 <=? sizeof T1 then Returns (GetTypeId lhs) T1 quot1
        else Returns (GetTypeId rhs) T2 quot2
    end.

(** IntegerParentType::ModuloValue<T1, T2> *)
Definition ModuloValue (T1 T2 : CInt) (lhs rhs : Value) : Outcome :=
  let x := GetAs T1 lhs in
  let y := GetAs T2 rhs in
  if y =? 0 then Throws DIVIDE_BY_ZERO
  else
    match cpp_rem (common_type T1 T2) x y with
    | None => Undefined
    | Some r =>
        let rem1 := static_cast T1 r in
        let rem2 := static_cast T2 r in
        if sizeof T2 <=? sizeof T1 then Returns (GetTypeId lhs) T1 rem1
        else Returns (GetTypeId rhs) T2 rem2
    end.

(** The wider operand, the left one when the widths are equal. *)
Definition wider (T1 T2 : CInt) : CInt :=
  if sizeof T2 <=? sizeof T1 then T1 else T2.

Definition wider_type_id (T1 T2 : CInt) (lhs rhs : Value) : TypeId :=
  if sizeof T2 <=? sizeof T1 then GetTypeId lhs else GetTypeId rhs.

(** ** Addition, subtraction and multiplication *)

(** The built-in [+], [-] and [*] on the type [C] the operands are
    promoted to. A result that [C] cannot represent is a signed overflow:
    C++ leaves it undefined, and the compiled code carries on with the
    result wrapped to [C] in two's complement, which is what is embedded.
    The properties proved of the three operations are stated where no
    overflow occurs; past it an optimising build may also drop the sign
    tests, which can fire only after an overflow. *)
Definition cpp_add (C : CInt) (x y : Z) : Z := static_cast C (x + y).

Definition cpp_sub (C : CInt) (x y : Z) : Z := static_cast C (x - y).

Definition cpp_mul (C : CInt) (x y : Z) : Z := static_cast C (x * y).

(** IntegerParentType::AddValue<T1, T2> *)
Definition AddValue (T1 T2 : CInt) (lhs rhs : Value) : Outcome :=
  let x := GetAs T1 lhs in
  let y := GetAs T2 rhs in
  let s := cpp_add (common_type T1 T2) x y in
  let sum1 := static_cast T1 s in
  let sum2 := static_cast T2 s in
  if negb (s =? sum1) && negb (s =? sum2) then Throws OUT_OF_RANGE
  else if sizeof T2 <=? sizeof T1 then
    if (0 <? x) && (0 <? y) && (sum1 <? 0) || (x <? 0) && (y <? 0) && (0 <? sum1)
    then Throws OUT_OF_RANGE
    else Returns (GetTypeId lhs) T1 sum1
  else
    if (0 <? x) && (0 <? y) && (sum2 <? 0) || (x <? 0) && (y <? 0) && (0 <? sum2)
    then Throws OUT_OF_RANGE
    else Returns (GetTypeId rhs) T2 sum2.

(** IntegerParentType::SubtractValue<T1, T2> *)
Definition SubtractValue (T1 T2 : CInt) (lhs rhs : Value) : Outcome :=
  let x := GetAs T1 lhs in
  let y := GetAs T2 rhs in
  let d := cpp_sub (common_type T1 T2) x y in
  let diff1 := static_cast T1 d in
  let diff2 := static_cast T2 d in
  if negb (d =? diff1) && negb (d =? diff2) then Throws OUT_OF_RANGE
  else if sizeof T2 <=? sizeof T1 then
    if (0 <? x) && (y <? 0) && (diff1 <? 0) || (x <? 0) && (0 <? y) && (0 <? diff1)
    then Throws OUT_OF_RANGE
    else Returns (GetTypeId lhs) T1 diff1
  else
    if (0 <? x) && (y <? 0) && (diff2 <? 0) || (x <? 0) && (0 <? y) && (0 <? diff2)
    then Throws OUT_OF_RANGE
    else Returns (GetTypeId rhs) T2 diff2.

(** IntegerParentType::MultiplyValue<T1, T2> *)
Definition MultiplyValue (T1 T2 : CInt) (lhs rhs : Value) : Outcome :=
  let x := GetAs T1 lhs in
  let y := GetAs T2 rhs in
  let p := cpp_mul (common_type T1 T2) x y in
  let prod1 := static_cast T1 p in
  let prod2 := static_cast T2 p in
  if negb (p =? prod1) && negb (p =? prod2) then Throws OUT_OF_RANGE
  else if sizeof T2 <=? sizeof T1 then
    if (0 <? x) && (y <? 0) && (prod1 <? 0) || (x <? 0) && (0 <? y) && (0 <? prod1)
    then Throws OUT_OF_RANGE
    else Returns (GetTypeId lhs) T1 prod1
  else
    if (0 <? x) && (y <? 0) && (prod2 <? 0) || (x <? 0) && (0 <? y) && (0 <? prod2)
    then Throws OUT_OF_RANGE
    else Returns (GetTypeId rhs) T2 prod2.

(** The shape shared by the three operations: the result [r] of the
    built-in operator, the range test, and the sign test [bad]. *)
Definition checked (T1 T2 : CInt) (lhs rhs : Value) (r : Z) (bad : Z → bool) : Outcome :=
  if negb (r =? static_cast T1 r) && negb (r =? static_cast T2 r) then Throws OUT_OF_RANGE
  else if sizeof T2 <=? sizeof T1 then
    if bad (static_cast T1 r) then Throws OUT_OF_RANGE
    else Returns (GetTypeId lhs) T1 (static_cast T1 r)
  else
    if bad (static_cast T2 r) then Throws OUT_OF_RANGE
    else Returns (GetTypeId rhs) T2 (static_cast T2 r).

(** The sign tests of AddValue, and of SubtractValue and MultiplyValue,
    on the cast result [s]. *)
Definition add_bad (x y s : Z) : bool :=
  (0 <? x) && (0 <? y) && (s <? 0) || (x <? 0) && (y <? 0) && (0 <? s).

Definition sub_mul_bad (x y s : Z) : bool :=
  (0 <? x) && (y <? 0) && (s <? 0) || (x <? 0) && (0 <? y) && (0 <? s).

End IntegerParentType.

(* ===================================================================== *)
(** * Buffer pool manager: invariants and contracts *)
(* ===================================================================== *)

Module BufferPoolFacts.

Import BufferPool.

Lemma pop_back_Some {A} (l : list A) x r : pop_back l = Some (x, r) ↔ l = r ++ [x].
Proof.
  unfold pop_back. split.
  - destruct (reverse l) as [|y t] eqn:E; [done|]. intros [= -> <-].
    apply (f_equal reverse) in E. rewrite reverse_involutive in E.
    by rewrite E, reverse_cons.
  - intros ->. by rewrite reverse_snoc, reverse_involutive.
Qed.

Lemma pop_back_None {A} (l : list A) : pop_back l = None ↔ l = [].
Proof.
  unfold pop_back. split.
  - destruct (reverse l) eqn:E; [|done]. intros _.
    apply (f_equal reverse) in E. by rewrite reverse_involutive in E.
  - by intros ->.
Qed.

Lemma frame_with_page b f g f' :
  frame (with_page f g b) f' =
    if decide (f' = f ∧ (f < length (pages_ b))%nat) then g (frame b f) else frame b f'.
Proof.
  unfold frame, with_page, with_pages; simpl.
  destruct (decide (f' = f)) as [->|Hne].
  - rewrite list_lookup_alter_eq.
    destruct (pages_ b !! f) eqn:E; simpl.
    + apply lookup_lt_Some in E. by rewrite decide_True.
    + apply lookup_ge_None in E. rewrite decide_False; [done|lia].
  - rewrite list_lookup_alter_ne by done. rewrite decide_False; [done|tauto].
Qed.


Lemma same_frames_refl b : same_frames b b.
Proof. by repeat split. Qed.

Lemma same_frames_trans b1 b2 b3 :
  same_frames b1 b2 → same_frames b2 b3 → same_frames b1 b3.
Proof.
  intros (?&?&?&?&?&?&H12) (?&?&?&?&?&?&H23).
  repeat split; try congruence.
  - rewrite (proj1 (H23 f)). apply H12.
  - rewrite (proj2 (H23 f)). apply H12.
Qed.

Lemma same_frames_with_page b f g :
  (∀ p, page_id_ (g p) = page_id_ p ∧ pin_count_ (g p) = pin_count_ p) →
  same_frames b (with_page f g b).
Proof.
  intros Hg. repeat split; try done.
  - simpl. apply length_alter.
  - rewrite frame_with_page. case_decide as Hd; [|done].
    destruct Hd as [-> _]. apply Hg.
  - rewrite frame_with_page. case_decide as Hd; [|done].
    destruct Hd as [-> _]. apply Hg.
Qed.

Lemma bpm_inv_same_frames b b' : same_frames b b' → bpm_inv b → bpm_inv b'.
Proof.
  intros (Hp&Ht&Hf&Hr&_&Hl&Hfr) [].
  split; rewrite ?Hp, ?Ht, ?Hf, ?Hr, ?Hl; try done.
  - intros pid f Hpf. rewrite (proj1 (Hfr f)). auto.
  - intros f Hin. rewrite (proj2 (Hfr f)). auto.
Qed.

Lemma bpm_conserving_same_frames b b' :
  same_frames b b' → bpm_conserving b → bpm_conserving b'.
Proof.
  intros Hs []. pose proof (bpm_inv_same_frames _ _ Hs cons_inv0).
  destruct Hs as (Hp&Ht&Hf&Hr&_&Hl&Hfr).
  split; rewrite ?Hp, ?Ht, ?Hf, ?Hr; try done.
  intros f Hin. rewrite (proj1 (Hfr f)). auto.
Qed.


Lemma frame_with_page_table g b f : frame (with_page_table g b) f = frame b f.
Proof. done. Qed.

Lemma size_delete_Some (m : gmap Z nat) i x :
  m !! i = Some x → S (size (delete i m)) = size m.
Proof.
  intros Hi. rewrite map_size_delete, Hi.
  pose proof (map_size_ne_0_lookup_2 m i (mk_is_Some _ _ Hi)).
  destruct (size m); [done|reflexivity].
Qed.

Lemma Pin_elem f g r : g ∈ LRUReplacer.Pin f r ↔ g ≠ f ∧ g ∈ r.
Proof. unfold LRUReplacer.Pin. by rewrite list_elem_of_filter. Qed.

Lemma Pin_NoDup f r : NoDup r → NoDup (LRUReplacer.Pin f r).
Proof. apply NoDup_filter. Qed.

Lemma Unpin_elem f g r : g ∈ LRUReplacer.Unpin f r ↔ g = f ∨ g ∈ r.
Proof.
  unfold LRUReplacer.Unpin. case_decide.
  - split; [auto|]. intros [->|]; done.
  - rewrite elem_of_app, list_elem_of_singleton. tauto.
Qed.

Lemma Unpin_NoDup f r : NoDup r → NoDup (LRUReplacer.Unpin f r).
Proof.
  intros Hr. unfold LRUReplacer.Unpin. case_decide; [done|].
  apply NoDup_app. split_and!; [done| |apply NoDup_singleton].
  intros x Hx ->%list_elem_of_singleton. done.
Qed.

Lemma Evict_Some r f r' : LRUReplacer.Evict r = Some (f, r') ↔ r = f :: r'.
Proof. destruct r as [|x r]; simpl; split; intros H; by simplify_eq. Qed.

(** Shrinking the free list, the page table and the replacer keeps the
    invariant. *)
Lemma bpm_inv_sub b b' :
  pool_size_ b' = pool_size_ b → pages_ b' = pages_ b →
  NoDup (free_list_ b') → (∀ f, f ∈ free_list_ b' → f ∈ free_list_ b) →
  (∀ pid f, page_table_ b' !! pid = Some f → page_table_ b !! pid = Some f) →
  NoDup (replacer_ b') → (∀ f, f ∈ replacer_ b' → f ∈ replacer_ b) →
  bpm_inv b → bpm_inv b'.
Proof.
  intros Hp Hg Hnf Hf Ht Hnr Hr [].
  assert (Hfr : ∀ f, frame b' f = frame b f) by (intros f; unfold frame; by rewrite Hg).
  split; rewrite ?Hp, ?Hg; try done.
  - auto.
  - intros pid f Hpf. rewrite Hfr. destruct (inv_table0 _ _ (Ht _ _ Hpf)) as (?&?&?).
    split_and!; auto.
  - intros f Hin. rewrite Hfr. destruct (inv_repl0 _ (Hr _ Hin)) as (?&?&?).
    split_and!; auto.
Qed.

(** Rewriting one frame keeps the invariant when the page id stays and a
    frame of the replacer keeps pin count zero. *)
Lemma bpm_inv_with_page b f g :
  bpm_inv b → (∀ p, page_id_ (g p) = page_id_ p) →
  (f ∈ replacer_ b → pin_count_ (g (frame b f)) = 0) →
  bpm_inv (with_page f g b).
Proof.
  intros [] Hid Hpin. split; simpl; try done.
  - by rewrite length_alter.
  - intros pid f' Hpf. destruct (inv_table0 _ _ Hpf) as (?&?&?).
    split_and!; try done. rewrite frame_with_page. case_decide as Hd; [|done].
    destruct Hd as [-> _]. by rewrite Hid.
  - intros f' Hin. destruct (inv_repl0 _ Hin) as (?&?&?).
    split_and!; try done. rewrite frame_with_page. case_decide as Hd; [|done].
    destruct Hd as [-> _]. auto.
Qed.

(** Mapping [pid] to a detached frame whose page id is set to [pid]. *)
Lemma bpm_inv_attach b f pid g :
  bpm_inv b → detached f b → (∀ p, page_id_ (g p) = pid) →
  bpm_inv (with_page f g (with_page_table (<[pid := f]>) b)).
Proof.
  intros [] (Hlt & Hnf & Hnr & Hnt) Hg. split; simpl; try done.
  - by rewrite length_alter.
  - intros pid' f'. rewrite lookup_insert. case_decide as Hd.
    + intros [= <-]. subst pid'. split_and!; try done.
      rewrite frame_with_page. simpl. rewrite decide_True; [apply Hg|].
      split; [done|lia].
    + intros Hpf. destruct (inv_table0 _ _ Hpf) as (?&?&?).
      split_and!; try done. rewrite frame_with_page. rewrite decide_False; [done|].
      intros [-> _]. by apply (Hnt pid').
  - intros f' Hin. destruct (inv_repl0 _ Hin) as (?&?&?).
    split_and!; try done. rewrite frame_with_page. rewrite decide_False; [done|].
    intros [-> _]. done.
Qed.

Section Inv.
Context {D : Type} `{DM : DiskManager D}.

Lemma FlushPageHelper_same_frames f (w : World D) :
  same_frames (bpm w) (bpm (FlushPageHelper f w)).
Proof.
  unfold FlushPageHelper. destruct (log_manager_ (bpm w)); simpl;
    by apply same_frames_with_page.
Qed.

Lemma FlushAllPages_same_frames (w : World D) :
  same_frames (bpm w) (bpm (FlushAllPages w)).
Proof.
  unfold FlushAllPages. generalize (seq 0 (pool_size_ (bpm w))) as l.
  intros l. revert w. induction l as [|i l IH]; intros w; simpl.
  - apply same_frames_refl.
  - eapply same_frames_trans; [|apply IH].
    unfold FlushAllPages_body. destruct (page_table_ _ !! _).
    + apply FlushPageHelper_same_frames.
    + apply same_frames_refl.
Qed.

Lemma FlushPage_same_frames pid (w : World D) :
  same_frames (bpm w) (bpm (snd (FlushPage pid w))).
Proof.
  unfold FlushPage. destruct (page_table_ _ !! _); simpl.
  - apply FlushPageHelper_same_frames.
  - apply same_frames_refl.
Qed.


Lemma BufferPoolManager_ctor_inv n (d : D) lm :
  bpm_inv (bpm (BufferPoolManager_ctor n d lm)).
Proof.
  split; simpl.
  - apply length_replicate.
  - apply NoDup_seq.
  - intros f Hf%elem_of_seq. lia.
  - intros pid f. by rewrite lookup_empty.
  - apply NoDup_nil_2.
  - intros f Hf. by apply elem_of_nil in Hf.
Qed.

Lemma take_frame_inv (w w' : World D) f :
  bpm_inv (bpm w) → take_frame w = Some (f, w') →
  bpm_inv (bpm w') ∧ detached f (bpm w') ∧ log_manager_ (bpm w') = log_manager_ (bpm w).
Proof.
  intros Hinv. unfold take_frame.
  destruct (pop_back (free_list_ (bpm w))) as [[f0 rest]|] eqn:Hpop.
  - intros [= -> <-]. apply pop_back_Some in Hpop.
    pose proof (inv_free_nodup _ Hinv) as Hnd. rewrite Hpop in Hnd.
    apply NoDup_app in Hnd as (Hnd1 & Hnd2 & _).
    assert (Hf : f ∈ free_list_ (bpm w))
      by (rewrite Hpop, elem_of_app; right; apply list_elem_of_here).
    assert (Hsub : ∀ g, g ∈ rest → g ∈ free_list_ (bpm w))
      by (intros g Hg; rewrite Hpop, elem_of_app; by left).
    split; [|split; [repeat split|done]]; simpl.
    + eapply (bpm_inv_sub (bpm w)); simpl;
        [done|done|done|done|done|apply Hinv|done|exact Hinv].
    + by apply inv_free_range.
    + intros Hin. apply (Hnd2 _ Hin). apply list_elem_of_here.
    + intros Hin. by destruct (inv_repl _ Hinv _ Hin) as (_&?&_).
    + intros pid Hpf. by destruct (inv_table _ Hinv _ _ Hpf) as (_&_&?).
  - apply pop_back_None in Hpop.
    destruct (LRUReplacer.Evict (replacer_ (bpm w))) as [[f0 r']|] eqn:Hev; [|done].
    set (w1 := upd (with_replacer (λ _, r')) w).
    set (w2 := if is_dirty_ (frame (bpm w1) f0) then FlushPageHelper f0 w1 else w1).
    intros Heq. injection Heq as -> <-. apply Evict_Some in Hev.
    pose proof (inv_repl_nodup _ Hinv) as Hnd. rewrite Hev in Hnd.
    apply NoDup_cons in Hnd as [Hnd1 Hnd2].
    assert (Hinv1 : bpm_inv (bpm w1)).
    { eapply (bpm_inv_sub (bpm w)); simpl;
        [done|done|apply Hinv|done|done|done| |exact Hinv].
      intros g Hg. rewrite Hev. by apply list_elem_of_further. }
    assert (Hsame : same_frames (bpm w1) (bpm w2)).
    { subst w2. destruct (is_dirty_ _);
        [apply FlushPageHelper_same_frames|apply same_frames_refl]. }
    pose proof (bpm_inv_same_frames _ _ Hsame Hinv1) as Hinv2.
    clearbody w2. destruct Hsame as (Hp&Ht&Hf&Hr&Hlm&Hl&Hfr).
    assert (Hfin : f ∈ replacer_ (bpm w)) by (rewrite Hev; apply list_elem_of_here).
    destruct (inv_repl _ Hinv _ Hfin) as (Hlt & Hnfree & _).
    split; [|split; [repeat split|]]; simpl.
    + eapply (bpm_inv_sub (bpm w2)); simpl;
        [done|done|apply Hinv2|done| |apply Hinv2|done|exact Hinv2].
      intros pid g Hpg. apply lookup_delete_Some in Hpg. tauto.
    + by rewrite Hp.
    + by rewrite Hf.
    + by rewrite Hr.
    + intros pid Hpf. apply lookup_delete_Some in Hpf as [Hne Hpf].
      destruct (inv_table _ Hinv2 _ _ Hpf) as (_&?&_). congruence.
    + by rewrite Hlm.
Qed.

Lemma FetchPage_inv pid oie (w : World D) :
  bpm_inv (bpm w) → bpm_inv (bpm (snd (FetchPage pid oie w))).
Proof.
  intros Hinv. unfold FetchPage.
  destruct (page_table_ (bpm w) !! pid) as [f|] eqn:Hpt; simpl.
  - apply bpm_inv_with_page; [|done|].
    + eapply (bpm_inv_sub (bpm w)); simpl;
        [done|done|apply Hinv|done|done|apply Pin_NoDup, Hinv| |exact Hinv].
      intros g Hg%Pin_elem. tauto.
    + simpl. intros Hin%Pin_elem. tauto.
  - destruct (take_frame w) as [[f w1]|] eqn:Htf; [|done].
    destruct (take_frame_inv _ _ _ Hinv Htf) as (Hinv1 & Hdet & _).
    pose proof (bpm_inv_attach _ f pid (λ p, mkPage (data_ p) pid 1 false)
                  Hinv1 Hdet (λ _, eq_refl)) as Hinv3.
    destruct (ReadPage _ _ _); simpl; [|done].
    eapply bpm_inv_same_frames; [|exact Hinv3].
    by apply same_frames_with_page.
Qed.

Lemma NewPage_inv (w : World D) :
  bpm_inv (bpm w) → bpm_inv (bpm (snd (NewPage w))).
Proof.
  intros Hinv. unfold NewPage.
  destruct (_ && _); [done|].
  destruct (AllocatePage (disk_manager_ w)) as [pid d].
  set (w1 := emit _ _).
  destruct (take_frame w1) as [[f w2]|] eqn:Htf; [|done].
  destruct (take_frame_inv w1 _ _ Hinv Htf) as (Hinv1 & Hdet & _).
  simpl. by apply bpm_inv_attach.
Qed.

Lemma UnpinPage_inv pid is_dirty (w : World D) :
  bpm_inv (bpm w) → bpm_inv (bpm (snd (UnpinPage pid is_dirty w))).
Proof.
  intros Hinv. unfold UnpinPage.
  destruct (page_table_ (bpm w) !! pid) as [f|] eqn:Hpt; [|done].
  set (w1 := upd (with_page f (λ p, set_is_dirty (is_dirty_ p || is_dirty) p)) w).
  assert (Hsame : same_frames (bpm w) (bpm w1)) by by apply same_frames_with_page.
  pose proof (bpm_inv_same_frames _ _ Hsame Hinv) as Hinv1.
  destruct (pin_count_ (frame (bpm w1) f) =? 0) eqn:Hz; [done|].
  apply Z.eqb_neq in Hz.
  set (w2 := upd (with_page f (λ p, set_pin_count (u32 (pin_count_ p - 1)) p)) w1).
  assert (Hinv2 : bpm_inv (bpm w2)).
  { apply bpm_inv_with_page; [done|done|].
    intros Hin. by destruct (inv_repl _ Hinv1 _ Hin) as (_&_&?). }
  destruct (pin_count_ (frame (bpm w2) f) =? 0) eqn:Hz2; [|done].
  apply Z.eqb_eq in Hz2. simpl.
  destruct (inv_table _ Hinv _ _ Hpt) as (Hlt & _ & Hnfree).
  destruct Hinv2. split; simpl; try done.
  - by apply Unpin_NoDup.
  - intros g [->|Hg]%Unpin_elem; [|by auto].
    split_and!; done.
Qed.

Lemma DeletePage_inv pid (w : World D) :
  bpm_inv (bpm w) → bpm_inv (bpm (snd (DeletePage pid w))).
Proof.
  intros Hinv. unfold DeletePage. simpl.
  destruct (page_table_ (bpm w) !! pid) as [f|] eqn:Hpt; [|done].
  destruct (0 <? _); [done|]. simpl.
  destruct (inv_table _ Hinv _ _ Hpt) as (Hlt & Hid & Hnfree).
  destruct Hinv. split; simpl.
  - by rewrite length_alter.
  - by apply NoDup_cons.
  - intros g [->|Hg]%elem_of_cons; auto.
  - intros pid' g Hpg. apply lookup_delete_Some in Hpg as [Hne Hpg].
    destruct (inv_table0 _ _ Hpg) as (?&?&?).
    assert (g ≠ f) by congruence.
    split_and!; [done| |by intros [?|?]%elem_of_cons].
    change (page_id_ (frame (with_page f (set_page_id INVALID_PAGE_ID) (bpm w)) g) = pid').
    rewrite frame_with_page, decide_False; [done|tauto].
  - by apply Pin_NoDup.
  - intros g [Hne Hg]%Pin_elem. destruct (inv_repl0 _ Hg) as (?&?&?).
    split_and!; [done|by intros [?|?]%elem_of_cons|].
    change (pin_count_ (frame (with_page f (set_page_id INVALID_PAGE_ID) (bpm w)) g) = 0).
    rewrite frame_with_page, decide_False; [done|tauto].
Qed.

Lemma step_inv (w : World D) op : bpm_inv (bpm w) → bpm_inv (bpm (step w op)).
Proof.
  intros Hinv. destruct op; simpl.
  - by apply FetchPage_inv.
  - by apply UnpinPage_inv.
  - by apply NewPage_inv.
  - by apply DeletePage_inv.
  - eapply bpm_inv_same_frames; [apply FlushPage_same_frames|done].
  - eapply bpm_inv_same_frames; [apply FlushAllPages_same_frames|done].
Qed.

Lemma run_inv (w : World D) ops : bpm_inv (bpm w) → bpm_inv (bpm (run w ops)).
Proof.
  revert w. induction ops as [|op ops IH]; intros w Hinv; [done|].
  simpl. apply IH. by apply step_inv.
Qed.


(** ** Conservation of frames *)

Lemma bpm_conserving_with_page b f g :
  bpm_conserving b → (∀ p, page_id_ (g p) = page_id_ p) →
  (f ∈ replacer_ b → pin_count_ (g (frame b f)) = 0) →
  bpm_conserving (with_page f g b).
Proof.
  intros [Hinv Hrepl Hcount] Hid Hpin. split; simpl; try done.
  - by apply bpm_inv_with_page.
  - intros f' Hin. rewrite frame_with_page. case_decide as Hd; [|by auto].
    destruct Hd as [-> _]. rewrite Hid. auto.
Qed.

Lemma BufferPoolManager_ctor_conserving n (d : D) lm :
  bpm_conserving (bpm (BufferPoolManager_ctor n d lm)).
Proof.
  split; simpl.
  - apply (BufferPoolManager_ctor_inv n d lm).
  - intros f Hf. by apply elem_of_nil in Hf.
  - rewrite length_seq, map_size_empty. lia.
Qed.

Lemma take_frame_conserving (w w' : World D) f :
  bpm_conserving (bpm w) → take_frame w = Some (f, w') →
  (∀ g, g ∈ replacer_ (bpm w') →
        page_table_ (bpm w') !! page_id_ (frame (bpm w') g) = Some g) ∧
  (length (free_list_ (bpm w')) + size (page_table_ (bpm w')) + 1
     = pool_size_ (bpm w'))%nat ∧
  (∀ pid, page_table_ (bpm w) !! pid = None → page_table_ (bpm w') !! pid = None).
Proof.
  intros [Hinv Hrepl Hcount]. unfold take_frame.
  destruct (pop_back (free_list_ (bpm w))) as [[f0 rest]|] eqn:Hpop.
  - intros Heq. injection Heq as -> <-. apply pop_back_Some in Hpop.
    rewrite Hpop, length_app in Hcount. simpl in *.
    split; [done|split; [lia|done]].
  - apply pop_back_None in Hpop.
    destruct (LRUReplacer.Evict (replacer_ (bpm w))) as [[f0 r']|] eqn:Hev; [|done].
    set (w1 := upd (with_replacer (λ _, r')) w).
    set (w2 := if is_dirty_ (frame (bpm w1) f0) then FlushPageHelper f0 w1 else w1).
    intros Heq. injection Heq as -> <-. apply Evict_Some in Hev.
    pose proof (inv_repl_nodup _ Hinv) as Hnd. rewrite Hev in Hnd.
    apply NoDup_cons in Hnd as [Hnd1 Hnd2].
    assert (Hsame : same_frames (bpm w1) (bpm w2)).
    { subst w2. destruct (is_dirty_ _);
        [apply FlushPageHelper_same_frames|apply same_frames_refl]. }
    clearbody w2. destruct Hsame as (Hp&Ht&Hf&Hr&Hlm&Hl&Hfr).
    simpl in Hp, Ht, Hf, Hr.
    assert (Hfin : f ∈ replacer_ (bpm w)) by (rewrite Hev; apply list_elem_of_here).
    pose proof (Hrepl _ Hfin) as Hq.
    assert (Hq2 : page_id_ (frame (bpm w2) f) = page_id_ (frame (bpm w) f))
      by apply Hfr.
    simpl. rewrite Hq2, Hp, Hf, Ht, Hr.
    split; [|split].
    + intros g Hg. rewrite frame_with_page_table.
      assert (page_id_ (frame (bpm w2) g) = page_id_ (frame (bpm w) g)) as ->
        by apply Hfr.
      assert (Hgin : g ∈ replacer_ (bpm w)) by (rewrite Hev; by apply list_elem_of_further).
      pose proof (Hrepl _ Hgin) as Hgq.
      rewrite lookup_delete_ne; [done|].
      intros Heq. rewrite Heq in Hq. rewrite Hgq in Hq.
      injection Hq as ->. done.
    + rewrite Hpop in *. simpl in *.
      pose proof (size_delete_Some _ _ _ Hq). lia.
    + intros pid Hnone. rewrite lookup_delete_None. by right.
Qed.

(** Mapping a page id that is not resident to a detached frame. *)
Lemma bpm_conserving_attach b f pid g :
  bpm_inv b → detached f b →
  (∀ g, g ∈ replacer_ b → page_table_ b !! page_id_ (frame b g) = Some g) →
  (length (free_list_ b) + size (page_table_ b) + 1 = pool_size_ b)%nat →
  page_table_ b !! pid = None → (∀ p, page_id_ (g p) = pid) →
  bpm_conserving (with_page f g (with_page_table (<[pid := f]>) b)).
Proof.
  intros Hinv Hdet Hrepl Hcount Hfresh Hg. split.
  - by apply bpm_inv_attach.
  - intros f' Hin. destruct Hdet as (_ & _ & Hnr & _).
    rewrite frame_with_page, decide_False; [|intros [-> _]; done].
    rewrite frame_with_page_table. simpl.
    rewrite lookup_insert_ne; [by apply Hrepl|].
    intros Heq. specialize (Hrepl _ Hin). rewrite <- Heq, Hfresh in Hrepl. done.
  - simpl. rewrite map_size_insert_None by done. lia.
Qed.

Lemma FetchPage_conserving pid oie (w : World D) :
  bpm_conserving (bpm w) → bpm_conserving (bpm (snd (FetchPage pid oie w))).
Proof.
  intros Hc. pose proof (cons_inv _ Hc) as Hinv. unfold FetchPage.
  destruct (page_table_ (bpm w) !! pid) as [f|] eqn:Hpt; simpl.
  - apply bpm_conserving_with_page; [|done|].
    + destruct Hc as [_ Hrepl Hcount]. split;
        [|intros g [_ Hg]%Pin_elem; by apply Hrepl|done].
      eapply (bpm_inv_sub (bpm w)); simpl;
        [done|done|apply Hinv|done|done|apply Pin_NoDup, Hinv| |exact Hinv].
      intros g Hg%Pin_elem. tauto.
    + simpl. intros Hin%Pin_elem. tauto.
  - destruct (take_frame w) as [[f w1]|] eqn:Htf; [|done].
    destruct (take_frame_inv _ _ _ Hinv Htf) as (Hinv1 & Hdet & _).
    destruct (take_frame_conserving _ _ _ Hc Htf) as (Hrepl1 & Hcount1 & Hsub).
    pose proof (bpm_conserving_attach _ f pid (λ p, mkPage (data_ p) pid 1 false)
                  Hinv1 Hdet Hrepl1 Hcount1 (Hsub _ Hpt) (λ _, eq_refl)) as Hc3.
    destruct (ReadPage _ _ _); simpl; [|done].
    eapply bpm_conserving_same_frames; [|exact Hc3].
    by apply same_frames_with_page.
Qed.

Lemma NewPage_conserving (w : World D) :
  bpm_conserving (bpm w) →
  (∀ pid, snd (fst (NewPage w)) = Some pid → page_table_ (bpm w) !! pid = None) →
  bpm_conserving (bpm (snd (NewPage w))).
Proof.
  intros Hc. pose proof (cons_inv _ Hc) as Hinv. unfold NewPage.
  destruct (_ && _); [done|].
  destruct (AllocatePage (disk_manager_ w)) as [pid d].
  set (w1 := emit _ _).
  destruct (take_frame w1) as [[f w2]|] eqn:Htf; [|intros _; exact Hc].
  intros Hfresh. specialize (Hfresh pid eq_refl).
  destruct (take_frame_inv w1 _ _ Hinv Htf) as (Hinv1 & Hdet & _).
  destruct (take_frame_conserving w1 _ _ Hc Htf) as (Hrepl1 & Hcount1 & Hsub).
  simpl. apply bpm_conserving_attach; auto.
Qed.

Lemma UnpinPage_conserving pid is_dirty (w : World D) :
  bpm_conserving (bpm w) → bpm_conserving (bpm (snd (UnpinPage pid is_dirty w))).
Proof.
  intros Hc. unfold UnpinPage.
  destruct (page_table_ (bpm w) !! pid) as [f|] eqn:Hpt; [|done].
  set (w1 := upd (with_page f (λ p, set_is_dirty (is_dirty_ p || is_dirty) p)) w).
  assert (Hsame : same_frames (bpm w) (bpm w1)) by by apply same_frames_with_page.
  pose proof (bpm_conserving_same_frames _ _ Hsame Hc) as Hc1.
  destruct (pin_count_ (frame (bpm w1) f) =? 0) eqn:Hz; [done|].
  apply Z.eqb_neq in Hz.
  set (w2 := upd (with_page f (λ p, set_pin_count (u32 (pin_count_ p - 1)) p)) w1).
  assert (Hc2 : bpm_conserving (bpm w2)).
  { apply bpm_conserving_with_page; [done|done|].
    intros Hin. by destruct (inv_repl _ (cons_inv _ Hc1) _ Hin) as (_&_&?). }
  pose proof (UnpinPage_inv pid is_dirty w (cons_inv _ Hc)) as Hinv'.
  unfold UnpinPage in Hinv'. rewrite Hpt in Hinv'. fold w1 in Hinv'.
  apply Z.eqb_neq in Hz. rewrite Hz in Hinv'. fold w2 in Hinv'.
  destruct (pin_count_ (frame (bpm w2) f) =? 0) eqn:Hz2; [|done].
  split; [exact Hinv'| |by destruct Hc2].
  simpl. intros g [->|Hg]%Unpin_elem; [|by apply (cons_repl _ Hc2)].
  destruct (inv_table _ (cons_inv _ Hc) _ _ Hpt) as (_ & Hid & _).
  change (page_table_ (bpm w) !! page_id_ (frame (bpm w2) f) = Some f).
  assert (page_id_ (frame (bpm w2) f) = page_id_ (frame (bpm w) f)) as ->; [|by rewrite Hid].
  subst w2 w1. simpl. rewrite !frame_with_page.
  repeat case_decide; simpl; rewrite ?frame_with_page; repeat case_decide; done.
Qed.

Lemma DeletePage_conserving pid (w : World D) :
  bpm_conserving (bpm w) → bpm_conserving (bpm (snd (DeletePage pid w))).
Proof.
  intros Hc. pose proof (DeletePage_inv pid w (cons_inv _ Hc)) as Hinv'.
  revert Hinv'. unfold DeletePage. simpl.
  destruct (page_table_ (bpm w) !! pid) as [f|] eqn:Hpt; [|done].
  destruct (0 <? _); [done|]. simpl. intros Hinv'.
  destruct Hc as [Hinv Hrepl Hcount].
  split; [done| |]; simpl.
  - intros g [Hne Hg]%Pin_elem.
    change (delete pid (page_table_ (bpm w)) !!
              page_id_ (frame (with_page f (set_page_id INVALID_PAGE_ID) (bpm w)) g)
            = Some g).
    rewrite frame_with_page, decide_False by tauto.
    rewrite lookup_delete_ne; [by apply Hrepl|].
    intros Heq. specialize (Hrepl _ Hg). rewrite <- Heq, Hpt in Hrepl. congruence.
  - pose proof (size_delete_Some _ _ _ Hpt). lia.
Qed.

Lemma allocs_fresh_cons (w : World D) op ops :
  allocs_fresh w (op :: ops) = true →
  alloc_fresh w op = true ∧ allocs_fresh (step w op) ops = true.
Proof. simpl. apply andb_true_iff. Qed.

Lemma step_conserving (w : World D) op :
  bpm_conserving (bpm w) → alloc_fresh w op = true → bpm_conserving (bpm (step w op)).
Proof.
  intros Hc Hfresh. destruct op; simpl.
  - by apply FetchPage_conserving.
  - by apply UnpinPage_conserving.
  - apply NewPage_conserving; [done|]. intros pid Hpid. simpl in Hfresh.
    rewrite Hpid in Hfresh. by destruct (page_table_ (bpm w) !! pid).
  - by apply DeletePage_conserving.
  - eapply bpm_conserving_same_frames; [apply FlushPage_same_frames|done].
  - eapply bpm_conserving_same_frames; [apply FlushAllPages_same_frames|done].
Qed.

Lemma run_conserving (w : World D) ops :
  bpm_conserving (bpm w) → allocs_fresh w ops = true → bpm_conserving (bpm (run w ops)).
Proof.
  revert w. induction ops as [|op ops IH]; intros w Hc Hfresh; [done|].
  apply allocs_fresh_cons in Hfresh as [Hop Hrest]. simpl. apply IH; [|done].
  by apply step_conserving.
Qed.

End Inv.

Lemma wal_safe_nil : wal_safe [].
Proof. by intros last. Qed.

Lemma wal_check_app last evs1 evs2 :
  wal_check last evs1 = true → wal_safe evs2 → wal_check last (evs1 ++ evs2) = true.
Proof.
  revert last. induction evs1 as [|e evs1 IH]; intros last H1 H2; simpl.
  - apply H2.
  - destruct e as [lsn [|]| | | |]; simpl in *; auto.
    destruct last; [|done]. apply andb_true_iff in H1 as [-> H1]. simpl. auto.
Qed.

Lemma wal_safe_app evs1 evs2 : wal_safe evs1 → wal_safe evs2 → wal_safe (evs1 ++ evs2).
Proof. intros H1 H2 last. by apply wal_check_app. Qed.

Lemma wal_safe_other e : is_write e = false → wal_safe [e].
Proof. intros He last. destruct e as [lsn [|]| | | |]; done. Qed.

Lemma wal_safe_flush_write pid buf : wal_safe [LogFlush (GetLSN buf) true; DiskWritePage pid buf].
Proof. intros last. simpl. by rewrite Z.leb_refl. Qed.

Section Wal.
Context {D : Type} `{DM : DiskManager D}.

Lemma wal_ext_refl (w : World D) : wal_ext w w.
Proof. split; [done|]. exists []. split; [by rewrite app_nil_r|]. intros _. apply wal_safe_nil. Qed.

Lemma wal_ext_trans (w1 w2 w3 : World D) :
  wal_ext w1 w2 → wal_ext w2 w3 → wal_ext w1 w3.
Proof.
  intros [[Hp1 Hl1] (e1 & Ht1 & Hs1)] [[Hp2 Hl2] (e2 & Ht2 & Hs2)].
  split; [split; congruence|].
  exists (e1 ++ e2). split; [by rewrite Ht2, Ht1, app_assoc|].
  intros Hlm. apply wal_safe_app; [auto|]. apply Hs2. congruence.
Qed.

Lemma wal_ext_upd g (w : World D) :
  pool_size_ (g (bpm w)) = pool_size_ (bpm w) ∧
  log_manager_ (g (bpm w)) = log_manager_ (bpm w) → wal_ext w (upd g w).
Proof.
  intros Hg. split; [done|]. exists []. split; [by rewrite app_nil_r|].
  intros _. apply wal_safe_nil.
Qed.

Lemma FlushPageHelper_trace f (w : World D) :
  trace (FlushPageHelper f w) =
    trace w ++
      (if log_manager_ (bpm w)
       then [LogFlush (GetLSN (data_ (frame (bpm w) f))) true] else []) ++
      [DiskWritePage (page_id_ (frame (bpm w) f)) (data_ (frame (bpm w) f))].
Proof.
  unfold FlushPageHelper. destruct (log_manager_ (bpm w)); simpl; [|done].
  by rewrite <- app_assoc.
Qed.

Lemma FlushPageHelper_wal_ext f (w : World D) : wal_ext w (FlushPageHelper f w).
Proof.
  split.
  - by destruct (FlushPageHelper_same_frames f w) as (?&_&_&_&?&_).
  - eexists. split; [apply FlushPageHelper_trace|].
    intros ->. apply wal_safe_flush_write.
Qed.

Lemma take_frame_wal_ext (w w' : World D) f :
  take_frame w = Some (f, w') → wal_ext w w'.
Proof.
  unfold take_frame. destruct (pop_back _) as [[f0 rest]|].
  - intros Heq. injection Heq as -> <-. by apply wal_ext_upd.
  - destruct (LRUReplacer.Evict _) as [[f0 r']|]; [|done].
    set (w1 := upd (with_replacer (λ _, r')) w).
    set (w2 := if is_dirty_ (frame (bpm w1) f0) then FlushPageHelper f0 w1 else w1).
    intros Heq. injection Heq as -> <-.
    apply (wal_ext_trans _ w1); [by apply wal_ext_upd|].
    apply (wal_ext_trans _ w2); [|by apply wal_ext_upd].
    subst w2. destruct (is_dirty_ _); [apply FlushPageHelper_wal_ext|apply wal_ext_refl].
Qed.

Lemma wal_ext_emit e (w : World D) : is_write e = false → wal_ext w (emit e w).
Proof.
  intros He. split; [done|]. exists [e]. split; [done|]. intros _. by apply wal_safe_other.
Qed.

Lemma wal_ext_set_disk d (w : World D) : wal_ext w (set_disk d w).
Proof.
  split; [done|]. exists []. split; [by rewrite app_nil_r|]. intros _. apply wal_safe_nil.
Qed.

Lemma FetchPage_wal_ext pid oie (w : World D) : wal_ext w (snd (FetchPage pid oie w)).
Proof.
  unfold FetchPage. destruct (page_table_ _ !! _); simpl.
  - eapply wal_ext_trans; by apply wal_ext_upd.
  - destruct (take_frame w) as [[f w1]|] eqn:Htf; [|apply wal_ext_refl].
    apply (wal_ext_trans _ w1); [by eapply take_frame_wal_ext|].
    set (w4 := emit _ _).
    assert (wal_ext w1 w4).
    { subst w4. eapply wal_ext_trans; [|by apply wal_ext_emit].
      eapply wal_ext_trans; by apply wal_ext_upd. }
    destruct (ReadPage _ _ _); simpl; [|done].
    eapply wal_ext_trans; [done|by apply wal_ext_upd].
Qed.

Lemma NewPage_wal_ext (w : World D) : wal_ext w (snd (NewPage w)).
Proof.
  unfold NewPage. destruct (_ && _); [apply wal_ext_refl|].
  destruct (AllocatePage _) as [pid d].
  set (w1 := emit _ _).
  assert (wal_ext w w1).
  { subst w1. eapply wal_ext_trans; [apply wal_ext_set_disk|by apply wal_ext_emit]. }
  destruct (take_frame w1) as [[f w2]|] eqn:Htf; [|done]. simpl.
  apply (wal_ext_trans _ w1); [done|].
  apply (wal_ext_trans _ w2); [by eapply take_frame_wal_ext|].
  eapply wal_ext_trans; by apply wal_ext_upd.
Qed.

Lemma UnpinPage_wal_ext pid is_dirty (w : World D) :
  wal_ext w (snd (UnpinPage pid is_dirty w)).
Proof.
  unfold UnpinPage. destruct (page_table_ _ !! _); [|apply wal_ext_refl].
  set (w1 := upd _ w). assert (wal_ext w w1) by by apply wal_ext_upd.
  destruct (_ =? 0); [done|].
  set (w2 := upd _ w1). assert (wal_ext w w2).
  { eapply wal_ext_trans; [done|by apply wal_ext_upd]. }
  destruct (_ =? 0); [|done]. simpl.
  eapply wal_ext_trans; [done|by apply wal_ext_upd].
Qed.

Lemma DeletePage_wal_ext pid (w : World D) : wal_ext w (snd (DeletePage pid w)).
Proof.
  unfold DeletePage.
  set (w1 := emit _ _).
  assert (wal_ext w w1).
  { subst w1. eapply wal_ext_trans; [apply wal_ext_set_disk|by apply wal_ext_emit]. }
  destruct (page_table_ _ !! _); [|done].
  destruct (0 <? _); [done|]. simpl.
  eapply wal_ext_trans; [done|].
  repeat (eapply wal_ext_trans; [|by apply wal_ext_upd]). apply wal_ext_refl.
Qed.

Lemma FlushAllPages_wal_ext (w : World D) : wal_ext w (FlushAllPages w).
Proof.
  unfold FlushAllPages. generalize (seq 0 (pool_size_ (bpm w))) as l.
  intros l. revert w. induction l as [|i l IH]; intros w; simpl.
  - apply wal_ext_refl.
  - eapply wal_ext_trans; [|apply IH].
    unfold FlushAllPages_body. destruct (page_table_ _ !! _).
    + apply FlushPageHelper_wal_ext.
    + apply wal_ext_refl.
Qed.

Lemma step_wal_ext (w : World D) op : wal_ext w (step w op).
Proof.
  destruct op; simpl.
  - apply FetchPage_wal_ext.
  - apply UnpinPage_wal_ext.
  - apply NewPage_wal_ext.
  - apply DeletePage_wal_ext.
  - unfold FlushPage. destruct (page_table_ _ !! _); simpl;
      [apply FlushPageHelper_wal_ext|apply wal_ext_refl].
  - apply FlushAllPages_wal_ext.
Qed.

Lemma run_wal_ext (w : World D) ops : wal_ext w (run w ops).
Proof.
  revert w. induction ops as [|op ops IH]; intros w; simpl.
  - apply wal_ext_refl.
  - eapply wal_ext_trans; [apply step_wal_ext|apply IH].
Qed.

End Wal.

Section More.
Context {D : Type} `{DM : DiskManager D}.

Lemma FlushPageHelper_dirty f g (w : World D) :
  is_dirty_ (frame (bpm (FlushPageHelper f w)) g) =
    if decide (g = f) then false else is_dirty_ (frame (bpm w) g).
Proof.
  unfold FlushPageHelper.
  assert (∀ w0 : World D, bpm w0 = bpm w →
    is_dirty_ (frame (bpm (upd (with_page f (set_is_dirty false)) w0)) g) =
      if decide (g = f) then false else is_dirty_ (frame (bpm w) g)) as H.
  { intros w0 Hw0. simpl. rewrite Hw0, frame_with_page.
    destruct (decide (g = f)) as [->|Hne].
    - case_decide as Hd; [done|]. unfold frame.
      destruct (pages_ (bpm w) !! f) eqn:E; [|done].
      apply lookup_lt_Some in E. tauto.
    - rewrite decide_False; [done|tauto]. }
  apply H. by destruct (log_manager_ (bpm w)).
Qed.

Lemma FlushAllPages_body_dirty i g (w : World D) :
  is_dirty_ (frame (bpm (FlushAllPages_body w i)) g) = true →
  is_dirty_ (frame (bpm w) g) = true.
Proof.
  unfold FlushAllPages_body. destruct (page_table_ _ !! _); [|done].
  rewrite FlushPageHelper_dirty. by case_decide.
Qed.

Lemma FlushAllPages_loop_dirty l g (w : World D) :
  is_dirty_ (frame (bpm (foldl FlushAllPages_body w l)) g) = true →
  is_dirty_ (frame (bpm w) g) = true.
Proof.
  revert w. induction l as [|i l IH]; intros w; simpl; [done|].
  intros H. eapply FlushAllPages_body_dirty, IH, H.
Qed.

Lemma FlushAllPages_body_same_frames i (w : World D) :
  same_frames (bpm w) (bpm (FlushAllPages_body w i)).
Proof.
  unfold FlushAllPages_body. destruct (page_table_ _ !! _).
  - apply FlushPageHelper_same_frames.
  - apply same_frames_refl.
Qed.

Lemma FlushAllPages_loop_clean l f (w : World D) :
  f ∈ l → page_table_ (bpm w) !! page_id_ (frame (bpm w) f) ≠ None →
  is_dirty_ (frame (bpm (foldl FlushAllPages_body w l)) f) = false.
Proof.
  revert w. induction l as [|i l IH]; intros w Hin Hmapped; [by apply elem_of_nil in Hin|].
  simpl. destruct (decide (f = i)) as [->|Hne].
  - apply not_true_is_false. intros Hd%FlushAllPages_loop_dirty.
    revert Hd. unfold FlushAllPages_body.
    destruct (page_table_ _ !! _); [|done].
    rewrite FlushPageHelper_dirty, decide_True; done.
  - apply elem_of_cons in Hin as [?|Hin]; [done|]. apply IH; [done|].
    destruct (FlushAllPages_body_same_frames i w) as (_&->&_&_&_&_&Hfr).
    by rewrite (proj1 (Hfr f)).
Qed.

Lemma take_frame_free (w : World D) f rest :
  free_list_ (bpm w) = rest ++ [f] →
  take_frame w = Some (f, upd (with_free_list (λ _, rest)) w).
Proof.
  intros Hfl%pop_back_Some. unfold take_frame. by rewrite Hfl.
Qed.

Lemma take_frame_evict (w : World D) f r' :
  free_list_ (bpm w) = [] → replacer_ (bpm w) = f :: r' →
  take_frame w =
    Some (f, upd (with_page_table (delete (page_id_ (frame (bpm w) f))))
               (if is_dirty_ (frame (bpm w) f)
                then FlushPageHelper f (upd (with_replacer (λ _, r')) w)
                else upd (with_replacer (λ _, r')) w)).
Proof.
  intros Hfl%pop_back_None Hr. unfold take_frame. rewrite Hfl, Hr. simpl.
  do 2 f_equal. change (frame (with_replacer (λ _, r') (bpm w)) f) with (frame (bpm w) f).
  destruct (is_dirty_ (frame (bpm w) f)) eqn:Hd; [|done].
  f_equal. f_equal.
  destruct (FlushPageHelper_same_frames f (upd (with_replacer (λ _, r')) w))
    as (_&_&_&_&_&_&Hfr).
  by rewrite (proj1 (Hfr f)).
Qed.

Lemma take_frame_None (w : World D) :
  take_frame w = None ↔ free_list_ (bpm w) = [] ∧ replacer_ (bpm w) = [].
Proof.
  unfold take_frame. destruct (pop_back _) as [[f rest]|] eqn:Hpop.
  - split; [done|]. intros [Hfl%pop_back_None _]. congruence.
  - apply pop_back_None in Hpop.
    destruct (replacer_ (bpm w)) as [|f r']; simpl; [done|].
    split; [done|]. by intros [_ ?].
Qed.

Lemma FlushPageHelper_disk f (w : World D) :
  disk_manager_ (FlushPageHelper f w) =
    WritePage (disk_manager_ w) (page_id_ (frame (bpm w) f)) (data_ (frame (bpm w) f)).
Proof. unfold FlushPageHelper. by destruct (log_manager_ (bpm w)). Qed.

(** The calls FlushPageHelper makes for the victim [f] when it is dirty. *)
Lemma take_frame_evict_trace (w : World D) f r' :
  free_list_ (bpm w) = [] → replacer_ (bpm w) = f :: r' →
  ∃ w', take_frame w = Some (f, w') ∧
    trace w' = trace w ++
      (if is_dirty_ (frame (bpm w) f)
       then (if log_manager_ (bpm w)
             then [LogFlush (GetLSN (data_ (frame (bpm w) f))) true] else []) ++
            [DiskWritePage (page_id_ (frame (bpm w) f)) (data_ (frame (bpm w) f))]
       else []) ∧
    disk_manager_ w' =
      (if is_dirty_ (frame (bpm w) f)
       then WritePage (disk_manager_ w) (page_id_ (frame (bpm w) f))
              (data_ (frame (bpm w) f))
       else disk_manager_ w).
Proof.
  intros Hfl Hr. rewrite (take_frame_evict w f r' Hfl Hr). eexists. split; [done|].
  destruct (is_dirty_ (frame (bpm w) f)).
  - split.
    + change (trace (upd ?g ?x)) with (trace x). by rewrite FlushPageHelper_trace.
    + change (disk_manager_ (upd ?g ?x)) with (disk_manager_ x).
      by rewrite FlushPageHelper_disk.
  - split; [|done]. simpl. by rewrite app_nil_r.
Qed.

End More.

Section Claims.
Context {D : Type} `{DM : DiskManager D}.

(** C1. WAL ordering. With a log manager configured: FlushPageHelper
    issues log.Flush(L, true) with L the LSN in the page's header, then
    disk.WritePage of that page, and leaves the frame clean; over any
    sequence of public operations every WritePage finds, as the last forced
    log flush before it, one with L at least the LSN of the bytes written;
    FlushPage and FlushAllPages leave the frames they flush clean; and the
    eviction of a dirty victim flushes the log, writes the page and leaves
    the frame clean. *)
Theorem wal_ordering (w : World D) :
  log_manager_ (bpm w) = true →
  (∀ f,
     trace (FlushPageHelper f w) =
       trace w ++ [LogFlush (GetLSN (data_ (frame (bpm w) f))) true;
                   DiskWritePage (page_id_ (frame (bpm w) f))
                                 (data_ (frame (bpm w) f))] ∧
     is_dirty_ (frame (bpm (FlushPageHelper f w)) f) = false) ∧
  (∀ ops, ∃ evs,
     trace (run w ops) = trace w ++ evs ∧ ∀ last, wal_check last evs = true) ∧
  (∀ pid f, page_table_ (bpm w) !! pid = Some f →
     fst (FlushPage pid w) = true ∧
     is_dirty_ (frame (bpm (snd (FlushPage pid w))) f) = false) ∧
  (∀ f, (f < pool_size_ (bpm w))%nat →
     page_table_ (bpm w) !! page_id_ (frame (bpm w) f) ≠ None →
     is_dirty_ (frame (bpm (FlushAllPages w)) f) = false) ∧
  (∀ f r', free_list_ (bpm w) = [] → replacer_ (bpm w) = f :: r' →
     is_dirty_ (frame (bpm w) f) = true →
     ∃ w', take_frame w = Some (f, w') ∧
       trace w' =
         trace w ++ [LogFlush (GetLSN (data_ (frame (bpm w) f))) true;
                     DiskWritePage (page_id_ (frame (bpm w) f))
                                   (data_ (frame (bpm w) f))] ∧
       is_dirty_ (frame (bpm w') f) = false).
Proof.
  intros Hlm. split_and!.
  - intros f. split.
    + by rewrite FlushPageHelper_trace, Hlm.
    + by rewrite FlushPageHelper_dirty, decide_True.
  - intros ops. destruct (run_wal_ext w ops) as [_ (evs & Ht & Hs)].
    exists evs. split; [done|]. by apply Hs.
  - intros pid f Hpf. unfold FlushPage. rewrite Hpf. cbn [fst snd]. split; [done|].
    by rewrite FlushPageHelper_dirty, decide_True.
  - intros f Hlt Hmapped. apply FlushAllPages_loop_clean; [|done].
    apply elem_of_seq. lia.
  - intros f r' Hfl Hr Hd. eexists. split; [by apply take_frame_evict|].
    rewrite Hd. split.
    + change (trace (FlushPageHelper f (upd (with_replacer (λ _, r')) w)) = trace w ++
        [LogFlush (GetLSN (data_ (frame (bpm w) f))) true;
         DiskWritePage (page_id_ (frame (bpm w) f)) (data_ (frame (bpm w) f))]).
      rewrite FlushPageHelper_trace. simpl. by rewrite Hlm.
    + change (is_dirty_ (frame (bpm (FlushPageHelper f
                 (upd (with_replacer (λ _, r')) w))) f) = false).
      by rewrite FlushPageHelper_dirty, decide_True.
Qed.

(** C4. No live eviction. In every state reached from the initial buffer
    pool by public operations, every frame in the replacer's eligible set
    is a frame of the pool with pin_count = 0; hence a frame that Evict
    returns never has pin_count > 0. *)
Theorem no_live_eviction (pool_size : nat) (d : D) (log_manager : bool) (ops : list Op) :
  (∀ f, f ∈ replacer_ (bpm (run (BufferPoolManager_ctor pool_size d log_manager) ops)) →
     ∃ p, pages_ (bpm (run (BufferPoolManager_ctor pool_size d log_manager) ops)) !! f = Some p
          ∧ pin_count_ p = 0) ∧
  (∀ f r',
     LRUReplacer.Evict
       (replacer_ (bpm (run (BufferPoolManager_ctor pool_size d log_manager) ops)))
       = Some (f, r') →
     ¬ (0 < pin_count_
            (frame (bpm (run (BufferPoolManager_ctor pool_size d log_manager) ops)) f))).
Proof.
  pose proof (run_inv _ ops (BufferPoolManager_ctor_inv pool_size d log_manager)) as Hinv.
  set (w := run _ ops) in *. split.
  - intros f Hin. destruct (inv_repl _ Hinv _ Hin) as (Hlt & _ & Hpin).
    rewrite <- (inv_pages _ Hinv) in Hlt.
    apply lookup_lt_is_Some in Hlt as [p Hp]. exists p. split; [done|].
    revert Hpin. unfold frame. by rewrite Hp.
  - intros f r' Hev%Evict_Some.
    assert (Hin : f ∈ replacer_ (bpm w)) by (rewrite Hev; apply list_elem_of_here).
    destruct (inv_repl _ Hinv _ Hin) as (_ & _ & ->). lia.
Qed.

Lemma run_pool_size (w : World D) ops : pool_size_ (bpm (run w ops)) = pool_size_ (bpm w).
Proof. apply run_wal_ext. Qed.

(** The free list and the frames of the page table stay disjoint, whatever
    ids the disk manager hands out. *)
Lemma free_list_disjoint_page_table (pool_size : nat) (d : D) (log_manager : bool)
    (ops : list Op) pid f :
  page_table_ (bpm (run (BufferPoolManager_ctor pool_size d log_manager) ops)) !! pid
    = Some f →
  f ∉ free_list_ (bpm (run (BufferPoolManager_ctor pool_size d log_manager) ops)).
Proof.
  pose proof (run_inv _ ops (BufferPoolManager_ctor_inv pool_size d log_manager)) as Hinv.
  intros Hpf. by destruct (inv_table _ Hinv _ _ Hpf) as (_&_&?).
Qed.

Lemma frames_conserved (pool_size : nat) (d : D) (log_manager : bool) (ops : list Op) :
  allocs_fresh (BufferPoolManager_ctor pool_size d log_manager) ops = true →
  (length (free_list_ (bpm (run (BufferPoolManager_ctor pool_size d log_manager) ops)))
   + size (page_table_ (bpm (run (BufferPoolManager_ctor pool_size d log_manager) ops)))
   = pool_size)%nat.
Proof.
  intros Hfresh.
  pose proof (run_conserving _ ops
                (BufferPoolManager_ctor_conserving pool_size d log_manager) Hfresh) as Hc.
  pose proof (run_pool_size (BufferPoolManager_ctor pool_size d log_manager) ops) as Hp.
  set (w := run _ ops) in *. rewrite (cons_count _ Hc). exact Hp.
Qed.

(** C2 (as amended). Resource conservation. Starting from the initial
    state, after any sequence of public operations no frame of the page
    table is on the free list; and |free_list| + |page_table| = pool_size
    provided every page id NewPage obtained from AllocatePage was not
    resident at that moment. *)
Theorem resource_conservation (pool_size : nat) (d : D) (log_manager : bool)
    (ops : list Op) :
  (∀ pid f,
     page_table_ (bpm (run (BufferPoolManager_ctor pool_size d log_manager) ops)) !! pid
       = Some f →
     f ∉ free_list_ (bpm (run (BufferPoolManager_ctor pool_size d log_manager) ops))) ∧
  (allocs_fresh (BufferPoolManager_ctor pool_size d log_manager) ops = true →
   (length (free_list_ (bpm (run (BufferPoolManager_ctor pool_size d log_manager) ops)))
    + size (page_table_ (bpm (run (BufferPoolManager_ctor pool_size d log_manager) ops)))
    = pool_size)%nat).
Proof.
  split.
  - intros pid f. apply free_list_disjoint_page_table.
  - apply frames_conserved.
Qed.

(** C3 (as amended). UnpinPage returns false exactly when the page is not
    resident or its pin count is zero. When the page is not resident
    nothing changes. When the pin count is zero the only change is that
    is_dirty is OR-ed into the frame's dirty flag. Otherwise is_dirty is
    OR-ed into the dirty flag, the pin count is decremented, and the frame
    is handed to replacer.Unpin when the count reaches zero. *)
Theorem UnpinPage_contract (w : World D) (pid : Z) (is_dirty : bool) :
  (fst (UnpinPage pid is_dirty w) = false ↔
     page_table_ (bpm w) !! pid = None ∨
     ∃ f, page_table_ (bpm w) !! pid = Some f ∧ pin_count_ (frame (bpm w) f) = 0) ∧
  (page_table_ (bpm w) !! pid = None → snd (UnpinPage pid is_dirty w) = w) ∧
  (∀ f, page_table_ (bpm w) !! pid = Some f → pin_count_ (frame (bpm w) f) = 0 →
     snd (UnpinPage pid is_dirty w) =
       upd (with_page f (λ p, set_is_dirty (is_dirty_ p || is_dirty) p)) w) ∧
  (∀ f, page_table_ (bpm w) !! pid = Some f → pin_count_ (frame (bpm w) f) ≠ 0 →
     snd (UnpinPage pid is_dirty w) =
       upd (with_replacer
              (if u32 (pin_count_ (frame (bpm w) f) - 1) =? 0
               then LRUReplacer.Unpin f else id))
         (upd (with_page f
                 (λ p, mkPage (data_ p) (page_id_ p) (u32 (pin_count_ p - 1))
                              (is_dirty_ p || is_dirty))) w)).
Proof.
  assert (Hpin : ∀ f,
    pin_count_ (frame (bpm (upd (with_page f
       (λ p, set_is_dirty (is_dirty_ p || is_dirty) p)) w)) f)
    = pin_count_ (frame (bpm w) f)).
  { intros f. simpl. rewrite frame_with_page. by case_decide. }
  unfold UnpinPage. destruct (page_table_ (bpm w) !! pid) as [f|] eqn:Hpt.
  - rewrite Hpin. split_and!.
    + destruct (pin_count_ (frame (bpm w) f) =? 0) eqn:Hz.
      * apply Z.eqb_eq in Hz. split; [|done]. intros _. right. by exists f.
      * apply Z.eqb_neq in Hz.
        destruct (_ =? 0); simpl; (split; [done|]); intros [|(f' & [= <-] & ?)]; done.
    + done.
    + intros ? [= <-] ->. done.
    + intros ? [= <-] Hnz. apply Z.eqb_neq in Hnz. rewrite Hnz.
      assert (Hlt : (f < length (pages_ (bpm w)))%nat).
      { apply Z.eqb_neq in Hnz. unfold frame in Hnz.
        destruct (pages_ (bpm w) !! f) eqn:E; [by eapply lookup_lt_Some|done]. }
      assert (Hw2 :
        upd (with_page f (λ p, set_pin_count (u32 (pin_count_ p - 1)) p))
          (upd (with_page f (λ p, set_is_dirty (is_dirty_ p || is_dirty) p)) w)
        = upd (with_page f
                 (λ p, mkPage (data_ p) (page_id_ p) (u32 (pin_count_ p - 1))
                              (is_dirty_ p || is_dirty))) w).
      { unfold upd, with_page, with_pages. simpl. f_equal. f_equal.
        rewrite list_alter_alter_eq. by apply list_alter_ext. }
      rewrite Hw2. simpl. rewrite frame_with_page, decide_True by done. simpl.
      by destruct (u32 _ =? 0).
  - split_and!; try done. split; [by left|done].
Qed.

(** The pool DeletePage leaves behind when it frees frame [f] of page
    [pid]: what the four statements of lines 256-262 do, field by field. *)
Lemma DeletePage_frees (b : BufferPoolManager) (pid : Z) (f : nat) :
  let b' :=
    mkBPM (pool_size_ b)
          (alter (set_page_id INVALID_PAGE_ID) f (pages_ b))
          (delete pid (page_table_ b))
          (f :: free_list_ b)
          (LRUReplacer.Pin f (replacer_ b))
          (log_manager_ b) in
  (page_id_ (frame b' f) = INVALID_PAGE_ID ∧
   data_ (frame b' f) = data_ (frame b f) ∧
   pin_count_ (frame b' f) = pin_count_ (frame b f) ∧
   is_dirty_ (frame b' f) = is_dirty_ (frame b f)) ∧
  (∀ g, g ≠ f → frame b' g = frame b g) ∧
  (page_table_ b' !! pid = None ∧
   ∀ q, q ≠ pid → page_table_ b' !! q = page_table_ b !! q) ∧
  (f ∉ replacer_ b') ∧
  (∀ g, g ≠ f → g ∈ replacer_ b' ↔ g ∈ replacer_ b).
Proof.
  intros b'.
  assert (Hfr : ∀ g, frame b' g = frame (with_page f (set_page_id INVALID_PAGE_ID) b) g)
    by reflexivity.
  split_and!.
  - rewrite Hfr, frame_with_page. case_decide as Hd; [done|].
    unfold frame. rewrite lookup_ge_None_2; [done|].
    destruct (decide (f < length (pages_ b))%nat); [|lia]. exfalso. by apply Hd.
  - rewrite Hfr, frame_with_page. by case_decide.
  - rewrite Hfr, frame_with_page. by case_decide.
  - rewrite Hfr, frame_with_page. by case_decide.
  - intros g Hg. rewrite Hfr, frame_with_page. rewrite decide_False; [done|tauto].
  - apply lookup_delete_eq.
  - intros q Hq. by apply lookup_delete_ne.
  - intros Hin%Pin_elem. by destruct Hin.
  - intros g Hg. simpl. rewrite Pin_elem. tauto.
Qed.

(** C6. DeletePage always calls DeallocatePage(pid) on the disk manager,
    whatever it returns. It returns true without touching the pool when
    pid is not resident; false without touching the pool when pid is
    resident with pin_count > 0; and otherwise true, after which the frame
    carries INVALID_PAGE_ID (its bytes, pin count and dirty bit, and every
    other frame, as before), pid is no longer in the page table (the other
    entries as before), the frame is at the front of the free list, and the
    frame is no longer in the replacer (the other frames of the replacer as
    before). *)
Theorem DeletePage_contract (w : World D) (pid : Z) :
  (disk_manager_ (snd (DeletePage pid w)) = DeallocatePage (disk_manager_ w) pid ∧
   trace (snd (DeletePage pid w)) = trace w ++ [DiskDeallocatePage pid]) ∧
  (page_table_ (bpm w) !! pid = None →
     fst (DeletePage pid w) = true ∧ bpm (snd (DeletePage pid w)) = bpm w) ∧
  (∀ f, page_table_ (bpm w) !! pid = Some f → 0 < pin_count_ (frame (bpm w) f) →
     fst (DeletePage pid w) = false ∧ bpm (snd (DeletePage pid w)) = bpm w) ∧
  (∀ f, page_table_ (bpm w) !! pid = Some f → ¬ 0 < pin_count_ (frame (bpm w) f) →
     fst (DeletePage pid w) = true ∧
     bpm (snd (DeletePage pid w)) =
       mkBPM (pool_size_ (bpm w))
             (alter (set_page_id INVALID_PAGE_ID) f (pages_ (bpm w)))
             (delete pid (page_table_ (bpm w)))
             (f :: free_list_ (bpm w))
             (LRUReplacer.Pin f (replacer_ (bpm w)))
             (log_manager_ (bpm w)) ∧
     (page_id_ (frame (bpm (snd (DeletePage pid w))) f) = INVALID_PAGE_ID ∧
      INVALID_PAGE_ID = -1 ∧
      data_ (frame (bpm (snd (DeletePage pid w))) f) = data_ (frame (bpm w) f) ∧
      pin_count_ (frame (bpm (snd (DeletePage pid w))) f)
        = pin_count_ (frame (bpm w) f) ∧
      is_dirty_ (frame (bpm (snd (DeletePage pid w))) f)
        = is_dirty_ (frame (bpm w) f)) ∧
     (∀ g, g ≠ f → frame (bpm (snd (DeletePage pid w))) g = frame (bpm w) g) ∧
     (page_table_ (bpm (snd (DeletePage pid w))) !! pid = None ∧
      ∀ q, q ≠ pid →
        page_table_ (bpm (snd (DeletePage pid w))) !! q = page_table_ (bpm w) !! q) ∧
     free_list_ (bpm (snd (DeletePage pid w))) = f :: free_list_ (bpm w) ∧
     (f ∉ replacer_ (bpm (snd (DeletePage pid w)))) ∧
     (∀ g, g ≠ f →
        g ∈ replacer_ (bpm (snd (DeletePage pid w))) ↔ g ∈ replacer_ (bpm w))).
Proof.
  unfold DeletePage. simpl.
  destruct (page_table_ (bpm w) !! pid) as [f|] eqn:Hpt.
  - destruct (0 <? pin_count_ (frame (bpm w) f)) eqn:Hz.
    + apply Z.ltb_lt in Hz. split_and!; [done|done|done|done|].
      intros ? [= <-] Hn. by destruct Hn.
    + apply Z.ltb_ge in Hz. split_and!; [done|done|done| |].
      * intros ? [= <-] ?. lia.
      * intros ? [= <-] _.
        destruct (DeletePage_frees (bpm w) pid f) as ((H1 & H2 & H3 & H4) & H5 & H6 & H7 & H8).
        split; [done|]. split; [done|]. split; [by split_and!|].
        split; [exact H5|]. split; [exact H6|]. split; [done|]. split; [exact H7|exact H8].
  - split_and!; done.
Qed.


Lemma take_frame_length (w w' : World D) f :
  take_frame w = Some (f, w') → length (pages_ (bpm w')) = length (pages_ (bpm w)).
Proof.
  unfold take_frame. destruct (pop_back _) as [[f0 rest]|].
  - intros Heq. by injection Heq as -> <-.
  - destruct (LRUReplacer.Evict _) as [[f0 r']|]; [|done].
    set (w1 := upd (with_replacer (λ _, r')) w).
    set (w2 := if is_dirty_ (frame (bpm w1) f0) then FlushPageHelper f0 w1 else w1).
    intros Heq. injection Heq as -> <-.
    change (length (pages_ (bpm w2)) = length (pages_ (bpm w1))).
    subst w2. destruct (is_dirty_ _); [|done].
    by destruct (FlushPageHelper_same_frames f w1) as (_&_&_&_&_&?&_).
Qed.

Lemma NewPage_guard (w w1 : World D) :
  bool_decide (free_list_ (bpm w) = [])
    && (LRUReplacer.Size (replacer_ (bpm w)) =? 0)%nat = false →
  bpm w1 = bpm w → take_frame w1 ≠ None.
Proof.
  intros Hg Hb [Hfl Hr]%take_frame_None. rewrite Hb in Hfl, Hr.
  rewrite Hfl, Hr in Hg. done.
Qed.

(** Page::ZeroData leaves PAGE_SIZE bytes, all of them zero. *)
Lemma ZeroData_zero :
  length ZeroData = PAGE_SIZE ∧ ∀ b, b ∈ ZeroData → b = Byte.x00.
Proof.
  unfold ZeroData. split; [apply length_replicate|].
  intros b Hb%elem_of_replicate. tauto.
Qed.

(** C5 (as amended). NewPage returns null exactly when the free list is
    empty and the replacer holds no frame; then nothing is allocated and
    nothing changes. Otherwise it stores through page_id the id
    AllocatePage returned, whether or not that id is resident, takes a
    frame (the back of the free list, else the replacer's victim, flushed
    first when dirty and unmapped), maps the id to it and leaves in it
    PAGE_SIZE zero bytes, the id, pin_count 1 and a clear dirty flag. *)
Theorem NewPage_contract (w : World D) :
  (fst (fst (NewPage w)) = None ↔
     free_list_ (bpm w) = [] ∧ LRUReplacer.Size (replacer_ (bpm w)) = 0%nat) ∧
  (fst (fst (NewPage w)) = None → NewPage w = ((None, None), w)) ∧
  (∀ f, fst (fst (NewPage w)) = Some f →
     snd (fst (NewPage w)) = Some (fst (AllocatePage (disk_manager_ w))) ∧
     (∃ w1,
        take_frame (emit (DiskAllocatePage (fst (AllocatePage (disk_manager_ w))))
                      (set_disk (snd (AllocatePage (disk_manager_ w))) w))
          = Some (f, w1) ∧
        snd (NewPage w) =
          upd (with_page f
                 (λ _, mkPage ZeroData (fst (AllocatePage (disk_manager_ w))) 1 false))
            (upd (with_page_table (<[fst (AllocatePage (disk_manager_ w)) := f]>)) w1)) ∧
     page_table_ (bpm (snd (NewPage w))) !! fst (AllocatePage (disk_manager_ w)) = Some f ∧
     ((f < length (pages_ (bpm w)))%nat →
        pages_ (bpm (snd (NewPage w))) !! f =
          Some (mkPage ZeroData (fst (AllocatePage (disk_manager_ w))) 1 false)) ∧
     ((f < length (pages_ (bpm w)))%nat →
        ∃ p, pages_ (bpm (snd (NewPage w))) !! f = Some p ∧
          length (data_ p) = PAGE_SIZE ∧ (∀ b, b ∈ data_ p → b = Byte.x00) ∧
          page_id_ p = fst (AllocatePage (disk_manager_ w)) ∧
          pin_count_ p = 1 ∧ is_dirty_ p = false)) ∧
  (∀ (w0 : World D) f rest, free_list_ (bpm w0) = rest ++ [f] →
     take_frame w0 = Some (f, upd (with_free_list (λ _, rest)) w0)) ∧
  (∀ (w0 : World D) f r', free_list_ (bpm w0) = [] → replacer_ (bpm w0) = f :: r' →
     take_frame w0 =
       Some (f, upd (with_page_table (delete (page_id_ (frame (bpm w0) f))))
                  (if is_dirty_ (frame (bpm w0) f)
                   then FlushPageHelper f (upd (with_replacer (λ _, r')) w0)
                   else upd (with_replacer (λ _, r')) w0))) ∧
  (∀ f rest, free_list_ (bpm w) = rest ++ [f] →
     fst (fst (NewPage w)) = Some f ∧
     free_list_ (bpm (snd (NewPage w))) = rest ∧
     replacer_ (bpm (snd (NewPage w))) = replacer_ (bpm w) ∧
     trace (snd (NewPage w)) =
       trace w ++ [DiskAllocatePage (fst (AllocatePage (disk_manager_ w)))]) ∧
  (∀ f r', free_list_ (bpm w) = [] → replacer_ (bpm w) = f :: r' →
     fst (fst (NewPage w)) = Some f ∧
     free_list_ (bpm (snd (NewPage w))) = [] ∧
     replacer_ (bpm (snd (NewPage w))) = r' ∧
     trace (snd (NewPage w)) =
       trace w ++ [DiskAllocatePage (fst (AllocatePage (disk_manager_ w)))] ++
       (if is_dirty_ (frame (bpm w) f)
        then (if log_manager_ (bpm w)
              then [LogFlush (GetLSN (data_ (frame (bpm w) f))) true] else []) ++
             [DiskWritePage (page_id_ (frame (bpm w) f)) (data_ (frame (bpm w) f))]
        else [])).
Proof.
  split_and!; [| | |apply take_frame_free|apply take_frame_evict| |].
  - unfold NewPage.
    destruct (bool_decide _ && _) eqn:Hg.
    + simpl. split; [intros _|done].
      apply andb_true_iff in Hg as [Hfl%bool_decide_eq_true Hr%Nat.eqb_eq]. done.
    + destruct (AllocatePage _) as [pid d].
      set (w1 := emit _ _).
      pose proof (NewPage_guard w w1 Hg eq_refl) as Hne.
      destruct (take_frame w1) as [[f w2]|] eqn:Htf; [|done]. simpl.
      split; [done|]. intros [Hfl Hr]. unfold LRUReplacer.Size in *.
      rewrite Hfl, Hr in Hg. done.
  - unfold NewPage. destruct (bool_decide _ && _) eqn:Hg; [done|].
    destruct (AllocatePage _) as [pid d].
    set (w1 := emit _ _).
    pose proof (NewPage_guard w w1 Hg eq_refl) as Hne.
    destruct (take_frame w1) as [[f w2]|]; done.
  - intros f. unfold NewPage. destruct (_ && _); [done|].
    destruct (AllocatePage (disk_manager_ w)) as [pid d]. simpl.
    set (w1 := emit _ _).
    destruct (take_frame w1) as [[f0 w2]|] eqn:Htf; [|done].
    simpl. intros [= ->].
    assert (Hpage : (f < length (pages_ (bpm w)))%nat →
              alter (λ _, mkPage ZeroData pid 1 false) f (pages_ (bpm w2)) !! f
                = Some (mkPage ZeroData pid 1 false)).
    { intros Hlt. rewrite list_lookup_alter_eq.
      pose proof (take_frame_length _ _ _ Htf) as Hl.
      change (length (pages_ (bpm w2)) = length (pages_ (bpm w))) in Hl.
      rewrite <- Hl in Hlt.
      apply lookup_lt_is_Some in Hlt as [p ->]. done. }
    split_and!; [done|by exists w2| |done|].
    + apply lookup_insert_eq.
    + intros Hlt. exists (mkPage ZeroData pid 1 false). split; [by apply Hpage|].
      destruct ZeroData_zero as [Hlen Hzero]. by split_and!.
  - intros f rest Hfl. unfold NewPage. rewrite Hfl.
    rewrite bool_decide_eq_false_2 by (by destruct rest). simpl.
    destruct (AllocatePage (disk_manager_ w)) as [pid d]. simpl.
    rewrite (take_frame_free (emit (DiskAllocatePage pid) (set_disk d w)) f rest Hfl).
    done.
  - intros f r' Hfl Hr. unfold NewPage. rewrite Hfl, Hr. simpl.
    destruct (AllocatePage (disk_manager_ w)) as [pid d]. simpl.
    destruct (take_frame_evict_trace (emit (DiskAllocatePage pid) (set_disk d w))
                f r' Hfl Hr) as (w' & Htf & Htr & _).
    assert (Hfr' : free_list_ (bpm w') = [] ∧ replacer_ (bpm w') = r').
    { rewrite (take_frame_evict (emit (DiskAllocatePage pid) (set_disk d w)) f r' Hfl Hr)
        in Htf.
      injection Htf as <-.
      change (frame (bpm (emit (DiskAllocatePage pid) (set_disk d w))) f)
        with (frame (bpm w) f).
      destruct (is_dirty_ (frame (bpm w) f)); [|split; [exact Hfl|reflexivity]].
      destruct (FlushPageHelper_same_frames f
                  (upd (with_replacer (λ _, r'))
                     (emit (DiskAllocatePage pid) (set_disk d w))))
        as (_ & _ & Hf & Hrr & _).
      cbn [upd bpm with_page_table free_list_ replacer_].
      split; [rewrite Hf; exact Hfl|rewrite Hrr; reflexivity]. }
    rewrite Htf. simpl. rewrite Htr. destruct Hfr' as [-> ->].
    split_and!; try done.
    change (trace (emit (DiskAllocatePage pid) (set_disk d w)))
      with (trace w ++ [DiskAllocatePage pid]).
    rewrite <- app_assoc. reflexivity.
Qed.

End Claims.

(** ** Closed instances on the spec-modelled disk manager *)

(** Scenario E5 of the specification: a pool of two frames, pages 1 and 2
    pinned, so that page 3 cannot be fetched; after page 1 is unpinned
    dirty, fetching page 3 evicts it, and the write of page 1 is preceded
    by the forced log flush. *)
Example E5_buffer_pool_saturation :
  fst (FetchPage 3 false
         (run (BufferPoolManager_ctor 2 SimpleDisk_new true)
              [OpFetchPage 1 false; OpFetchPage 2 false])) = Return None ∧
  trace (run (BufferPoolManager_ctor 2 SimpleDisk_new true)
             [OpFetchPage 1 false; OpFetchPage 2 false; OpFetchPage 3 false;
              OpUnpinPage 1 true; OpFetchPage 3 false])
  = [DiskReadPage 1 false; DiskReadPage 2 false;
     LogFlush 0 true; DiskWritePage 1 ZeroData; DiskReadPage 3 false].
Proof. split; vm_compute; reflexivity. Qed.

(** C1 at a pool of one frame with a log manager: a new page is dirtied,
    evicted by a fetch and everything is flushed. *)
Lemma wal_ordering_witness :
  ∃ evs,
    trace (run (BufferPoolManager_ctor 1 SimpleDisk_new true)
               [OpNewPage; OpUnpinPage 0 true; OpFetchPage 7 false; OpFlushAllPages])
      = trace (BufferPoolManager_ctor 1 SimpleDisk_new true) ++ evs ∧
    ∀ last, wal_check last evs = true.
Proof.
  exact (proj1 (proj2 (wal_ordering (BufferPoolManager_ctor 1 SimpleDisk_new true) eq_refl))
           [OpNewPage; OpUnpinPage 0 true; OpFetchPage 7 false; OpFlushAllPages]).
Defined.

(** C2 fails as stated. On a fresh database file the first id AllocatePage
    returns is 0. With two frames, FetchPage(0) makes page 0 resident in
    frame 1; NewPage then allocates id 0 and maps it to frame 0, so frame 1
    is neither free nor in the page table: |free_list| + |page_table| = 1. *)
Lemma conservation_fails_on_resident_id :
  (length (free_list_ (bpm (run (BufferPoolManager_ctor 2 SimpleDisk_new false)
                                [OpFetchPage 0 false; OpNewPage])))
   + size (page_table_ (bpm (run (BufferPoolManager_ctor 2 SimpleDisk_new false)
                                 [OpFetchPage 0 false; OpNewPage]))))%nat
  ≠ 2%nat.
Proof. vm_compute. discriminate. Qed.

(** C5 fails as stated: the id NewPage hands out need not be fresh. On a
    fresh database file the first id AllocatePage returns is 0. With two
    frames, after FetchPage(0) page 0 is resident in frame 1 with pin count
    1; NewPage then returns frame 0 with id 0, the id of a resident page,
    and maps it to frame 0, while frame 1 still carries id 0 and its pin. *)
Lemma NewPage_hands_out_resident_id :
  page_table_ (bpm (snd (FetchPage 0 false
                           (BufferPoolManager_ctor 2 SimpleDisk_new false)))) !! 0
    = Some 1%nat ∧
  fst (NewPage (snd (FetchPage 0 false
                       (BufferPoolManager_ctor 2 SimpleDisk_new false))))
    = (Some 0%nat, Some 0) ∧
  page_table_ (bpm (snd (NewPage (snd (FetchPage 0 false
                           (BufferPoolManager_ctor 2 SimpleDisk_new false)))))) !! 0
    = Some 0%nat ∧
  page_id_ (frame (bpm (snd (NewPage (snd (FetchPage 0 false
                           (BufferPoolManager_ctor 2 SimpleDisk_new false)))))) 1) = 0 ∧
  pin_count_ (frame (bpm (snd (NewPage (snd (FetchPage 0 false
                           (BufferPoolManager_ctor 2 SimpleDisk_new false)))))) 1) = 1.
Proof. split_and!; vm_compute; reflexivity. Qed.

(** C2 (as amended) on a run with two allocations from the free list, an
    allocation that evicts a dirty page, a refused deletion and a fetch
    that finds no frame. *)
Lemma resource_conservation_witness :
  allocs_fresh (BufferPoolManager_ctor 2 SimpleDisk_new false)
    [OpNewPage; OpNewPage; OpUnpinPage 0 true; OpNewPage; OpDeletePage 1;
     OpFetchPage 0 false] = true ∧
  (length (free_list_ (bpm (run (BufferPoolManager_ctor 2 SimpleDisk_new false)
     [OpNewPage; OpNewPage; OpUnpinPage 0 true; OpNewPage; OpDeletePage 1;
      OpFetchPage 0 false])))
   + size (page_table_ (bpm (run (BufferPoolManager_ctor 2 SimpleDisk_new false)
     [OpNewPage; OpNewPage; OpUnpinPage 0 true; OpNewPage; OpDeletePage 1;
      OpFetchPage 0 false]))) = 2)%nat.
Proof.
  split; [vm_compute; reflexivity|].
  apply (proj2 (resource_conservation 2 SimpleDisk_new false
                  [OpNewPage; OpNewPage; OpUnpinPage 0 true; OpNewPage; OpDeletePage 1;
                   OpFetchPage 0 false])).
  vm_compute. reflexivity.
Defined.

(** C3 fails as stated. Page 0 is resident, clean and unpinned; unpinning it
    again with is_dirty = true fails, and the frame is dirty afterwards. *)
Lemma UnpinPage_failure_sets_dirty :
  is_dirty_ (frame (bpm (run (BufferPoolManager_ctor 1 SimpleDisk_new false)
                             [OpFetchPage 0 false; OpUnpinPage 0 false])) 0) = false ∧
  fst (UnpinPage 0 true
         (run (BufferPoolManager_ctor 1 SimpleDisk_new false)
              [OpFetchPage 0 false; OpUnpinPage 0 false])) = false ∧
  is_dirty_ (frame (bpm (snd (UnpinPage 0 true
         (run (BufferPoolManager_ctor 1 SimpleDisk_new false)
              [OpFetchPage 0 false; OpUnpinPage 0 false])))) 0) = true.
Proof. split_and!; vm_compute; reflexivity. Qed.

(** ** Further properties of the operations *)

(** A conserving pool leaves no frame out: a frame that is not free is
    mapped from the page id it carries. *)

Lemma bpm_conserving_partition b f :
  bpm_conserving b → (f < pool_size_ b)%nat →
  f ∈ free_list_ b ∨ page_table_ b !! page_id_ (frame b f) = Some f.
Proof.
  intros [Hinv _ Hcount] Hlt.
  set (L := free_list_ b ++ (map_to_list (page_table_ b)).*2).
  assert (Hnd : NoDup L).
  { apply NoDup_app. split_and!.
    - apply (inv_free_nodup _ Hinv).
    - intros x Hx [[pid y] [-> Hy%elem_of_map_to_list]]%list_elem_of_fmap.
      by destruct (inv_table _ Hinv _ _ Hy) as (_ & _ & ?).
    - apply NoDup_fmap_2_strong; [|apply NoDup_map_to_list].
      intros [p1 x1] [p2 x2] H1%elem_of_map_to_list H2%elem_of_map_to_list. simpl.
      intros ->. destruct (inv_table _ Hinv _ _ H1) as (_ & <- & _).
      by destruct (inv_table _ Hinv _ _ H2) as (_ & <- & _). }
  assert (Hsub : ∀ x, x ∈ L → x ∈ seq 0 (pool_size_ b)).
  { intros x [Hx|[[pid y] [-> Hy%elem_of_map_to_list]]%list_elem_of_fmap]%elem_of_app;
      apply elem_of_seq; split; try lia.
    - by apply (inv_free_range _ Hinv).
    - by destruct (inv_table _ Hinv _ _ Hy) as (? & _ & _). }
  assert (Hperm : L ≡ₚ seq 0 (pool_size_ b)).
  { apply submseteq_length_Permutation; [by apply NoDup_submseteq|].
    unfold L. rewrite length_seq, length_app, length_fmap, length_map_to_list. lia. }
  assert (Hin : f ∈ L) by (rewrite Hperm; apply elem_of_seq; lia).
  apply elem_of_app in Hin as [?|[[pid y] [-> Hy%elem_of_map_to_list]]%list_elem_of_fmap];
    [by left|right].
  simpl. by destruct (inv_table _ Hinv _ _ Hy) as (_ & -> & _).
Qed.

Section Further.
Context {D : Type} `{DM : DiskManager D}.

(** ** What the operations leave alone *)

Lemma FlushPageHelper_frame f g (w : World D) :
  frame (bpm (FlushPageHelper f w)) g =
    if decide (g = f ∧ (f < length (pages_ (bpm w)))%nat)
    then set_is_dirty false (frame (bpm w) f) else frame (bpm w) g.
Proof.
  unfold FlushPageHelper. destruct (log_manager_ (bpm w)); simpl;
    apply frame_with_page.
Qed.

Lemma FlushPageHelper_data f g (w : World D) :
  data_ (frame (bpm (FlushPageHelper f w)) g) = data_ (frame (bpm w) g).
Proof.
  rewrite FlushPageHelper_frame. case_decide as Hd; [|done]. by destruct Hd as [-> _].
Qed.

Lemma FlushAllPages_data g (w : World D) :
  data_ (frame (bpm (FlushAllPages w)) g) = data_ (frame (bpm w) g).
Proof.
  unfold FlushAllPages. generalize (seq 0 (pool_size_ (bpm w))) as l.
  intros l. revert w. induction l as [|i l IH]; intros w; simpl; [done|].
  rewrite IH. unfold FlushAllPages_body. destruct (page_table_ _ !! _); [|done].
  apply FlushPageHelper_data.
Qed.

(** take_frame leaves every frame but the one it hands out as it was, and
    that one keeps its bytes. *)
Lemma take_frame_frames (w w' : World D) f :
  take_frame w = Some (f, w') →
  (∀ g, g ≠ f → frame (bpm w') g = frame (bpm w) g) ∧
  data_ (frame (bpm w') f) = data_ (frame (bpm w) f).
Proof.
  unfold take_frame. destruct (pop_back _) as [[f0 rest]|].
  - intros Heq. by injection Heq as -> <-.
  - destruct (LRUReplacer.Evict _) as [[f0 r']|]; [|done].
    set (w1 := upd (with_replacer (λ _, r')) w).
    set (w2 := if is_dirty_ (frame (bpm w1) f0) then FlushPageHelper f0 w1 else w1).
    intros Heq. injection Heq as -> <-.
    change (frame (bpm (upd (with_page_table
              (delete (page_id_ (frame (bpm w2) f)))) w2))) with (frame (bpm w2)).
    assert (Hw1 : ∀ g, frame (bpm w1) g = frame (bpm w) g) by reflexivity.
    subst w2. destruct (is_dirty_ _); [|by split].
    split.
    + intros g Hg. rewrite FlushPageHelper_frame, decide_False; [done|tauto].
    + by rewrite FlushPageHelper_data, Hw1.
Qed.

(** take_frame issues no call, or the write of the victim, preceded by the
    forced log flush when a log manager is configured. *)
Lemma take_frame_events (w w' : World D) f :
  take_frame w = Some (f, w') →
  trace w' = trace w ∨
  ∃ q buf, trace w' = trace w ++ [DiskWritePage q buf] ∨
           trace w' = trace w ++ [LogFlush (GetLSN buf) true; DiskWritePage q buf].
Proof.
  unfold take_frame. destruct (pop_back _) as [[f0 rest]|].
  - intros Heq. injection Heq as -> <-. by left.
  - destruct (LRUReplacer.Evict _) as [[f0 r']|]; [|done].
    set (w1 := upd (with_replacer (λ _, r')) w).
    set (w2 := if is_dirty_ (frame (bpm w1) f0) then FlushPageHelper f0 w1 else w1).
    intros Heq. injection Heq as -> <-.
    change (trace (upd (with_page_table
              (delete (page_id_ (frame (bpm w2) f)))) w2)) with (trace w2).
    subst w2. destruct (is_dirty_ _); [|by left]. right.
    exists (page_id_ (frame (bpm w1) f)), (data_ (frame (bpm w1) f)).
    rewrite FlushPageHelper_trace. destruct (log_manager_ (bpm w1)); [by right|by left].
Qed.

Lemma take_frame_table (w w' : World D) f pid :
  take_frame w = Some (f, w') → page_table_ (bpm w) !! pid = None →
  page_table_ (bpm w') !! pid = None.
Proof.
  unfold take_frame. destruct (pop_back _) as [[f0 rest]|].
  - intros Heq. by injection Heq as -> <-.
  - destruct (LRUReplacer.Evict _) as [[f0 r']|]; [|done].
    set (w1 := upd (with_replacer (λ _, r')) w).
    set (w2 := if is_dirty_ (frame (bpm w1) f0) then FlushPageHelper f0 w1 else w1).
    intros Heq. injection Heq as -> <-. intros Hnone.
    assert (Ht : page_table_ (bpm w2) = page_table_ (bpm w)).
    { subst w2. destruct (is_dirty_ _); [|done].
      by destruct (FlushPageHelper_same_frames f w1) as (_&->&_). }
    simpl. rewrite Ht. apply lookup_delete_None. by right.
Qed.

(** X1. FetchPage. A resident page is returned from its frame with the
    pin count incremented and the frame taken out of the replacer; the
    disk, the calls issued, the page table and the free list are untouched.
    The result is null exactly when the page is not resident, the free list
    is empty and the replacer is empty, and then nothing has changed. A
    miss that succeeds maps the page to the returned frame, whose Page
    holds the bytes ReadPage delivered, the requested id, pin count 1 and a
    clear dirty bit. On a miss that finds a frame the calls issued are at
    most the write-back of one victim (after a forced log flush of its LSN,
    if a log flush is issued at all) followed by the one ReadPage. *)
Theorem FetchPage_contract (w : World D) (pid : Z) (oie : bool) :
  (∀ f, page_table_ (bpm w) !! pid = Some f →
     fst (FetchPage pid oie w) = Return (Some f) ∧
     disk_manager_ (snd (FetchPage pid oie w)) = disk_manager_ w ∧
     trace (snd (FetchPage pid oie w)) = trace w ∧
     page_table_ (bpm (snd (FetchPage pid oie w))) = page_table_ (bpm w) ∧
     free_list_ (bpm (snd (FetchPage pid oie w))) = free_list_ (bpm w) ∧
     replacer_ (bpm (snd (FetchPage pid oie w))) =
       LRUReplacer.Pin f (replacer_ (bpm w)) ∧
     pages_ (bpm (snd (FetchPage pid oie w))) =
       alter (λ p, set_pin_count (u32 (pin_count_ p + 1)) p) f (pages_ (bpm w))) ∧
  (fst (FetchPage pid oie w) = Return None ↔
     page_table_ (bpm w) !! pid = None ∧
     free_list_ (bpm w) = [] ∧ replacer_ (bpm w) = []) ∧
  (fst (FetchPage pid oie w) = Return None → snd (FetchPage pid oie w) = w) ∧
  (∀ f, page_table_ (bpm w) !! pid = None →
     fst (FetchPage pid oie w) = Return (Some f) →
     page_table_ (bpm (snd (FetchPage pid oie w))) !! pid = Some f ∧
     ∃ buf,
       ReadPage (disk_manager_ (snd (FetchPage pid oie w))) pid oie = Some buf ∧
       ((f < length (pages_ (bpm w)))%nat →
          pages_ (bpm (snd (FetchPage pid oie w))) !! f =
            Some (mkPage buf pid 1 false))) ∧
  (page_table_ (bpm w) !! pid = None → fst (FetchPage pid oie w) ≠ Return None →
     ∃ evs, trace (snd (FetchPage pid oie w))
              = trace w ++ evs ++ [DiskReadPage pid oie] ∧
       (evs = [] ∨
        ∃ q buf, evs = [DiskWritePage q buf] ∨
                 evs = [LogFlush (GetLSN buf) true; DiskWritePage q buf])).
Proof.
  unfold FetchPage.
  destruct (page_table_ (bpm w) !! pid) as [f|] eqn:Hpt.
  - split_and!; try done.
    + intros ? [= <-]. done.
    + split; [done|]. by intros [? _].
  - destruct (take_frame w) as [[f w1]|] eqn:Htf.
    + set (w4 := emit _ _).
      assert (Hmap : page_table_ (bpm w4) !! pid = Some f) by apply lookup_insert_eq.
      assert (Hev : ∃ evs, trace w4 = trace w ++ evs ++ [DiskReadPage pid oie] ∧
                (evs = [] ∨
                 ∃ q buf, evs = [DiskWritePage q buf] ∨
                          evs = [LogFlush (GetLSN buf) true; DiskWritePage q buf])).
      { destruct (take_frame_events _ _ _ Htf) as [Ht|(q & buf & [Ht|Ht])];
          subst w4; simpl; rewrite Ht.
        - exists []. split; [done|by left].
        - eexists. split; [by rewrite <- app_assoc|]. right. exists q, buf. by left.
        - eexists. split; [by rewrite <- app_assoc|]. right. exists q, buf. by right. }
      destruct (ReadPage (disk_manager_ w4) pid oie) as [buf|] eqn:Hrd; simpl.
      * split_and!; try done.
        -- split; [done|]. intros (_ & Hfl & Hr).
           assert (take_frame w = None) by by apply take_frame_None. congruence.
        -- intros ? _ [= <-]. split; [done|]. exists buf. split; [done|].
           intros Hlt. rewrite <- (take_frame_length _ _ _ Htf) in Hlt.
           apply lookup_lt_is_Some in Hlt as [p Hp].
           subst w4. simpl. by rewrite !list_lookup_alter_eq, Hp.
      * split_and!; try done.
        split; [done|]. intros (_ & Hfl & Hr).
        assert (take_frame w = None) by by apply take_frame_None. congruence.
    + apply take_frame_None in Htf as [Hfl Hr]. simpl. split_and!; try done.
Qed.

Lemma FetchPage_hit (w : World D) (pid : Z) (oie : bool) f :
  page_table_ (bpm w) !! pid = Some f →
  FetchPage pid oie w =
    (Return (Some f),
     upd (with_page f (λ p, set_pin_count (u32 (pin_count_ p + 1)) p))
       (upd (with_replacer (LRUReplacer.Pin f)) w)).
Proof. intros Hpt. unfold FetchPage. by rewrite Hpt. Qed.



(** ** Pinned pages *)

Lemma take_frame_keeps_pinned (w w' : World D) g pid f :
  bpm_conserving (bpm w) →
  page_table_ (bpm w) !! pid = Some f → 0 < pin_count_ (frame (bpm w) f) →
  take_frame w = Some (g, w') →
  g ≠ f ∧ page_table_ (bpm w') !! pid = Some f.
Proof.
  intros Hc Hpt Hpin. pose proof (cons_inv _ Hc) as Hinv.
  destruct (inv_table _ Hinv _ _ Hpt) as (_ & _ & Hnfree).
  unfold take_frame. destruct (pop_back _) as [[f0 rest]|] eqn:Hpop.
  - intros Heq. injection Heq as -> <-. split; [|done].
    apply pop_back_Some in Hpop. intros ->. apply Hnfree.
    rewrite Hpop, elem_of_app. right. apply list_elem_of_here.
  - destruct (LRUReplacer.Evict _) as [[f0 r']|] eqn:Hev; [|done].
    set (w1 := upd (with_replacer (λ _, r')) w).
    set (w2 := if is_dirty_ (frame (bpm w1) f0) then FlushPageHelper f0 w1 else w1).
    intros Heq. injection Heq as -> <-. apply Evict_Some in Hev.
    assert (Hgin : g ∈ replacer_ (bpm w)) by (rewrite Hev; apply list_elem_of_here).
    destruct (inv_repl _ Hinv _ Hgin) as (_ & _ & Hg0).
    assert (Hne : g ≠ f) by (intros ->; lia).
    split; [done|].
    assert (Hsame : same_frames (bpm w1) (bpm w2)).
    { subst w2. destruct (is_dirty_ _);
        [apply FlushPageHelper_same_frames|apply same_frames_refl]. }
    destruct Hsame as (_ & Ht & _ & _ & _ & _ & Hfr).
    simpl. rewrite Ht. simpl.
    assert (page_id_ (frame (bpm w2) g) = page_id_ (frame (bpm w) g)) as -> by apply Hfr.
    rewrite lookup_delete_ne; [done|].
    intros Heq. pose proof (cons_repl _ Hc _ Hgin) as Hq.
    rewrite Heq, Hpt in Hq. congruence.
Qed.

Lemma step_keeps_pinned (w : World D) op pid f :
  bpm_conserving (bpm w) → alloc_fresh w op = true →
  page_table_ (bpm w) !! pid = Some f → 0 < pin_count_ (frame (bpm w) f) →
  page_table_ (bpm (step w op)) !! pid = Some f ∧
  data_ (frame (bpm (step w op)) f) = data_ (frame (bpm w) f).
Proof.
  intros Hc Hfresh Hpt Hpin. pose proof (cons_inv _ Hc) as Hinv.
  destruct op as [q oie|q d| |q|q|]; simpl.
  - (* FetchPage *)
    unfold FetchPage. destruct (page_table_ (bpm w) !! q) as [g|] eqn:Hq; simpl.
    + split; [done|]. rewrite frame_with_page. by case_decide as Hd; [destruct Hd as [-> _]|].
    + destruct (take_frame w) as [[g w1]|] eqn:Htf; [|done].
      destruct (take_frame_keeps_pinned _ _ _ _ _ Hc Hpt Hpin Htf) as [Hne Hpt1].
      destruct (take_frame_frames _ _ _ Htf) as [Hfr _].
      assert (Hqp : q ≠ pid) by congruence.
      set (w4 := emit _ _).
      assert (H4 : page_table_ (bpm w4) !! pid = Some f ∧
                   frame (bpm w4) f = frame (bpm w) f).
      { subst w4. simpl. split; [by rewrite lookup_insert_ne|].
        change (frame (with_page g (λ p, mkPage (data_ p) q 1 false)
                         (with_page_table (<[q:=g]>) (bpm w1))) f = frame (bpm w) f).
        rewrite frame_with_page, decide_False by (intros [? _]; congruence).
        rewrite frame_with_page_table. by apply Hfr. }
      destruct H4 as [H4a H4b].
      destruct (ReadPage _ _ _); cbn [fst snd]; [|by rewrite H4b].
      split; [done|].
      change (data_ (frame (with_page g (set_data l) (bpm w4)) f) = data_ (frame (bpm w) f)).
      rewrite frame_with_page, decide_False by (intros [? _]; congruence). by rewrite H4b.
  - (* UnpinPage *)
    unfold UnpinPage. destruct (page_table_ (bpm w) !! q) as [g|] eqn:Hq; [|done].
    set (w1 := upd _ w).
    assert (H1 : page_table_ (bpm w1) !! pid = Some f ∧
                 data_ (frame (bpm w1) f) = data_ (frame (bpm w) f)).
    { subst w1. simpl. split; [done|].
      change (data_ (frame (with_page g (λ p, set_is_dirty (is_dirty_ p || d) p) (bpm w)) f)
              = data_ (frame (bpm w) f)).
      rewrite frame_with_page. by case_decide as Hd; [destruct Hd as [-> _]|]. }
    destruct (_ =? 0); [done|].
    set (w2 := upd _ w1).
    assert (H2 : page_table_ (bpm w2) !! pid = Some f ∧
                 data_ (frame (bpm w2) f) = data_ (frame (bpm w) f)).
    { destruct H1 as [H1a H1b]. subst w2. split; [done|]. rewrite <- H1b.
      change (data_ (frame (with_page g (λ p, set_pin_count (u32 (pin_count_ p - 1)) p)
                              (bpm w1)) f) = data_ (frame (bpm w1) f)).
      rewrite frame_with_page. by case_decide as Hd; [destruct Hd as [-> _]|]. }
    by destruct (_ =? 0).
  - (* NewPage *)
    simpl in Hfresh. revert Hfresh. unfold NewPage.
    destruct (_ && _); [done|].
    destruct (AllocatePage (disk_manager_ w)) as [pid' d'].
    set (w1 := emit _ _).
    destruct (take_frame w1) as [[g w2]|] eqn:Htf; [|done].
    simpl. intros Hfresh.
    assert (Hqp : pid' ≠ pid).
    { intros ->. by rewrite Hpt in Hfresh. }
    destruct (take_frame_keeps_pinned w1 _ _ _ _ Hc Hpt Hpin Htf) as [Hne Hpt1].
    destruct (take_frame_frames _ _ _ Htf) as [Hfr _].
    split; [by rewrite lookup_insert_ne|].
    change (data_ (frame (with_page g (λ _, mkPage ZeroData pid' 1 false)
                     (with_page_table (<[pid':=g]>) (bpm w2))) f) = data_ (frame (bpm w1) f)).
    rewrite frame_with_page, decide_False by (intros [? _]; congruence).
    rewrite frame_with_page_table. by rewrite Hfr.
  - (* DeletePage *)
    unfold DeletePage. simpl.
    destruct (page_table_ (bpm w) !! q) as [g|] eqn:Hq; [|done].
    destruct (0 <? pin_count_ (frame (bpm w) g)) eqn:Hz; [done|].
    apply Z.ltb_ge in Hz. simpl.
    assert (Hqp : q ≠ pid).
    { intros ->. rewrite Hpt in Hq. injection Hq as <-. lia. }
    split; [by rewrite lookup_delete_ne|].
    change (data_ (frame (with_page g (set_page_id INVALID_PAGE_ID) (bpm w)) f)
            = data_ (frame (bpm w) f)).
    rewrite frame_with_page. by case_decide as Hd; [destruct Hd as [-> _]|].
  - (* FlushPage *)
    unfold FlushPage. destruct (page_table_ (bpm w) !! q) as [g|] eqn:Hq; [|done].
    cbn [fst snd]. split; [|apply FlushPageHelper_data].
    by destruct (FlushPageHelper_same_frames g w) as (_ & -> & _).
  - (* FlushAllPages *)
    split; [|apply FlushAllPages_data].
    by destruct (FlushAllPages_same_frames w) as (_ & -> & _).
Qed.

Lemma allocs_fresh_snoc (w : World D) ops op :
  allocs_fresh w (ops ++ [op]) = true →
  allocs_fresh w ops = true ∧ alloc_fresh (run w ops) op = true.
Proof.
  revert w. induction ops as [|o ops IH]; intros w; simpl.
  - rewrite andb_true_r. done.
  - intros [Ho Hrest]%andb_true_iff. destruct (IH _ Hrest) as [H1 H2].
    by rewrite Ho, H1.
Qed.

Lemma run_snoc (w : World D) ops op : run w (ops ++ [op]) = step (run w ops) op.
Proof. unfold run. apply foldl_snoc. Qed.

(** X3. A pinned page stays where it is. In a state reached from the
    initial pool by operations whose allocated ids were not resident, one
    more operation of any kind (its allocated id not resident either)
    leaves a resident page of positive pin count mapped to the same frame,
    with the same bytes. *)
Theorem pinned_page_stays_resident (pool_size : nat) (d : D) (log_manager : bool)
    (ops : list Op) (op : Op) (pid : Z) (f : nat) :
  allocs_fresh (BufferPoolManager_ctor pool_size d log_manager) (ops ++ [op]) = true →
  page_table_ (bpm (run (BufferPoolManager_ctor pool_size d log_manager) ops)) !! pid
    = Some f →
  0 < pin_count_ (frame (bpm (run (BufferPoolManager_ctor pool_size d log_manager) ops)) f) →
  page_table_ (bpm (run (BufferPoolManager_ctor pool_size d log_manager) (ops ++ [op])))
    !! pid = Some f ∧
  data_ (frame (bpm (run (BufferPoolManager_ctor pool_size d log_manager) (ops ++ [op]))) f)
    = data_ (frame (bpm (run (BufferPoolManager_ctor pool_size d log_manager) ops)) f).
Proof.
  intros [Hops Hop]%allocs_fresh_snoc Hpt Hpin.
  rewrite run_snoc.
  apply step_keeps_pinned; try done.
  by apply run_conserving; [apply BufferPoolManager_ctor_conserving|].
Qed.

(** ** Writing back *)

(** X4. FlushPage persists. Over a disk manager on which a page reads
    back as last written, FlushPage of a page resident in a reachable state
    returns true, and afterwards the disk holds the frame's bytes under
    that page id. *)
Theorem FlushPage_persists (pool_size : nat) (d : D) (log_manager : bool)
    (ops : list Op) (pid : Z) (f : nat) :
  (∀ (d0 : D) q buf oie, ReadPage (WritePage d0 q buf) q oie = Some buf) →
  page_table_ (bpm (run (BufferPoolManager_ctor pool_size d log_manager) ops)) !! pid
    = Some f →
  fst (FlushPage pid (run (BufferPoolManager_ctor pool_size d log_manager) ops)) = true ∧
  ∀ oie,
    ReadPage
      (disk_manager_
         (snd (FlushPage pid (run (BufferPoolManager_ctor pool_size d log_manager) ops))))
      pid oie
    = Some (data_ (frame (bpm (run (BufferPoolManager_ctor pool_size d log_manager) ops)) f)).
Proof.
  intros Hlaw Hpt.
  pose proof (run_inv _ ops (BufferPoolManager_ctor_inv pool_size d log_manager)) as Hinv.
  destruct (inv_table _ Hinv _ _ Hpt) as (_ & Hid & _).
  unfold FlushPage. rewrite Hpt. cbn [fst snd]. split; [done|]. intros oie.
  by rewrite FlushPageHelper_disk, Hid, Hlaw.
Qed.

(** ** Pin counts *)

(** X5. CheckPinCount is sound. In every reachable state, when
    CheckPinCount returns true every resident page has pin count zero. *)
Theorem CheckPinCount_sound (pool_size : nat) (d : D) (log_manager : bool)
    (ops : list Op) :
  CheckPinCount (run (BufferPoolManager_ctor pool_size d log_manager) ops) = true →
  ∀ pid f,
    page_table_ (bpm (run (BufferPoolManager_ctor pool_size d log_manager) ops)) !! pid
      = Some f →
    pin_count_ (frame (bpm (run (BufferPoolManager_ctor pool_size d log_manager) ops)) f)
      = 0.
Proof.
  pose proof (run_inv _ ops (BufferPoolManager_ctor_inv pool_size d log_manager)) as Hinv.
  set (w := run _ ops) in *. intros Hcheck pid f Hpt.
  destruct (inv_table _ Hinv _ _ Hpt) as (Hlt & Hid & _).
  unfold CheckPinCount in Hcheck. rewrite forallb_forall in Hcheck.
  specialize (Hcheck f). rewrite Hid, Hpt in Hcheck.
  apply Z.eqb_eq, Hcheck, list_elem_of_In, elem_of_seq. lia.
Qed.

(** ** Eviction *)

(** X6. Eviction writes back exactly a dirty victim. With an empty free
    list and frame f at the head of the replacer, a FetchPage of a page
    that is not resident issues the write of f's page (after the forced
    log flush of its LSN under a log manager) when f is dirty and nothing
    when f is clean, and then the ReadPage; NewPage issues the same calls
    after AllocatePage. When f is dirty and the disk reads back what was
    last written, the disk holds f's bytes under f's page id afterwards. *)
Theorem eviction_writes_back_iff_dirty (w : World D) (f : nat) (r' : list nat)
    (pid : Z) (oie : bool) :
  free_list_ (bpm w) = [] → replacer_ (bpm w) = f :: r' →
  (page_table_ (bpm w) !! pid = None →
     trace (snd (FetchPage pid oie w)) =
       trace w ++
       (if is_dirty_ (frame (bpm w) f)
        then (if log_manager_ (bpm w)
              then [LogFlush (GetLSN (data_ (frame (bpm w) f))) true] else []) ++
             [DiskWritePage (page_id_ (frame (bpm w) f)) (data_ (frame (bpm w) f))]
        else []) ++
       [DiskReadPage pid oie]) ∧
  trace (snd (NewPage w)) =
    trace w ++ [DiskAllocatePage (fst (AllocatePage (disk_manager_ w)))] ++
    (if is_dirty_ (frame (bpm w) f)
     then (if log_manager_ (bpm w)
           then [LogFlush (GetLSN (data_ (frame (bpm w) f))) true] else []) ++
          [DiskWritePage (page_id_ (frame (bpm w) f)) (data_ (frame (bpm w) f))]
     else []) ∧
  (is_dirty_ (frame (bpm w) f) = true →
   (∀ (d0 : D) q buf o, ReadPage (WritePage d0 q buf) q o = Some buf) →
   ∀ o,
     (page_table_ (bpm w) !! pid = None →
        ReadPage (disk_manager_ (snd (FetchPage pid oie w)))
          (page_id_ (frame (bpm w) f)) o = Some (data_ (frame (bpm w) f))) ∧
     ReadPage (disk_manager_ (snd (NewPage w)))
       (page_id_ (frame (bpm w) f)) o = Some (data_ (frame (bpm w) f))).
Proof.
  intros Hfl Hr.
  assert (HF : page_table_ (bpm w) !! pid = None →
            ∃ w', take_frame w = Some (f, w') ∧
              trace (snd (FetchPage pid oie w)) = trace w' ++ [DiskReadPage pid oie] ∧
              disk_manager_ (snd (FetchPage pid oie w)) = disk_manager_ w').
  { intros Hpt. destruct (take_frame_evict_trace w f r' Hfl Hr) as (w' & Htf & _).
    exists w'. split; [done|]. unfold FetchPage. rewrite Hpt, Htf.
    by destruct (ReadPage _ _ _). }
  assert (HN : ∃ w', take_frame
                 (emit (DiskAllocatePage (fst (AllocatePage (disk_manager_ w))))
                    (set_disk (snd (AllocatePage (disk_manager_ w))) w)) = Some (f, w') ∧
              trace (snd (NewPage w)) = trace w' ∧
              disk_manager_ (snd (NewPage w)) = disk_manager_ w').
  { destruct (take_frame_evict_trace
                (emit (DiskAllocatePage (fst (AllocatePage (disk_manager_ w))))
                   (set_disk (snd (AllocatePage (disk_manager_ w))) w)) f r' Hfl Hr)
      as (w' & Htf & _).
    exists w'. split; [done|]. unfold NewPage. rewrite Hfl, Hr. simpl.
    destruct (AllocatePage (disk_manager_ w)) as [pid' d']. simpl in Htf.
    by rewrite Htf. }
  destruct HN as (wn & Htn & Hn1 & Hn2).
  destruct (take_frame_evict_trace
              (emit (DiskAllocatePage (fst (AllocatePage (disk_manager_ w))))
                 (set_disk (snd (AllocatePage (disk_manager_ w))) w)) f r' Hfl Hr)
    as (wn' & Htn' & Hn3 & Hn4).
  rewrite Htn in Htn'. injection Htn' as <-.
  change (frame (bpm (emit _ (set_disk _ w))) f) with (frame (bpm w) f) in Hn3, Hn4.
  change (log_manager_ (bpm (emit _ (set_disk _ w)))) with (log_manager_ (bpm w)) in Hn3.
  change (trace (emit ?e (set_disk _ w))) with (trace w ++ [e]) in Hn3.
  change (disk_manager_ (emit _ (set_disk ?d w))) with d in Hn4.
  split_and!.
  - intros Hpt. destruct (HF Hpt) as (w' & Htf & -> & _).
    destruct (take_frame_evict_trace w f r' Hfl Hr) as (w'' & Htf' & Htr & _).
    rewrite Htf in Htf'. injection Htf' as <-. by rewrite Htr, <- app_assoc.
  - rewrite Hn1, Hn3. by rewrite <- app_assoc.
  - intros Hd Hlaw o. split.
    + intros Hpt. destruct (HF Hpt) as (w' & Htf & _ & ->).
      destruct (take_frame_evict_trace w f r' Hfl Hr) as (w'' & Htf' & _ & Hdk).
      rewrite Htf in Htf'. injection Htf' as <-. rewrite Hdk, Hd. apply Hlaw.
    + rewrite Hn2, Hn4, Hd. apply Hlaw.
Qed.

(** ** FlushAllPages *)

Lemma FlushAllPages_body_keeps i (w : World D) :
  page_table_ (bpm (FlushAllPages_body w i)) = page_table_ (bpm w) ∧
  (∀ g, page_id_ (frame (bpm (FlushAllPages_body w i)) g) = page_id_ (frame (bpm w) g)) ∧
  (∀ g, data_ (frame (bpm (FlushAllPages_body w i)) g) = data_ (frame (bpm w) g)) ∧
  ∃ evs, trace (FlushAllPages_body w i) = trace w ++ evs.
Proof.
  destruct (FlushAllPages_body_same_frames i w) as (_ & Ht & _ & _ & _ & _ & Hfr).
  split_and!; [done|intros g; apply Hfr| |].
  - intros g. unfold FlushAllPages_body. destruct (page_table_ _ !! _); [|done].
    apply FlushPageHelper_data.
  - unfold FlushAllPages_body. destruct (page_table_ _ !! _).
    + rewrite FlushPageHelper_trace. by eexists.
    + exists []. by rewrite app_nil_r.
Qed.

Lemma FlushAllPages_loop_trace l (w : World D) :
  ∃ evs, trace (foldl FlushAllPages_body w l) = trace w ++ evs.
Proof.
  revert w. induction l as [|i l IH]; intros w; simpl.
  - exists []. by rewrite app_nil_r.
  - destruct (IH (FlushAllPages_body w i)) as [evs ->].
    destruct (FlushAllPages_body_keeps i w) as (_ & _ & _ & evs0 & ->).
    exists (evs0 ++ evs). by rewrite app_assoc.
Qed.

Lemma FlushAllPages_loop_writes l f (w : World D) :
  f ∈ l → page_table_ (bpm w) !! page_id_ (frame (bpm w) f) ≠ None →
  ∃ evs, trace (foldl FlushAllPages_body w l) = trace w ++ evs ∧
         DiskWritePage (page_id_ (frame (bpm w) f)) (data_ (frame (bpm w) f)) ∈ evs.
Proof.
  revert w. induction l as [|i l IH]; intros w Hin Hmapped; [by apply elem_of_nil in Hin|].
  simpl. destruct (decide (f = i)) as [->|Hne].
  - destruct (FlushAllPages_loop_trace l (FlushAllPages_body w i)) as [evs ->].
    unfold FlushAllPages_body.
    destruct (page_table_ (bpm w) !! page_id_ (frame (bpm w) i)); [|done].
    rewrite FlushPageHelper_trace. eexists. split; [by rewrite <- !app_assoc|].
    rewrite !elem_of_app, list_elem_of_singleton. tauto.
  - apply elem_of_cons in Hin as [?|Hin]; [done|].
    destruct (FlushAllPages_body_keeps i w) as (Ht & Hid & Hdata & evs0 & Hev).
    destruct (IH (FlushAllPages_body w i) Hin) as (evs & Htr & Hw).
    { by rewrite Ht, Hid. }
    rewrite Htr, Hev, Hid, Hdata in *. exists (evs0 ++ evs).
    split; [by rewrite app_assoc|]. rewrite elem_of_app. by right.
Qed.

(** X7. FlushAllPages. In every reachable state it writes every resident
    page under its id with the bytes of its frame and leaves it clean; it
    changes neither the page table, the free list, the replacer, the page
    ids, the pin counts nor any byte of any frame. *)
Theorem FlushAllPages_flushes_every_resident_page (pool_size : nat) (d : D)
    (log_manager : bool) (ops : list Op) (pid : Z) (f : nat) :
  page_table_ (bpm (run (BufferPoolManager_ctor pool_size d log_manager) ops)) !! pid
    = Some f →
  is_dirty_ (frame (bpm (FlushAllPages
      (run (BufferPoolManager_ctor pool_size d log_manager) ops))) f) = false ∧
  (∃ evs,
     trace (FlushAllPages (run (BufferPoolManager_ctor pool_size d log_manager) ops))
       = trace (run (BufferPoolManager_ctor pool_size d log_manager) ops) ++ evs ∧
     DiskWritePage pid
       (data_ (frame (bpm (run (BufferPoolManager_ctor pool_size d log_manager) ops)) f))
       ∈ evs) ∧
  same_frames (bpm (run (BufferPoolManager_ctor pool_size d log_manager) ops))
    (bpm (FlushAllPages (run (BufferPoolManager_ctor pool_size d log_manager) ops))) ∧
  ∀ g, data_ (frame (bpm (FlushAllPages
           (run (BufferPoolManager_ctor pool_size d log_manager) ops))) g)
       = data_ (frame (bpm (run (BufferPoolManager_ctor pool_size d log_manager) ops)) g).
Proof.
  pose proof (run_inv _ ops (BufferPoolManager_ctor_inv pool_size d log_manager)) as Hinv.
  set (w := run _ ops) in *. intros Hpt.
  destruct (inv_table _ Hinv _ _ Hpt) as (Hlt & Hid & _).
  assert (Hin : f ∈ seq 0 (pool_size_ (bpm w))) by (apply elem_of_seq; lia).
  assert (Hm : page_table_ (bpm w) !! page_id_ (frame (bpm w) f) ≠ None)
    by (by rewrite Hid, Hpt).
  split_and!.
  - by apply FlushAllPages_loop_clean.
  - destruct (FlushAllPages_loop_writes _ f w Hin Hm) as (evs & Htr & Hw).
    exists evs. split; [done|]. by rewrite <- Hid.
  - apply FlushAllPages_same_frames.
  - intros g. apply FlushAllPages_data.
Qed.

(** ** The life of a page *)

Lemma Pin_fresh f (r : LRUReplacer.t) : f ∉ r → LRUReplacer.Pin f r = r.
Proof.
  unfold LRUReplacer.Pin, LRUReplacer.t in *. induction r as [|x r IH]; [done|].
  rewrite not_elem_of_cons. intros [Hx Hr].
  rewrite filter_cons_True by done. by rewrite IH.
Qed.

Lemma Pin_Unpin_fresh f (r : LRUReplacer.t) : f ∉ r → LRUReplacer.Pin f (r ++ [f]) = r.
Proof.
  intros Hr. rewrite <- (Pin_fresh f r Hr) at 2.
  unfold LRUReplacer.Pin, LRUReplacer.t in *. rewrite filter_app.
  rewrite (filter_cons_False _ f) by (intros ?; done).
  by rewrite filter_nil, app_nil_r.
Qed.

Lemma NewPage_Some (w : World D) f pid :
  bpm_inv (bpm w) → fst (NewPage w) = (Some f, Some pid) →
  ∃ w2,
    take_frame (emit (DiskAllocatePage pid)
                  (set_disk (snd (AllocatePage (disk_manager_ w))) w)) = Some (f, w2) ∧
    fst (AllocatePage (disk_manager_ w)) = pid ∧
    snd (NewPage w) =
      upd (with_page f (λ _, mkPage ZeroData pid 1 false))
        (upd (with_page_table (<[pid := f]>)) w2).
Proof.
  intros Hinv. unfold NewPage. destruct (_ && _); [done|].
  destruct (AllocatePage (disk_manager_ w)) as [pid' d'].
  set (w1 := emit _ _).
  destruct (take_frame w1) as [[g w2]|] eqn:Htf; [|done].
  cbn [fst snd]. intros [= -> ->]. by exists w2.
Qed.

(** X8. The life of a fresh page. The page NewPage returns is pinned:
    DeletePage refuses it and leaves the pool as it is. One UnpinPage
    succeeds and makes its frame the most recent entry of the replacer.
    DeletePage then succeeds: the page leaves the page table, the frame
    goes to the front of the free list and out of the replacer, carries
    INVALID_PAGE_ID, and the only call issued is DeallocatePage (no write,
    also when the page was unpinned dirty). *)
Theorem fresh_page_lifecycle (pool_size : nat) (d : D) (log_manager : bool)
    (ops : list Op) (f : nat) (pid : Z) (is_dirty : bool) :
  fst (NewPage (run (BufferPoolManager_ctor pool_size d log_manager) ops))
    = (Some f, Some pid) →
  ∀ w1, w1 = snd (NewPage (run (BufferPoolManager_ctor pool_size d log_manager) ops)) →
  (fst (DeletePage pid w1) = false ∧
   bpm (snd (DeletePage pid w1)) = bpm w1) ∧
  fst (UnpinPage pid is_dirty w1) = true ∧
  ∀ w2, w2 = snd (UnpinPage pid is_dirty w1) →
  replacer_ (bpm w2) = replacer_ (bpm w1) ++ [f] ∧
  fst (DeletePage pid w2) = true ∧
  ∀ w3, w3 = snd (DeletePage pid w2) →
  page_table_ (bpm w3) = delete pid (page_table_ (bpm w1)) ∧
  free_list_ (bpm w3) = f :: free_list_ (bpm w1) ∧
  replacer_ (bpm w3) = replacer_ (bpm w1) ∧
  page_id_ (frame (bpm w3) f) = INVALID_PAGE_ID ∧
  trace w3 = trace w1 ++ [DiskDeallocatePage pid].
Proof.
  pose proof (run_inv _ ops (BufferPoolManager_ctor_inv pool_size d log_manager)) as Hinv.
  set (w := run _ ops) in *. intros HN w1 ->.
  destruct (NewPage_Some w f pid Hinv HN) as (w0 & Htf & _ & ->).
  assert (Hinv0 : bpm_inv (bpm (emit (DiskAllocatePage pid)
                    (set_disk (snd (AllocatePage (disk_manager_ w))) w)))) by done.
  destruct (take_frame_inv _ _ _ Hinv0 Htf) as (Hinv1 & (Hlt & Hnf & Hnr & Hnt) & _).
  rewrite <- (inv_pages _ Hinv1) in Hlt.
  set (w1 := upd _ (upd _ w0)).
  assert (Hpt1 : page_table_ (bpm w1) !! pid = Some f) by apply lookup_insert_eq.
  assert (Hfr1 : frame (bpm w1) f = mkPage ZeroData pid 1 false).
  { unfold w1. change (frame (with_page f (λ _, mkPage ZeroData pid 1 false)
               (with_page_table (<[pid:=f]>) (bpm w0))) f = mkPage ZeroData pid 1 false).
    by rewrite frame_with_page, decide_True. }
  assert (Hlen1 : length (pages_ (bpm w1)) = length (pages_ (bpm w0)))
    by apply length_alter.
  assert (Hr1 : replacer_ (bpm w1) = replacer_ (bpm w0)) by done.
  assert (Hf1 : free_list_ (bpm w1) = free_list_ (bpm w0)) by done.
  clearbody w1.
  split; [|split].
  - unfold DeletePage. cbn [bpm emit set_disk]. by rewrite Hpt1, Hfr1.
  - unfold UnpinPage. rewrite Hpt1.
    change (frame (bpm (upd (with_page f ?g) w1)) f) with (frame (with_page f g (bpm w1)) f).
    rewrite frame_with_page, decide_True, Hfr1 by (split; [done|lia]). cbn.
    change (frame (bpm (upd (with_page f ?g) ?x)) f) with (frame (with_page f g (bpm x)) f).
    rewrite frame_with_page, decide_True by (split; [done|cbn; rewrite length_alter; lia]).
    cbn. change (frame (with_page f ?g (bpm w1)) f) with (frame (with_page f g (bpm w1)) f).
    rewrite frame_with_page, decide_True, Hfr1 by (split; [done|lia]). done.
  - intros w2 ->.
    assert (HU : snd (UnpinPage pid is_dirty w1) =
              upd (with_replacer (LRUReplacer.Unpin f))
                (upd (with_page f (λ p, set_pin_count (u32 (pin_count_ p - 1)) p))
                   (upd (with_page f (λ p, set_is_dirty (is_dirty_ p || is_dirty) p)) w1))).
    { unfold UnpinPage. rewrite Hpt1.
      change (frame (bpm (upd (with_page f ?g) w1)) f)
        with (frame (with_page f g (bpm w1)) f).
      rewrite frame_with_page, decide_True, Hfr1 by (split; [done|lia]). cbn.
      change (frame (bpm (upd (with_page f ?g) ?x)) f)
        with (frame (with_page f g (bpm x)) f).
      rewrite frame_with_page, decide_True by (split; [done|cbn; rewrite length_alter; lia]).
      cbn. change (frame (with_page f ?g (bpm w1)) f)
        with (frame (with_page f g (bpm w1)) f).
      rewrite frame_with_page, decide_True, Hfr1 by (split; [done|lia]). done. }
    rewrite HU. set (w2 := upd _ (upd _ (upd _ w1))).
    assert (Hpt2 : page_table_ (bpm w2) = page_table_ (bpm w1)) by done.
    assert (Hf2 : free_list_ (bpm w2) = free_list_ (bpm w1)) by done.
    assert (Hr2 : replacer_ (bpm w2) = replacer_ (bpm w1) ++ [f]).
    { unfold w2. cbn. unfold LRUReplacer.Unpin. rewrite decide_False; [done|].
      by rewrite Hr1. }
    assert (Hfr2 : frame (bpm w2) f = mkPage ZeroData pid 0 is_dirty).
    { unfold w2.
      change (frame (with_page f (λ p, set_pin_count (u32 (pin_count_ p - 1)) p)
                (with_page f (λ p, set_is_dirty (is_dirty_ p || is_dirty) p) (bpm w1))) f
              = mkPage ZeroData pid 0 is_dirty).
      rewrite frame_with_page, decide_True
        by (split; [done|cbn; rewrite length_alter; lia]).
      rewrite frame_with_page, decide_True, Hfr1 by (split; [done|lia]). done. }
    assert (Hlen2 : length (pages_ (bpm w2)) = length (pages_ (bpm w1)))
      by (unfold w2; cbn; by rewrite !length_alter).
    assert (Htr2 : trace w2 = trace w1) by done.
    clearbody w2. split; [done|].
    assert (HD : DeletePage pid w2 =
      (true,
       upd (with_replacer (LRUReplacer.Pin f))
         (upd (with_free_list (cons f))
            (upd (with_page_table (delete pid))
               (upd (with_page f (set_page_id INVALID_PAGE_ID))
                  (emit (DiskDeallocatePage pid)
                     (set_disk (DeallocatePage (disk_manager_ w2) pid) w2))))))).
    { unfold DeletePage. cbn [bpm emit set_disk]. by rewrite Hpt2, Hpt1, Hfr2. }
    rewrite HD. split; [done|]. intros w3 ->. cbn [snd].
    split_and!.
    + cbn. by rewrite Hpt2.
    + cbn. by rewrite Hf2.
    + change (LRUReplacer.Pin f (replacer_ (bpm w2)) = replacer_ (bpm w1)).
      rewrite Hr2, Hr1. by apply Pin_Unpin_fresh.
    + change (page_id_ (frame (with_page f (set_page_id INVALID_PAGE_ID) (bpm w2)) f)
              = INVALID_PAGE_ID).
      rewrite frame_with_page, decide_True by (split; [done|lia]). done.
    + cbn. by rewrite Htr2.
Qed.

(** ** Pin and unpin *)

Lemma Pin_not_elem f (r : LRUReplacer.t) : f ∉ LRUReplacer.Pin f r.
Proof.
  unfold LRUReplacer.Pin, LRUReplacer.t. rewrite list_elem_of_filter. by intros [? _].
Qed.

(** X9. Fetch and unpin balance. In a reachable state, FetchPage of a
    resident page whose pin count is below the largest uint32 succeeds and
    raises the pin count by one; the UnpinPage(pid, false) that follows
    succeeds and restores every frame, the page table and the free list,
    with no call issued. The replacer is unchanged if the page was pinned
    before; if it was not, its frame has become the most recent entry. *)
Theorem FetchPage_UnpinPage_balance (pool_size : nat) (d : D) (log_manager : bool)
    (ops : list Op) (pid : Z) (oie : bool) (f : nat) :
  page_table_ (bpm (run (BufferPoolManager_ctor pool_size d log_manager) ops)) !! pid
    = Some f →
  0 ≤ pin_count_ (frame (bpm (run (BufferPoolManager_ctor pool_size d log_manager) ops)) f)
    < 2 ^ 32 - 1 →
  ∀ w w1 w2,
    w = run (BufferPoolManager_ctor pool_size d log_manager) ops →
    w1 = snd (FetchPage pid oie w) → w2 = snd (UnpinPage pid false w1) →
    fst (FetchPage pid oie w) = Return (Some f) ∧
    pin_count_ (frame (bpm w1) f) = pin_count_ (frame (bpm w) f) + 1 ∧
    fst (UnpinPage pid false w1) = true ∧
    pages_ (bpm w2) = pages_ (bpm w) ∧
    page_table_ (bpm w2) = page_table_ (bpm w) ∧
    free_list_ (bpm w2) = free_list_ (bpm w) ∧
    disk_manager_ w2 = disk_manager_ w ∧
    trace w2 = trace w ∧
    replacer_ (bpm w2) =
      if pin_count_ (frame (bpm w) f) =? 0
      then LRUReplacer.Pin f (replacer_ (bpm w)) ++ [f]
      else replacer_ (bpm w).
Proof.
  pose proof (run_inv _ ops (BufferPoolManager_ctor_inv pool_size d log_manager)) as Hinv.
  intros Hpt Hpin w w1 w2 -> -> ->. set (w := run _ ops) in *.
  destruct (inv_table _ Hinv _ _ Hpt) as (Hlt & _ & _).
  rewrite <- (inv_pages _ Hinv) in Hlt.
  rewrite (FetchPage_hit w pid oie f Hpt). cbn [fst snd].
  set (n := pin_count_ (frame (bpm w) f)) in *.
  set (w1 := upd _ (upd _ w)).
  assert (Hpt1 : page_table_ (bpm w1) = page_table_ (bpm w)) by done.
  assert (Hfr1 : frame (bpm w1) f = set_pin_count (n + 1) (frame (bpm w) f)).
  { unfold w1.
    change (frame (with_page f (λ p, set_pin_count (u32 (pin_count_ p + 1)) p)
              (with_replacer (LRUReplacer.Pin f) (bpm w))) f
            = set_pin_count (n + 1) (frame (bpm w) f)).
    rewrite frame_with_page, decide_True by done.
    change (frame (with_replacer (LRUReplacer.Pin f) (bpm w)) f) with (frame (bpm w) f).
    fold n. unfold u32. rewrite Z.mod_small; [done|lia]. }
  assert (Hlen1 : length (pages_ (bpm w1)) = length (pages_ (bpm w)))
    by apply length_alter.
  assert (HU : UnpinPage pid false w1 =
            (true,
             let w3 :=
               upd (with_page f (λ p, set_pin_count (u32 (pin_count_ p - 1)) p))
                 (upd (with_page f (λ p, set_is_dirty (is_dirty_ p || false) p)) w1) in
             if n =? 0 then upd (with_replacer (LRUReplacer.Unpin f)) w3 else w3)).
  { unfold UnpinPage. rewrite Hpt1, Hpt.
    change (frame (bpm (upd (with_page f ?g) w1)) f)
      with (frame (with_page f g (bpm w1)) f).
    rewrite frame_with_page, decide_True, Hfr1 by (split; [done|lia]).
    cbn [set_is_dirty set_pin_count pin_count_ data_ page_id_ is_dirty_].
    destruct (n + 1 =? 0) eqn:E; [apply Z.eqb_eq in E; lia|].
    change (frame (bpm (upd (with_page f ?g) ?x)) f)
      with (frame (with_page f g (bpm x)) f).
    rewrite frame_with_page, decide_True
      by (split; [done|cbn; rewrite !length_alter; lia]).
    change (frame (bpm (upd (with_page f ?g) w1)) f)
      with (frame (with_page f g (bpm w1)) f).
    rewrite frame_with_page, decide_True, Hfr1 by (split; [done|lia]).
    cbn [set_is_dirty set_pin_count pin_count_ data_ page_id_ is_dirty_].
    replace (u32 (n + 1 - 1)) with n by (unfold u32; rewrite Z.mod_small; lia).
    by destruct (n =? 0). }
  rewrite HU. cbn [fst snd]. split; [done|]. split; [by rewrite Hfr1|]. split; [done|].
  assert (Hpages :
    pages_ (bpm (upd (with_page f (λ p, set_pin_count (u32 (pin_count_ p - 1)) p))
                   (upd (with_page f (λ p, set_is_dirty (is_dirty_ p || false) p)) w1)))
    = pages_ (bpm w)).
  { unfold w1. cbn. apply list_eq. intros i.
    destruct (decide (i = f)) as [->|Hne].
    - rewrite !list_lookup_alter_eq.
      destruct (pages_ (bpm w) !! f) as [p|] eqn:Hp; [|done]. cbn.
      assert (pin_count_ p = n) as Hn by (unfold n, frame; by rewrite Hp).
      rewrite orb_false_r, Hn. unfold u32.
      rewrite (Z.mod_small (n + 1)) by lia.
      replace (n + 1 - 1) with n by lia. rewrite Z.mod_small by lia.
      rewrite <- Hn. by destruct p.
    - by rewrite !list_lookup_alter_ne. }
  assert (Hrepl : replacer_ (bpm w1) = LRUReplacer.Pin f (replacer_ (bpm w))) by done.
  destruct (n =? 0) eqn:Hn0; cbn.
  - split_and!; try done. unfold LRUReplacer.Unpin.
    by rewrite decide_False by apply Pin_not_elem.
  - split_and!; try done. apply Pin_fresh. intros Hin.
    destruct (inv_repl _ Hinv _ Hin) as (_ & _ & H0). fold n in H0.
    apply Z.eqb_neq in Hn0. done.
Qed.

(** ** Every frame is accounted for *)

(** X10. Every frame is accounted for. In a state reached from the
    initial pool by operations whose allocated ids were not resident, each
    frame of the pool is either on the free list (then it is not in the
    replacer and no page is mapped to it), or not on the free list and
    then exactly one page is mapped to it: the one whose id it carries. *)
Theorem frame_free_or_resident (pool_size : nat) (d : D) (log_manager : bool)
    (ops : list Op) (f : nat) :
  allocs_fresh (BufferPoolManager_ctor pool_size d log_manager) ops = true →
  (f < pool_size)%nat →
  ∀ w, w = run (BufferPoolManager_ctor pool_size d log_manager) ops →
  (f ∈ free_list_ (bpm w) ∧ (f ∉ replacer_ (bpm w)) ∧
   ∀ pid, page_table_ (bpm w) !! pid ≠ Some f) ∨
  ((f ∉ free_list_ (bpm w)) ∧
   ∀ pid, page_table_ (bpm w) !! pid = Some f ↔ pid = page_id_ (frame (bpm w) f)).
Proof.
  intros Hfresh Hlt w ->.
  pose proof (run_conserving _ ops
                (BufferPoolManager_ctor_conserving pool_size d log_manager) Hfresh) as Hc.
  pose proof (cons_inv _ Hc) as Hinv.
  set (w := run _ ops) in *.
  assert (Hps : pool_size_ (bpm w) = pool_size) by apply run_pool_size.
  destruct (decide (f ∈ free_list_ (bpm w))) as [Hin|Hnin].
  - left. split_and!; [done| |].
    + intros Hr. by destruct (inv_repl _ Hinv _ Hr) as (_ & ? & _).
    + intros pid Hpt. by destruct (inv_table _ Hinv _ _ Hpt) as (_ & _ & ?).
  - right. split; [done|]. intros pid.
    destruct (bpm_conserving_partition (bpm w) f Hc) as [?|Hm]; [lia|done|].
    split; [|by intros ->].
    intros Hpt. by destruct (inv_table _ Hinv _ _ Hpt) as (_ & <- & _).
Qed.

(** X11. No two pages share a frame. In every reachable state, whatever ids
    the disk manager handed out, a resident page is mapped to a frame of
    the pool that carries the page's id; so two page ids mapped to the
    same frame are the same id. *)
Theorem no_frame_sharing (pool_size : nat) (d : D) (log_manager : bool)
    (ops : list Op) (pid : Z) (f : nat) :
  page_table_ (bpm (run (BufferPoolManager_ctor pool_size d log_manager) ops)) !! pid
    = Some f →
  (f < pool_size)%nat ∧
  page_id_ (frame (bpm (run (BufferPoolManager_ctor pool_size d log_manager) ops)) f)
    = pid ∧
  ∀ pid',
    page_table_ (bpm (run (BufferPoolManager_ctor pool_size d log_manager) ops)) !! pid'
      = Some f → pid' = pid.
Proof.
  pose proof (run_inv _ ops (BufferPoolManager_ctor_inv pool_size d log_manager)) as Hinv.
  pose proof (run_pool_size (BufferPoolManager_ctor pool_size d log_manager) ops) as Hp.
  set (w := run _ ops) in *. intros Hpt.
  destruct (inv_table _ Hinv _ _ Hpt) as (Hlt & Hid & _).
  split_and!; [by rewrite Hp in Hlt|done|].
  intros pid' Hpt'. destruct (inv_table _ Hinv _ _ Hpt') as (_ & Hid' & _). congruence.
Qed.

End Further.

(** ** Checkpoints and pin checks *)

Lemma bpm_tidy_same_frames b b' : same_frames b b' → bpm_tidy b → bpm_tidy b'.
Proof.
  intros (_ & _ & Hf & _ & _ & _ & Hfr) [Hpin Hfree]. split.
  - intros f. rewrite (proj2 (Hfr f)). apply Hpin.
  - intros f. rewrite Hf, (proj1 (Hfr f)), (proj2 (Hfr f)). apply Hfree.
Qed.

Lemma bpm_tidy_sub b b' :
  pages_ b' = pages_ b → (∀ f, f ∈ free_list_ b' → f ∈ free_list_ b) →
  bpm_tidy b → bpm_tidy b'.
Proof.
  intros Hp Hsub [Hpin Hfree].
  assert (Hfr : ∀ f, frame b' f = frame b f) by (intros f; unfold frame; by rewrite Hp).
  split.
  - intros f. rewrite Hfr. apply Hpin.
  - intros f Hin. rewrite Hfr. auto.
Qed.

Lemma bpm_tidy_with_page b f g :
  bpm_tidy b → f ∉ free_list_ b → 0 ≤ pin_count_ (g (frame b f)) < 2 ^ 32 →
  bpm_tidy (with_page f g b).
Proof.
  intros [Hpin Hfree] Hnf Hg. split.
  - intros f'. rewrite frame_with_page. case_decide; [done|apply Hpin].
  - intros f' Hin. rewrite frame_with_page.
    case_decide as Hd; [destruct Hd as [-> _]; done|]. by apply Hfree.
Qed.

Lemma u32_range z : 0 ≤ u32 z < 2 ^ 32.
Proof. unfold u32. apply Z.mod_pos_bound. lia. Qed.

Section Tidy.
Context {D : Type} `{DM : DiskManager D}.

Lemma BufferPoolManager_ctor_tidy n (d : D) lm :
  bpm_tidy (bpm (BufferPoolManager_ctor n d lm)).
Proof.
  assert (Hfr : ∀ f, frame (bpm (BufferPoolManager_ctor n d lm)) f = Page_ctor).
  { intros f. unfold frame. simpl.
    destruct (replicate n Page_ctor !! f) as [p|] eqn:E; [|done].
    by apply lookup_replicate in E as [-> _]. }
  split; intros f; rewrite Hfr; simpl; [lia|done].
Qed.

Lemma take_frame_tidy (w w' : World D) f :
  bpm_tidy (bpm w) → take_frame w = Some (f, w') → bpm_tidy (bpm w').
Proof.
  intros Ht. unfold take_frame.
  destruct (pop_back (free_list_ (bpm w))) as [[f0 rest]|] eqn:Hpop.
  - intros [= -> <-]. apply pop_back_Some in Hpop.
    apply (bpm_tidy_sub (bpm w)); [done| |done].
    simpl. intros g Hg. rewrite Hpop, elem_of_app. by left.
  - destruct (LRUReplacer.Evict _) as [[f0 r']|]; [|done].
    set (w1 := upd (with_replacer (λ _, r')) w).
    set (w2 := if is_dirty_ (frame (bpm w1) f0) then FlushPageHelper f0 w1 else w1).
    intros [= -> <-].
    assert (Ht2 : bpm_tidy (bpm w2)).
    { subst w2. destruct (is_dirty_ _); [|done].
      eapply bpm_tidy_same_frames; [apply FlushPageHelper_same_frames|done]. }
    by apply (bpm_tidy_sub (bpm w2)).
Qed.

Lemma FetchPage_tidy pid oie (w : World D) :
  bpm_inv (bpm w) → bpm_tidy (bpm w) → bpm_tidy (bpm (snd (FetchPage pid oie w))).
Proof.
  intros Hinv Ht. unfold FetchPage.
  destruct (page_table_ (bpm w) !! pid) as [f|] eqn:Hpt; simpl.
  - destruct (inv_table _ Hinv _ _ Hpt) as (_ & _ & Hnf).
    apply bpm_tidy_with_page; [by apply (bpm_tidy_sub (bpm w))|done|apply u32_range].
  - destruct (take_frame w) as [[f w1]|] eqn:Htf; [|done].
    destruct (take_frame_inv _ _ _ Hinv Htf) as (_ & (_ & Hnf & _) & _).
    pose proof (take_frame_tidy _ _ _ Ht Htf) as Ht1.
    assert (Ht3 : bpm_tidy (with_page f (λ p, mkPage (data_ p) pid 1 false)
                              (with_page_table (<[pid:=f]>) (bpm w1)))).
    { apply bpm_tidy_with_page; [by apply (bpm_tidy_sub (bpm w1))|done|simpl; lia]. }
    destruct (ReadPage _ _ _); simpl; [|done].
    apply bpm_tidy_with_page; [done|done|].
    simpl. apply Ht3.
Qed.

Lemma UnpinPage_tidy pid is_dirty (w : World D) :
  bpm_inv (bpm w) → bpm_tidy (bpm w) → bpm_tidy (bpm (snd (UnpinPage pid is_dirty w))).
Proof.
  intros Hinv Ht. unfold UnpinPage.
  destruct (page_table_ (bpm w) !! pid) as [f|] eqn:Hpt; [|done].
  destruct (inv_table _ Hinv _ _ Hpt) as (_ & _ & Hnf).
  set (w1 := upd (with_page f (λ p, set_is_dirty (is_dirty_ p || is_dirty) p)) w).
  assert (Ht1 : bpm_tidy (bpm w1)).
  { eapply bpm_tidy_same_frames; [|exact Ht]. by apply same_frames_with_page. }
  destruct (pin_count_ (frame (bpm w1) f) =? 0); [done|].
  set (w2 := upd (with_page f (λ p, set_pin_count (u32 (pin_count_ p - 1)) p)) w1).
  assert (Ht2 : bpm_tidy (bpm w2)).
  { apply bpm_tidy_with_page; [done|done|apply u32_range]. }
  destruct (pin_count_ (frame (bpm w2) f) =? 0); [|done].
  by apply (bpm_tidy_sub (bpm w2)).
Qed.

Lemma NewPage_tidy (w : World D) :
  bpm_inv (bpm w) → bpm_tidy (bpm w) → bpm_tidy (bpm (snd (NewPage w))).
Proof.
  intros Hinv Ht. unfold NewPage. destruct (_ && _); [done|].
  destruct (AllocatePage (disk_manager_ w)) as [pid d].
  set (w1 := emit _ _).
  destruct (take_frame w1) as [[f w2]|] eqn:Htf; [|done].
  destruct (take_frame_inv w1 _ _ Hinv Htf) as (_ & (_ & Hnf & _) & _).
  pose proof (take_frame_tidy w1 _ _ Ht Htf) as Ht2.
  simpl. apply bpm_tidy_with_page; [by apply (bpm_tidy_sub (bpm w2))|done|simpl; lia].
Qed.

Lemma DeletePage_tidy pid (w : World D) :
  bpm_inv (bpm w) → bpm_tidy (bpm w) → bpm_tidy (bpm (snd (DeletePage pid w))).
Proof.
  intros Hinv Ht. unfold DeletePage. simpl.
  destruct (page_table_ (bpm w) !! pid) as [f|] eqn:Hpt; [|done].
  destruct (0 <? pin_count_ (frame (bpm w) f)) eqn:Hz; [done|].
  apply Z.ltb_ge in Hz. simpl.
  destruct (inv_table _ Hinv _ _ Hpt) as (Hlt & _ & Hnf).
  rewrite <- (inv_pages _ Hinv) in Hlt.
  destruct Ht as [Hpin Hfree].
  assert (Hfr : ∀ g, frame (with_page f (set_page_id INVALID_PAGE_ID) (bpm w)) g =
            if decide (g = f) then set_page_id INVALID_PAGE_ID (frame (bpm w) f)
            else frame (bpm w) g).
  { intros g. rewrite frame_with_page. destruct (decide (g = f)) as [->|Hne].
    - by rewrite decide_True.
    - rewrite decide_False; [done|tauto]. }
  split.
  - intros g.
    change (0 ≤ pin_count_ (frame (with_page f (set_page_id INVALID_PAGE_ID) (bpm w)) g)
            < 2 ^ 32).
    rewrite Hfr. case_decide; [apply (Hpin f)|apply Hpin].
  - intros g Hg.
    change (page_id_ (frame (with_page f (set_page_id INVALID_PAGE_ID) (bpm w)) g)
              = INVALID_PAGE_ID ∧
            pin_count_ (frame (with_page f (set_page_id INVALID_PAGE_ID) (bpm w)) g) = 0).
    rewrite Hfr. case_decide as Hd.
    + simpl. split; [done|]. pose proof (Hpin f). lia.
    + apply Hfree. simpl in Hg. apply elem_of_cons in Hg as [?|?]; done.
Qed.

Lemma step_tidy (w : World D) op :
  bpm_inv (bpm w) → bpm_tidy (bpm w) → bpm_tidy (bpm (step w op)).
Proof.
  intros Hinv Ht. destruct op; simpl.
  - by apply FetchPage_tidy.
  - by apply UnpinPage_tidy.
  - by apply NewPage_tidy.
  - by apply DeletePage_tidy.
  - eapply bpm_tidy_same_frames; [apply FlushPage_same_frames|done].
  - eapply bpm_tidy_same_frames; [apply FlushAllPages_same_frames|done].
Qed.

Lemma run_tidy (w : World D) ops :
  bpm_inv (bpm w) → bpm_tidy (bpm w) → bpm_tidy (bpm (run w ops)).
Proof.
  revert w. induction ops as [|op ops IH]; intros w Hinv Ht; [done|].
  simpl. apply IH; [by apply step_inv|by apply step_tidy].
Qed.

End Tidy.

Section Checkpoint.
Context {D : Type} `{DM : DiskManager D}.

(** In a conserving, tidy pool a frame's page id, unless it is
    INVALID_PAGE_ID, is mapped to that very frame. *)
Lemma frame_owns_its_id b i :
  bpm_conserving b → bpm_tidy b → (i < pool_size_ b)%nat →
  page_id_ (frame b i) ≠ INVALID_PAGE_ID →
  page_table_ b !! page_id_ (frame b i) = Some i.
Proof.
  intros Hc [_ Hfree] Hlt Hid.
  destruct (bpm_conserving_partition b i Hc Hlt) as [Hin|?]; [|done].
  by destruct (Hfree _ Hin).
Qed.

Lemma FlushAllPages_loop_disk l f pid (w : World D) :
  (∀ (d0 : D) q buf o, ReadPage (WritePage d0 q buf) q o = Some buf) →
  (∀ (d0 : D) q buf p o, p ≠ q → ReadPage (WritePage d0 q buf) p o = ReadPage d0 p o) →
  page_table_ (bpm w) !! pid = Some f → page_id_ (frame (bpm w) f) = pid →
  (∀ i, i ∈ l → page_id_ (frame (bpm w) i) = pid → i = f) →
  ∀ o, ReadPage (disk_manager_ (foldl FlushAllPages_body w l)) pid o =
       if decide (f ∈ l) then Some (data_ (frame (bpm w) f))
       else ReadPage (disk_manager_ w) pid o.
Proof.
  intros Hrw Hother. revert w.
  induction l as [|i l IH]; intros w Hpt Hid Huniq o.
  { rewrite decide_False; [done|]. apply not_elem_of_nil. }
  change (foldl FlushAllPages_body w (i :: l))
    with (foldl FlushAllPages_body (FlushAllPages_body w i) l).
  destruct (FlushAllPages_body_keeps i w) as (Ht & Hids & Hdata & _).
  rewrite IH; [| by rewrite Ht | by rewrite Hids | ]; last first.
  { intros j Hj. rewrite Hids. intros Hjp. apply Huniq; [|done].
    apply elem_of_cons. by right. }
  rewrite Hdata.
  destruct (decide (f ∈ l)) as [Hin|Hnin].
  - rewrite decide_True; [done|]. apply elem_of_cons. by right.
  - unfold FlushAllPages_body.
    destruct (decide (i = f)) as [->|Hne].
    + rewrite decide_True by apply list_elem_of_here.
      rewrite Hid, Hpt, FlushPageHelper_disk, Hid. apply Hrw.
    + rewrite decide_False by (intros [?|?]%elem_of_cons; done).
      destruct (page_table_ (bpm w) !! page_id_ (frame (bpm w) i)); [|done].
      rewrite FlushPageHelper_disk. apply Hother.
      intros Heq. apply Hne, Huniq; [apply list_elem_of_here|done].
Qed.

(** X12. FlushAllPages persists the resident pages. Over a disk manager
    on which a page reads back as last written and a write leaves the
    other pages alone, in a state reached from the initial pool by
    operations whose allocated ids were not resident, after FlushAllPages
    the disk holds the bytes of its frame for every resident page other
    than INVALID_PAGE_ID. (The frames on the free list carry
    INVALID_PAGE_ID; the loop writes them too when that id is resident.) *)
Theorem FlushAllPages_persists (pool_size : nat) (d : D) (log_manager : bool)
    (ops : list Op) (pid : Z) (f : nat) :
  (∀ (d0 : D) q buf o, ReadPage (WritePage d0 q buf) q o = Some buf) →
  (∀ (d0 : D) q buf p o, p ≠ q → ReadPage (WritePage d0 q buf) p o = ReadPage d0 p o) →
  allocs_fresh (BufferPoolManager_ctor pool_size d log_manager) ops = true →
  page_table_ (bpm (run (BufferPoolManager_ctor pool_size d log_manager) ops)) !! pid
    = Some f →
  pid ≠ INVALID_PAGE_ID →
  ∀ o,
    ReadPage
      (disk_manager_
         (FlushAllPages (run (BufferPoolManager_ctor pool_size d log_manager) ops)))
      pid o
    = Some (data_ (frame (bpm (run (BufferPoolManager_ctor pool_size d log_manager) ops)) f)).
Proof.
  intros Hrw Hother Hfresh Hpt Hpid o.
  pose proof (run_conserving _ ops
                (BufferPoolManager_ctor_conserving pool_size d log_manager) Hfresh) as Hc.
  pose proof (run_tidy _ ops (BufferPoolManager_ctor_inv pool_size d log_manager)
                (BufferPoolManager_ctor_tidy pool_size d log_manager)) as Ht.
  set (w := run _ ops) in *.
  destruct (inv_table _ (cons_inv _ Hc) _ _ Hpt) as (Hlt & Hid & _).
  unfold FlushAllPages.
  rewrite (FlushAllPages_loop_disk _ f pid w Hrw Hother Hpt Hid).
  - rewrite decide_True; [done|]. apply elem_of_seq. lia.
  - intros i Hi%elem_of_seq Hip.
    assert (Hown : page_table_ (bpm w) !! page_id_ (frame (bpm w) i) = Some i).
    { apply frame_owns_its_id; [done|done|lia|by rewrite Hip]. }
    rewrite Hip, Hpt in Hown. by injection Hown.
Qed.

(** X13. CheckPinCount raises no false alarm. In a state reached from
    the initial pool by operations whose allocated ids were not resident,
    CheckPinCount returns true when every resident page has pin count
    zero. *)
Theorem CheckPinCount_complete (pool_size : nat) (d : D) (log_manager : bool)
    (ops : list Op) :
  allocs_fresh (BufferPoolManager_ctor pool_size d log_manager) ops = true →
  (∀ pid f,
     page_table_ (bpm (run (BufferPoolManager_ctor pool_size d log_manager) ops)) !! pid
       = Some f →
     pin_count_ (frame (bpm (run (BufferPoolManager_ctor pool_size d log_manager) ops)) f)
       = 0) →
  CheckPinCount (run (BufferPoolManager_ctor pool_size d log_manager) ops) = true.
Proof.
  intros Hfresh.
  pose proof (run_conserving _ ops
                (BufferPoolManager_ctor_conserving pool_size d log_manager) Hfresh) as Hc.
  pose proof (run_tidy _ ops (BufferPoolManager_ctor_inv pool_size d log_manager)
                (BufferPoolManager_ctor_tidy pool_size d log_manager)) as Ht.
  set (w := run _ ops) in *. intros Hall.
  unfold CheckPinCount. apply forallb_forall. intros i Hi%list_elem_of_In%elem_of_seq.
  destruct (page_table_ (bpm w) !! page_id_ (frame (bpm w) i)) as [g|] eqn:Hg; [|done].
  apply Z.eqb_eq.
  destruct (bpm_conserving_partition (bpm w) i Hc) as [Hin|Hm]; [lia| |].
  - by destruct (proj2 Ht _ Hin).
  - by apply (Hall _ _ Hm).
Qed.

End Checkpoint.

(** ** Closed instances of the further properties *)


(** X3 at a pool of two frames: the page created by NewPage survives a
    fetch of another page. *)
Lemma pinned_page_stays_resident_witness :
  page_table_ (bpm (run (BufferPoolManager_ctor 2 SimpleDisk_new false)
                        ([OpNewPage] ++ [OpFetchPage 7 false]))) !! 0 = Some 1%nat ∧
  data_ (frame (bpm (run (BufferPoolManager_ctor 2 SimpleDisk_new false)
                         ([OpNewPage] ++ [OpFetchPage 7 false]))) 1)
    = data_ (frame (bpm (run (BufferPoolManager_ctor 2 SimpleDisk_new false)
                             [OpNewPage])) 1).
Proof.
  assert (Hfresh : allocs_fresh (BufferPoolManager_ctor 2 SimpleDisk_new false)
                     ([OpNewPage] ++ [OpFetchPage 7 false]) = true)
    by (vm_compute; reflexivity).
  assert (Hpt : page_table_ (bpm (run (BufferPoolManager_ctor 2 SimpleDisk_new false)
                                   [OpNewPage])) !! 0 = Some 1%nat)
    by (vm_compute; reflexivity).
  assert (Hpin : 0 < pin_count_ (frame (bpm (run (BufferPoolManager_ctor 2 SimpleDisk_new false)
                                   [OpNewPage])) 1))
    by (vm_compute; reflexivity).
  exact (pinned_page_stays_resident 2 SimpleDisk_new false [OpNewPage]
           (OpFetchPage 7 false) 0 1 Hfresh Hpt Hpin).
Defined.

(** The disk manager of the specification reads back what was written. *)
Lemma SimpleDisk_read_after_write (d : SimpleDisk) q buf oie :
  ReadPage (WritePage d q buf) q oie = Some buf.
Proof. simpl. by rewrite lookup_insert_eq. Qed.

(** X4 on the page created by NewPage in a pool of one frame. *)
Lemma FlushPage_persists_witness :
  fst (FlushPage 0 (run (BufferPoolManager_ctor 1 SimpleDisk_new false) [OpNewPage]))
    = true ∧
  ∀ oie,
    ReadPage
      (disk_manager_
         (snd (FlushPage 0 (run (BufferPoolManager_ctor 1 SimpleDisk_new false)
                                [OpNewPage]))))
      0 oie
    = Some (data_ (frame (bpm (run (BufferPoolManager_ctor 1 SimpleDisk_new false)
                                   [OpNewPage])) 0)).
Proof.
  assert (Hpt : page_table_ (bpm (run (BufferPoolManager_ctor 1 SimpleDisk_new false)
                                   [OpNewPage])) !! 0 = Some 0%nat)
    by (vm_compute; reflexivity).
  exact (FlushPage_persists 1 SimpleDisk_new false [OpNewPage] 0 0
           SimpleDisk_read_after_write Hpt).
Defined.

(** X5 after a page was created and unpinned. *)
Lemma CheckPinCount_sound_witness :
  pin_count_ (frame (bpm (run (BufferPoolManager_ctor 1 SimpleDisk_new false)
                              [OpNewPage; OpUnpinPage 0 true])) 0) = 0.
Proof.
  assert (Hcheck : CheckPinCount (run (BufferPoolManager_ctor 1 SimpleDisk_new false)
                                      [OpNewPage; OpUnpinPage 0 true]) = true)
    by (vm_compute; reflexivity).
  assert (Hpt : page_table_ (bpm (run (BufferPoolManager_ctor 1 SimpleDisk_new false)
                                   [OpNewPage; OpUnpinPage 0 true])) !! 0 = Some 0%nat)
    by (vm_compute; reflexivity).
  exact (CheckPinCount_sound 1 SimpleDisk_new false [OpNewPage; OpUnpinPage 0 true]
           Hcheck 0 0%nat Hpt).
Defined.

(** X6 on a pool of one frame whose only page was unpinned dirty: NewPage
    evicts it, and its bytes are on disk afterwards. *)
Lemma eviction_writes_back_witness :
  ReadPage
    (disk_manager_
       (snd (NewPage (run (BufferPoolManager_ctor 1 SimpleDisk_new true)
                          [OpNewPage; OpUnpinPage 0 true]))))
    (page_id_ (frame (bpm (run (BufferPoolManager_ctor 1 SimpleDisk_new true)
                               [OpNewPage; OpUnpinPage 0 true])) 0))
    false
  = Some (data_ (frame (bpm (run (BufferPoolManager_ctor 1 SimpleDisk_new true)
                                 [OpNewPage; OpUnpinPage 0 true])) 0)).
Proof.
  assert (Hfl : free_list_ (bpm (run (BufferPoolManager_ctor 1 SimpleDisk_new true)
                                     [OpNewPage; OpUnpinPage 0 true])) = [])
    by (vm_compute; reflexivity).
  assert (Hr : replacer_ (bpm (run (BufferPoolManager_ctor 1 SimpleDisk_new true)
                                   [OpNewPage; OpUnpinPage 0 true])) = [0%nat])
    by (vm_compute; reflexivity).
  assert (Hd : is_dirty_ (frame (bpm (run (BufferPoolManager_ctor 1 SimpleDisk_new true)
                                  [OpNewPage; OpUnpinPage 0 true])) 0) = true)
    by (vm_compute; reflexivity).
  exact (proj2 (proj2 (proj2 (eviction_writes_back_iff_dirty _ 0 [] 5 false Hfl Hr))
                  Hd SimpleDisk_read_after_write false)).
Defined.

(** X7 on the page created by NewPage in a pool of one frame. *)
Lemma FlushAllPages_flushes_witness :
  is_dirty_ (frame (bpm (FlushAllPages
      (run (BufferPoolManager_ctor 1 SimpleDisk_new false) [OpNewPage]))) 0) = false.
Proof.
  assert (Hpt : page_table_ (bpm (run (BufferPoolManager_ctor 1 SimpleDisk_new false)
                                   [OpNewPage])) !! 0 = Some 0%nat)
    by (vm_compute; reflexivity).
  exact (proj1 (FlushAllPages_flushes_every_resident_page 1 SimpleDisk_new false
                  [OpNewPage] 0 0 Hpt)).
Defined.

(** X8 on the first page of a pool of one frame. *)
Lemma fresh_page_lifecycle_witness :
  fst (DeletePage 0 (snd (NewPage (BufferPoolManager_ctor 1 SimpleDisk_new false))))
    = false ∧
  fst (UnpinPage 0 true (snd (NewPage (BufferPoolManager_ctor 1 SimpleDisk_new false))))
    = true.
Proof.
  assert (HN : fst (NewPage (run (BufferPoolManager_ctor 1 SimpleDisk_new false) []))
               = (Some 0%nat, Some 0)) by (vm_compute; reflexivity).
  destruct (fresh_page_lifecycle 1 SimpleDisk_new false [] 0 0 true HN _ eq_refl)
    as ([H1 _] & H2 & _).
  split; [exact H1|exact H2].
Defined.

(** X9 on an unpinned resident page: fetching and unpinning it leaves the
    frames as they were. *)
Lemma FetchPage_UnpinPage_balance_witness :
  pages_ (bpm (snd (UnpinPage 0 false (snd (FetchPage 0 false
     (run (BufferPoolManager_ctor 1 SimpleDisk_new false)
          [OpNewPage; OpUnpinPage 0 false]))))))
  = pages_ (bpm (run (BufferPoolManager_ctor 1 SimpleDisk_new false)
                     [OpNewPage; OpUnpinPage 0 false])).
Proof.
  assert (Hpt : page_table_ (bpm (run (BufferPoolManager_ctor 1 SimpleDisk_new false)
                                   [OpNewPage; OpUnpinPage 0 false])) !! 0 = Some 0%nat)
    by (vm_compute; reflexivity).
  assert (Hpin : 0 ≤ pin_count_ (frame (bpm (run (BufferPoolManager_ctor 1 SimpleDisk_new false)
                                   [OpNewPage; OpUnpinPage 0 false])) 0) < 2 ^ 32 - 1)
    by (vm_compute; split; [discriminate|reflexivity]).
  exact (proj1 (proj2 (proj2 (proj2
           (FetchPage_UnpinPage_balance 1 SimpleDisk_new false
              [OpNewPage; OpUnpinPage 0 false] 0 false 0 Hpt Hpin
              _ _ _ eq_refl eq_refl eq_refl))))).
Defined.

(** X10 on a pool of two frames after one NewPage: frame 0 is free. *)
Lemma frame_free_or_resident_witness :
  (0%nat ∈ free_list_ (bpm (run (BufferPoolManager_ctor 2 SimpleDisk_new false)
                                [OpNewPage])) ∧
   (0%nat ∉ replacer_ (bpm (run (BufferPoolManager_ctor 2 SimpleDisk_new false)
                                [OpNewPage]))) ∧
   ∀ pid, page_table_ (bpm (run (BufferPoolManager_ctor 2 SimpleDisk_new false)
                                [OpNewPage])) !! pid ≠ Some 0%nat) ∨
  ((0%nat ∉ free_list_ (bpm (run (BufferPoolManager_ctor 2 SimpleDisk_new false)
                                 [OpNewPage]))) ∧
   ∀ pid, page_table_ (bpm (run (BufferPoolManager_ctor 2 SimpleDisk_new false)
                                [OpNewPage])) !! pid = Some 0%nat ↔
          pid = page_id_ (frame (bpm (run (BufferPoolManager_ctor 2 SimpleDisk_new false)
                                          [OpNewPage])) 0)).
Proof.
  assert (Hfresh : allocs_fresh (BufferPoolManager_ctor 2 SimpleDisk_new false)
                     [OpNewPage] = true) by (vm_compute; reflexivity).
  assert (Hlt : (0 < 2)%nat) by lia.
  exact (frame_free_or_resident 2 SimpleDisk_new false [OpNewPage] 0 Hfresh Hlt _ eq_refl).
Defined.

(** X11 on a pool of two frames holding a fetched and a created page. *)
Lemma no_frame_sharing_witness :
  (1 < 2)%nat ∧
  page_id_ (frame (bpm (run (BufferPoolManager_ctor 2 SimpleDisk_new false)
                            [OpFetchPage 7 false; OpNewPage])) 1) = 7 ∧
  ∀ pid',
    page_table_ (bpm (run (BufferPoolManager_ctor 2 SimpleDisk_new false)
                          [OpFetchPage 7 false; OpNewPage])) !! pid' = Some 1%nat →
    pid' = 7.
Proof.
  assert (Hpt : page_table_ (bpm (run (BufferPoolManager_ctor 2 SimpleDisk_new false)
                                   [OpFetchPage 7 false; OpNewPage])) !! 7 = Some 1%nat)
    by (vm_compute; reflexivity).
  exact (no_frame_sharing 2 SimpleDisk_new false [OpFetchPage 7 false; OpNewPage] 7 1 Hpt).
Defined.

(** The disk manager of the specification leaves the other pages alone. *)
Lemma SimpleDisk_read_other (d : SimpleDisk) q buf p oie :
  p ≠ q → ReadPage (WritePage d q buf) p oie = ReadPage d p oie.
Proof. intros Hne. simpl. by rewrite lookup_insert_ne. Qed.

(** X12 on a pool of two frames holding a created and a fetched page. *)
Lemma FlushAllPages_persists_witness :
  ReadPage
    (disk_manager_
       (FlushAllPages (run (BufferPoolManager_ctor 2 SimpleDisk_new false)
                           [OpNewPage; OpFetchPage 7 false])))
    7 true
  = Some (data_ (frame (bpm (run (BufferPoolManager_ctor 2 SimpleDisk_new false)
                                 [OpNewPage; OpFetchPage 7 false])) 0)).
Proof.
  assert (Hfresh : allocs_fresh (BufferPoolManager_ctor 2 SimpleDisk_new false)
                     [OpNewPage; OpFetchPage 7 false] = true)
    by (vm_compute; reflexivity).
  assert (Hpt : page_table_ (bpm (run (BufferPoolManager_ctor 2 SimpleDisk_new false)
                                   [OpNewPage; OpFetchPage 7 false])) !! 7 = Some 0%nat)
    by (vm_compute; reflexivity).
  assert (Hpid : 7 ≠ INVALID_PAGE_ID) by discriminate.
  exact (FlushAllPages_persists 2 SimpleDisk_new false [OpNewPage; OpFetchPage 7 false]
           7 0 SimpleDisk_read_after_write SimpleDisk_read_other Hfresh Hpt Hpid true).
Defined.

(** X13 after a page was created and unpinned. *)
Lemma CheckPinCount_complete_witness :
  CheckPinCount (run (BufferPoolManager_ctor 1 SimpleDisk_new false)
                     [OpNewPage; OpUnpinPage 0 true]) = true.
Proof.
  assert (Hfresh : allocs_fresh (BufferPoolManager_ctor 1 SimpleDisk_new false)
                     [OpNewPage; OpUnpinPage 0 true] = true)
    by (vm_compute; reflexivity).
  assert (Hm : page_table_ (bpm (run (BufferPoolManager_ctor 1 SimpleDisk_new false)
                                  [OpNewPage; OpUnpinPage 0 true])) = {[0 := 0%nat]})
    by (vm_compute; reflexivity).
  assert (Hall : ∀ pid f,
            page_table_ (bpm (run (BufferPoolManager_ctor 1 SimpleDisk_new false)
                                  [OpNewPage; OpUnpinPage 0 true])) !! pid = Some f →
            pin_count_ (frame (bpm (run (BufferPoolManager_ctor 1 SimpleDisk_new false)
                                        [OpNewPage; OpUnpinPage 0 true])) f) = 0).
  { intros pid f. rewrite Hm. intros [_ <-]%lookup_singleton_Some.
    vm_compute. reflexivity. }
  exact (CheckPinCount_complete 1 SimpleDisk_new false [OpNewPage; OpUnpinPage 0 true]
           Hfresh Hall).
Defined.

End BufferPoolFacts.

(* ===================================================================== *)
(** * B+Tree page header: the minimum size *)
(* ===================================================================== *)

Module BPlusTreePageFacts.

Import BPlusTreePage.

Lemma Qceiling_half (a : Z) : Qround.Qceiling (QArith_base.Qmake a 2) = (a + 1) / 2.
Proof.
  unfold Qround.Qceiling, Qround.Qfloor, QArith_base.Qopp. simpl.
  Z.to_euclidean_division_equations. lia.
Qed.

Lemma GetMinSize_leaf (p : t) :
  IsLeafPage p = true → GetMinSize p = Z.quot (max_size_ p) 2.
Proof. unfold GetMinSize. by intros ->. Qed.

Lemma GetMinSize_not_leaf (p : t) :
  IsLeafPage p = false → 0 ≤ max_size_ p < 2 ^ 31 - 1 →
  GetMinSize p = (max_size_ p + 1) / 2.
Proof.
  unfold GetMinSize. intros -> Hm.
  assert (int_wrap (max_size_ p + 1) = max_size_ p + 1) as ->.
  { unfold int_wrap. rewrite Z.mod_small; lia. }
  apply Z.quot_div_nonneg; lia.
Qed.

(** C7 (as amended). For a page whose max_size is a non-negative [int]
    below INT_MAX, GetMinSize returns the floor of max_size/2 when the page
    is a leaf, and otherwise the floor of (max_size+1)/2, which is the
    ceiling of max_size/2 (not of (max_size+1)/2). *)
Theorem GetMinSize_threshold (p : t) :
  0 ≤ max_size_ p < 2 ^ 31 - 1 →
  (IsLeafPage p = true → GetMinSize p = max_size_ p / 2) ∧
  (IsLeafPage p = false →
     GetMinSize p = (max_size_ p + 1) / 2 ∧
     GetMinSize p = Qround.Qceiling (QArith_base.Qmake (max_size_ p) 2)).
Proof.
  intros Hm. split.
  - intros Hleaf. rewrite GetMinSize_leaf by done. apply Z.quot_div_nonneg; lia.
  - intros Hleaf. rewrite Qceiling_half. split; by apply GetMinSize_not_leaf.
Qed.

(** C7 fails as stated: for the internal page of max_size 4 the code
    returns (4+1)/2 = 2, the ceiling of (4+1)/2 is 3. *)
Lemma GetMinSize_is_not_ceiling :
  GetMinSize internal_page_4 = 2 ∧ spec_min_size internal_page_4 = 3 ∧
  GetMinSize internal_page_4 ≠ spec_min_size internal_page_4.
Proof. split_and!; [reflexivity|reflexivity|discriminate]. Qed.

(** C7 (as amended) at a leaf of max_size 3 and an internal page of
    max_size 4. *)
Lemma GetMinSize_threshold_witness :
  GetMinSize (mk 2 0 0 3 1 LEAF_PAGE) = 3 / 2 ∧
  GetMinSize internal_page_4 = (4 + 1) / 2.
Proof.
  split.
  - apply (GetMinSize_threshold (mk 2 0 0 3 1 LEAF_PAGE)); [simpl; lia|reflexivity].
  - apply (GetMinSize_threshold internal_page_4); [simpl; lia|reflexivity].
Defined.

(** ** Bounds *)

(** X14. Bounds of the threshold. For a max_size that is a non-negative
    [int] below INT_MAX, GetMinSize lies between 0 and max_size and within
    one of half of it: a page one entry short of the minimum and a page at
    the minimum together hold at most max_size entries, and the two halves
    of max_size + 1 entries both reach the minimum. It is at least 1 from
    max_size 2 on; a leaf's is at most half of max_size, an internal
    page's at least half. *)
Theorem GetMinSize_bounds (p : t) :
  0 ≤ max_size_ p < 2 ^ 31 - 1 →
  0 ≤ GetMinSize p ≤ max_size_ p ∧
  2 * GetMinSize p - 1 ≤ max_size_ p ∧
  max_size_ p - 1 ≤ 2 * GetMinSize p ∧
  (2 ≤ max_size_ p → 1 ≤ GetMinSize p) ∧
  (IsLeafPage p = true → 2 * GetMinSize p ≤ max_size_ p) ∧
  (IsLeafPage p = false → max_size_ p ≤ 2 * GetMinSize p).
Proof.
  intros Hm. destruct (IsLeafPage p) eqn:Hleaf.
  - rewrite (GetMinSize_leaf p Hleaf), Z.quot_div_nonneg by lia.
    pose proof (Z.div_mod (max_size_ p) 2 ltac:(lia)).
    pose proof (Z.mod_pos_bound (max_size_ p) 2 ltac:(lia)).
    split_and!; try done; lia.
  - rewrite (GetMinSize_not_leaf p Hleaf Hm).
    pose proof (Z.div_mod (max_size_ p + 1) 2 ltac:(lia)).
    pose proof (Z.mod_pos_bound (max_size_ p + 1) 2 ltac:(lia)).
    split_and!; try done; lia.
Qed.

(** X14 at the internal page of max_size 4. *)
Lemma GetMinSize_bounds_witness :
  0 ≤ GetMinSize internal_page_4 ≤ 4 ∧ 2 * GetMinSize internal_page_4 - 1 ≤ 4.
Proof.
  destruct (GetMinSize_bounds internal_page_4) as (H1 & H2 & _); [simpl; lia|].
  split; [exact H1|exact H2].
Defined.

End BPlusTreePageFacts.

(* ===================================================================== *)
(** * Index metadata and builder: dispatch and accessors *)
(* ===================================================================== *)

Module IndexFacts.

Import Index.

Lemma supported_key_sizes_spec (k : Z) :
  k ∈ supported_key_sizes ↔ k = 4 ∨ k = 8 ∨ k = 16 ∨ k = 32 ∨ k = 64.
Proof.
  unfold supported_key_sizes. rewrite !elem_of_cons, elem_of_nil. tauto.
Qed.

Lemma Build_supported {B : Type} (metadata : IndexMetadata) (bpm : B) :
  GetIndexType metadata = BPlusTreeType →
  GetKeySize metadata ∈ supported_key_sizes →
  Build metadata bpm = Return (BPlusTreeIndex (GetKeySize metadata) metadata bpm).
Proof.
  intros Ht Hk. unfold Build. rewrite Ht.
  apply supported_key_sizes_spec in Hk as [->|[->|[->|[->| ->]]]]; reflexivity.
Qed.

Lemma Build_unsupported {B : Type} (metadata : IndexMetadata) (bpm : B) :
  GetKeySize metadata ∉ supported_key_sizes →
  Build metadata bpm = Throw NOT_IMPLEMENTED.
Proof.
  intros Hk. unfold Build. destruct (GetIndexType metadata); [|done].
  rewrite supported_key_sizes_spec in Hk.
  destruct (GetKeySize metadata) as [|k|k]; [done| |done].
  repeat (first [done | lia | destruct k as [k|k|]]).
Qed.

(** C8. For metadata of a B+Tree index, Build returns the B+Tree
    specialization of key width W exactly when the key size is W and W is
    one of 4, 8, 16, 32, 64 bytes; for every other key size it throws
    NotImplemented. *)
Theorem Build_key_width_dispatch {B : Type} (metadata : IndexMetadata) (bpm : B) :
  GetIndexType metadata = BPlusTreeType →
  (∀ W, Build metadata bpm = Return (BPlusTreeIndex W metadata bpm) ↔
        GetKeySize metadata = W ∧ W ∈ supported_key_sizes) ∧
  (GetKeySize metadata ∉ supported_key_sizes ↔
     Build metadata bpm = Throw NOT_IMPLEMENTED).
Proof.
  intros Ht.
  destruct (decide (GetKeySize metadata ∈ supported_key_sizes)) as [Hk|Hk].
  - pose proof (Build_supported metadata bpm Ht Hk) as Hb. rewrite Hb. split.
    + intros W. split; [intros [= <-]; done|intros [<- _]; done].
    + split; [done|discriminate].
  - pose proof (Build_unsupported metadata bpm Hk) as Hb. rewrite Hb. split.
    + intros W. split; [discriminate|intros [<- ?]; done].
    + done.
Qed.

(** C8 at a 16-byte key and at a 12-byte key. *)
Lemma Build_key_width_dispatch_witness :
  Build (mkIndexMetadata "idx" "accounts" [0; 1] BPlusTreeType 16) tt
    = Return (BPlusTreeIndex 16 (mkIndexMetadata "idx" "accounts" [0; 1] BPlusTreeType 16) tt) ∧
  Build (mkIndexMetadata "idx" "accounts" [0; 1] BPlusTreeType 12) tt
    = Throw NOT_IMPLEMENTED.
Proof.
  split.
  - apply (Build_key_width_dispatch
             (mkIndexMetadata "idx" "accounts" [0; 1] BPlusTreeType 16) tt eq_refl).
    split; [reflexivity|]. apply supported_key_sizes_spec. tauto.
  - apply (Build_key_width_dispatch
             (mkIndexMetadata "idx" "accounts" [0; 1] BPlusTreeType 12) tt eq_refl).
    rewrite supported_key_sizes_spec. simpl. lia.
Defined.

(** C9 (the code against the claim). GetTableName evaluates [table_name_]
    and discards it: no value is returned, for any metadata, where the
    sibling GetIndexName returns its stored name. *)
Theorem GetTableName_returns_nothing (m : IndexMetadata) :
  GetTableName m = None ∧ GetTableName m ≠ Some (table_name_ m) ∧
  GetIndexName m = Some (index_name_ m).
Proof. split_and!; [reflexivity|discriminate|reflexivity]. Qed.

(** X15. Build as a whole. It returns an index exactly for metadata of a
    B+Tree index with a key size of 4, 8, 16, 32 or 64, and the index is
    the B+Tree specialization of that width over the very metadata and
    buffer pool passed in; in every other case, a different index type
    included, it throws NotImplemented, and it throws nothing else. *)
Theorem Build_succeeds_iff {B : Type} (metadata : IndexMetadata) (bpm : B) :
  (∀ index, Build metadata bpm = Return index ↔
     GetIndexType metadata = BPlusTreeType ∧
     GetKeySize metadata ∈ supported_key_sizes ∧
     index = BPlusTreeIndex (GetKeySize metadata) metadata bpm) ∧
  (Build metadata bpm = Throw NOT_IMPLEMENTED ↔
     GetIndexType metadata ≠ BPlusTreeType ∨
     GetKeySize metadata ∉ supported_key_sizes) ∧
  (∀ e, Build metadata bpm = Throw e → e = NOT_IMPLEMENTED).
Proof.
  destruct (GetIndexType metadata) eqn:Ht.
  - destruct (decide (GetKeySize metadata ∈ supported_key_sizes)) as [Hk|Hk].
    + rewrite (Build_supported metadata bpm Ht Hk). split_and!.
      * intros index. split; [by intros [= <-]|by intros (_ & _ & ->)].
      * split; [done|]. by intros [?|?].
      * done.
    + rewrite (Build_unsupported metadata bpm Hk). split_and!.
      * intros index. split; [done|]. by intros (_ & ? & _).
      * split; [by right|done].
      * by intros e [= <-].
  - assert (Build metadata bpm = Throw NOT_IMPLEMENTED) as ->
      by (unfold Build; by rewrite Ht).
    split_and!.
    + intros index. split; [done|]. by intros (? & _).
    + split; [by left|done].
    + by intros e [= <-].
Qed.

End IndexFacts.

(* ===================================================================== *)
(** * Integer division and modulo: the zero guard *)
(* ===================================================================== *)

Module IntegerParentTypeFacts.

Import IntegerParentType.

Lemma representableb_spec (T : CInt) (z : Z) :
  representableb T z = true ↔ representable T z.
Proof.
  unfold representableb, representable. by rewrite andb_true_iff, !Z.leb_le.
Qed.

Lemma pow_bits (T : CInt) :
  2 ^ bits T = 2 * 2 ^ (bits T - 1) ∧ 0 < 2 ^ (bits T - 1).
Proof. by destruct T. Qed.

Lemma static_cast_representable (T : CInt) (z : Z) : representable T (static_cast T z).
Proof.
  unfold representable, static_cast, min_of, max_of.
  destruct (pow_bits T) as [-> Hpos]. revert Hpos.
  generalize (2 ^ (bits T - 1)). intros m Hm.
  pose proof (Z.mod_pos_bound (z + m) (2 * m) ltac:(lia)). lia.
Qed.

Lemma static_cast_id (T : CInt) (z : Z) : representable T z → static_cast T z = z.
Proof.
  unfold representable, static_cast, min_of, max_of.
  destruct (pow_bits T) as [-> Hpos]. revert Hpos.
  generalize (2 ^ (bits T - 1)). intros m Hm Hz.
  rewrite Z.mod_small; lia.
Qed.

(** The range of each type, as numbers. *)
Lemma min_max_of (T : CInt) :
  (min_of T, max_of T) =
    match T with
    | int8_t => (-128, 127)
    | int16_t => (-32768, 32767)
    | int32_t => (-2147483648, 2147483647)
    | int64_t => (-9223372036854775808, 9223372036854775807)
    end.
Proof. by destruct T. Qed.

Lemma representable_wider_l (T1 T2 : CInt) (z : Z) :
  representable T1 z → representable (wider T1 T2) z.
Proof.
  unfold representable.
  pose proof (min_max_of T1) as H1. pose proof (min_max_of (wider T1 T2)) as H2.
  revert H1 H2. generalize (min_of (wider T1 T2)) (max_of (wider T1 T2)).
  generalize (min_of T1) (max_of T1). intros a b c d.
  destruct T1, T2; simpl; intros [= -> ->] [= -> ->]; lia.
Qed.

Lemma representable_common (T1 T2 : CInt) (z : Z) :
  representable (wider T1 T2) z → representable (common_type T1 T2) z.
Proof.
  unfold representable.
  pose proof (min_max_of (wider T1 T2)) as H1.
  pose proof (min_max_of (common_type T1 T2)) as H2.
  revert H1 H2. generalize (min_of (wider T1 T2)) (max_of (wider T1 T2)).
  generalize (min_of (common_type T1 T2)) (max_of (common_type T1 T2)).
  intros a b c d.
  destruct T1, T2; simpl; intros [= -> ->] [= -> ->]; lia.
Qed.

(** The remainder lies between zero and the dividend. *)
Lemma rem_representable (T : CInt) (x y : Z) :
  representable T x → representable T (Z.rem x y).
Proof.
  unfold representable, min_of, max_of. intros Hx.
  destruct (Z.eq_dec y 0) as [->|Hy].
  - rewrite Z.rem_0_r_ext by done. done.
  - pose proof (Z.rem_bound_pos_neg x y).
    destruct (Z_le_gt_dec 0 x).
    + pose proof (Z.rem_nonneg x y Hy ltac:(lia)).
      pose proof (Z.rem_le x (Z.abs y) ltac:(lia) ltac:(lia)).
      rewrite Z.rem_abs_r in *; lia.
    + pose proof (Z.rem_nonpos x y Hy ltac:(lia)).
      pose proof (Z.rem_le (- x) (Z.abs y) ltac:(lia) ltac:(lia)).
      rewrite Z.rem_abs_r, Z.rem_opp_l in * by lia. lia.
Qed.

Lemma DivideValue_zero (T1 T2 : CInt) (lhs rhs : Value) :
  DivideValue T1 T2 lhs rhs = Throws DIVIDE_BY_ZERO ↔ GetAs T2 rhs = 0.
Proof.
  unfold DivideValue. destruct (GetAs T2 rhs =? 0) eqn:Hy.
  - apply Z.eqb_eq in Hy. done.
  - apply Z.eqb_neq in Hy. split; [|done].
    destruct (cpp_div _ _ _); [|done]. by destruct (_ <=? _).
Qed.

Lemma ModuloValue_zero (T1 T2 : CInt) (lhs rhs : Value) :
  ModuloValue T1 T2 lhs rhs = Throws DIVIDE_BY_ZERO ↔ GetAs T2 rhs = 0.
Proof.
  unfold ModuloValue. destruct (GetAs T2 rhs =? 0) eqn:Hy.
  - apply Z.eqb_eq in Hy. done.
  - apply Z.eqb_neq in Hy. split; [|done].
    destruct (cpp_rem _ _ _); [|done]. by destruct (_ <=? _).
Qed.

Lemma DivideValue_nonzero (T1 T2 : CInt) (lhs rhs : Value) :
  GetAs T2 rhs ≠ 0 →
  representable (wider T1 T2) (Z.quot (GetAs T1 lhs) (GetAs T2 rhs)) →
  DivideValue T1 T2 lhs rhs =
    Returns (wider_type_id T1 T2 lhs rhs) (wider T1 T2)
            (Z.quot (GetAs T1 lhs) (GetAs T2 rhs)).
Proof.
  intros Hy Hq. unfold DivideValue, cpp_div.
  apply Z.eqb_neq in Hy. rewrite Hy.
  pose proof (representable_common _ _ _ Hq) as Hc.
  apply representableb_spec in Hc. rewrite Hc.
  revert Hq. unfold wider, wider_type_id.
  destruct (sizeof T2 <=? sizeof T1); intros Hq; by rewrite static_cast_id.
Qed.

Lemma ModuloValue_nonzero (T1 T2 : CInt) (lhs rhs : Value) :
  GetAs T2 rhs ≠ 0 →
  representable (wider T1 T2) (Z.quot (GetAs T1 lhs) (GetAs T2 rhs)) →
  ModuloValue T1 T2 lhs rhs =
    Returns (wider_type_id T1 T2 lhs rhs) (wider T1 T2)
            (Z.rem (GetAs T1 lhs) (GetAs T2 rhs)).
Proof.
  intros Hy Hq. unfold ModuloValue, cpp_rem.
  apply Z.eqb_neq in Hy. rewrite Hy.
  pose proof (representable_common _ _ _ Hq) as Hc.
  apply representableb_spec in Hc. rewrite Hc.
  assert (Hr : representable (wider T1 T2) (Z.rem (GetAs T1 lhs) (GetAs T2 rhs))).
  { apply rem_representable, representable_wider_l, static_cast_representable. }
  revert Hr. unfold wider, wider_type_id.
  destruct (sizeof T2 <=? sizeof T1); intros Hr; by rewrite static_cast_id.
Qed.

Lemma DivideValue_undefined (T1 T2 : CInt) (lhs rhs : Value) :
  DivideValue T1 T2 lhs rhs = Undefined ↔
  GetAs T2 rhs ≠ 0 ∧
  ¬ representable (common_type T1 T2) (Z.quot (GetAs T1 lhs) (GetAs T2 rhs)).
Proof.
  unfold DivideValue, cpp_div. destruct (GetAs T2 rhs =? 0) eqn:Hy.
  - apply Z.eqb_eq in Hy. split; [done|]. by intros [? _].
  - apply Z.eqb_neq in Hy. rewrite <- representableb_spec.
    destruct (representableb _ _).
    + split; [by destruct (_ <=? _)|]. by intros [_ ?].
    + split; [|done]. by intros _.
Qed.

Lemma ModuloValue_undefined (T1 T2 : CInt) (lhs rhs : Value) :
  ModuloValue T1 T2 lhs rhs = Undefined ↔
  GetAs T2 rhs ≠ 0 ∧
  ¬ representable (common_type T1 T2) (Z.quot (GetAs T1 lhs) (GetAs T2 rhs)).
Proof.
  unfold ModuloValue, cpp_rem. destruct (GetAs T2 rhs =? 0) eqn:Hy.
  - apply Z.eqb_eq in Hy. split; [done|]. by intros [? _].
  - apply Z.eqb_neq in Hy. rewrite <- representableb_spec.
    destruct (representableb _ _).
    + split; [by destruct (_ <=? _)|]. by intros [_ ?].
    + split; [|done]. by intros _.
Qed.

(** A quotient leaves the range of its dividend only at the most negative
    value divided by -1. *)
Lemma quot_overflow (m x y : Z) :
  0 < m → (- m) ≤ x ≤ m - 1 → y ≠ 0 → ¬ ((- m) ≤ Z.quot x y ≤ m - 1) →
  x = - m ∧ y = -1.
Proof.
  intros Hm Hx Hy Hq.
  destruct (Z.eq_dec y (-1)) as [->|Hy1].
  - split; [|reflexivity]. change (-1) with (Z.opp 1) in Hq.
    rewrite Z.quot_opp_r, Z.quot_1_r in Hq by lia. lia.
  - exfalso. apply Hq. clear Hq.
    destruct (Z.eq_dec y 1) as [->|Hy2]; [rewrite Z.quot_1_r; lia|].
    assert (Z.abs (Z.quot x y) * 2 ≤ Z.abs x).
    { rewrite <- Z.quot_abs by lia.
      pose proof (Z.mul_quot_le (Z.abs x) (Z.abs y) ltac:(lia) ltac:(lia)).
      assert (0 ≤ Z.quot (Z.abs x) (Z.abs y)) by (apply Z.quot_pos; lia). nia. }
    lia.
Qed.

Lemma common_type_overflow (T1 T2 : CInt) (x y : Z) :
  representable T1 x → y ≠ 0 →
  ¬ representable (common_type T1 T2) (Z.quot x y) →
  x = min_of (common_type T1 T2) ∧ y = -1.
Proof.
  intros Hx Hy Hq.
  assert (Hc : representable (common_type T1 T2) x)
    by by apply representable_common, representable_wider_l.
  revert Hc Hq. unfold representable, min_of, max_of.
  destruct (pow_bits (common_type T1 T2)) as [_ Hpos]. revert Hpos.
  generalize (2 ^ (bits (common_type T1 T2) - 1)). intros m Hm Hc Hq.
  by apply quot_overflow.
Qed.

(** The remainder needs the quotient in the promoted type only: it lies
    between zero and the dividend, so the wider operand's type holds it. *)
Lemma ModuloValue_promoted (T1 T2 : CInt) (lhs rhs : Value) :
  GetAs T2 rhs ≠ 0 →
  representable (common_type T1 T2) (Z.quot (GetAs T1 lhs) (GetAs T2 rhs)) →
  ModuloValue T1 T2 lhs rhs =
    Returns (wider_type_id T1 T2 lhs rhs) (wider T1 T2)
            (Z.rem (GetAs T1 lhs) (GetAs T2 rhs)).
Proof.
  intros Hy Hq. unfold ModuloValue, cpp_rem.
  apply Z.eqb_neq in Hy. rewrite Hy.
  apply representableb_spec in Hq. rewrite Hq.
  assert (Hr : representable (wider T1 T2) (Z.rem (GetAs T1 lhs) (GetAs T2 rhs))).
  { apply rem_representable, representable_wider_l, static_cast_representable. }
  revert Hr. unfold wider, wider_type_id.
  destruct (sizeof T2 <=? sizeof T1); intros Hr; by rewrite static_cast_id.
Qed.

(** The quotient in the promoted type, cast to the wider operand's type. *)
Lemma DivideValue_promoted (T1 T2 : CInt) (lhs rhs : Value) :
  GetAs T2 rhs ≠ 0 →
  representable (common_type T1 T2) (Z.quot (GetAs T1 lhs) (GetAs T2 rhs)) →
  DivideValue T1 T2 lhs rhs =
    Returns (wider_type_id T1 T2 lhs rhs) (wider T1 T2)
            (static_cast (wider T1 T2) (Z.quot (GetAs T1 lhs) (GetAs T2 rhs))).
Proof.
  intros Hy Hq. unfold DivideValue, cpp_div.
  apply Z.eqb_neq in Hy. rewrite Hy.
  apply representableb_spec in Hq. rewrite Hq.
  unfold wider, wider_type_id. by destruct (sizeof T2 <=? sizeof T1).
Qed.

(** The quotient leaves the wider operand's type only at the most negative
    value of that type divided by -1. *)
Lemma wider_overflow (T1 T2 : CInt) (x y : Z) :
  representable T1 x → y ≠ 0 →
  ¬ representable (wider T1 T2) (Z.quot x y) →
  x = min_of (wider T1 T2) ∧ y = -1.
Proof.
  intros Hx Hy Hq.
  assert (Hc : representable (wider T1 T2) x) by by apply representable_wider_l.
  revert Hc Hq. unfold representable, min_of, max_of.
  destruct (pow_bits (wider T1 T2)) as [_ Hpos]. revert Hpos.
  generalize (2 ^ (bits (wider T1 T2) - 1)). intros m Hm Hc Hq.
  by apply quot_overflow.
Qed.

(** C10 (as amended). DivideValue and ModuloValue throw DivideByZero
    exactly when the right operand is zero, so the built-in division and
    remainder never run on a zero divisor. For a nonzero divisor
    ModuloValue returns the truncated remainder, typed as the wider operand
    (the left one on equal widths), whenever the promoted type the
    operation is computed in can represent the quotient; DivideValue
    returns the truncated quotient, typed likewise, whenever the wider
    operand's type can represent it, and otherwise (the most negative value
    of that type divided by -1) the quotient cast to that type. The one
    case without a result is the most negative value of the promoted type
    divided by -1, where the built-in operators have no defined result. *)
Theorem DivideValue_ModuloValue_guarded (T1 T2 : CInt) (lhs rhs : Value) :
  (DivideValue T1 T2 lhs rhs = Throws DIVIDE_BY_ZERO ↔ GetAs T2 rhs = 0) ∧
  (ModuloValue T1 T2 lhs rhs = Throws DIVIDE_BY_ZERO ↔ GetAs T2 rhs = 0) ∧
  (GetAs T2 rhs ≠ 0 →
   representable (wider T1 T2) (Z.quot (GetAs T1 lhs) (GetAs T2 rhs)) →
     DivideValue T1 T2 lhs rhs =
       Returns (wider_type_id T1 T2 lhs rhs) (wider T1 T2)
               (Z.quot (GetAs T1 lhs) (GetAs T2 rhs))) ∧
  (GetAs T2 rhs ≠ 0 →
   representable (common_type T1 T2) (Z.quot (GetAs T1 lhs) (GetAs T2 rhs)) →
     ModuloValue T1 T2 lhs rhs =
       Returns (wider_type_id T1 T2 lhs rhs) (wider T1 T2)
               (Z.rem (GetAs T1 lhs) (GetAs T2 rhs)) ∧
     DivideValue T1 T2 lhs rhs =
       Returns (wider_type_id T1 T2 lhs rhs) (wider T1 T2)
               (static_cast (wider T1 T2) (Z.quot (GetAs T1 lhs) (GetAs T2 rhs)))) ∧
  (GetAs T2 rhs ≠ 0 →
   ¬ representable (wider T1 T2) (Z.quot (GetAs T1 lhs) (GetAs T2 rhs)) →
     GetAs T1 lhs = min_of (wider T1 T2) ∧ GetAs T2 rhs = -1) ∧
  (DivideValue T1 T2 lhs rhs = Undefined ∨ ModuloValue T1 T2 lhs rhs = Undefined →
     GetAs T1 lhs = min_of (common_type T1 T2) ∧ GetAs T2 rhs = -1) ∧
  (GetAs T1 lhs = min_of (common_type T1 T2) → GetAs T2 rhs = -1 →
     DivideValue T1 T2 lhs rhs = Undefined ∧ ModuloValue T1 T2 lhs rhs = Undefined).
Proof.
  split_and!.
  - apply DivideValue_zero.
  - apply ModuloValue_zero.
  - apply DivideValue_nonzero.
  - intros Hy Hq. split; [by apply ModuloValue_promoted|by apply DivideValue_promoted].
  - intros Hy Hq. eapply wider_overflow; [apply static_cast_representable|done|done].
  - intros [[Hy Hq]%DivideValue_undefined|[Hy Hq]%ModuloValue_undefined];
      (eapply common_type_overflow; [apply static_cast_representable|done|done]).
  - intros Hx Hy.
    assert (Hq : ¬ representable (common_type T1 T2)
                   (Z.quot (GetAs T1 lhs) (GetAs T2 rhs))).
    { rewrite Hx, Hy. change (-1) with (Z.opp 1).
      rewrite Z.quot_opp_r, Z.quot_1_r by lia.
      unfold representable. pose proof (min_max_of (common_type T1 T2)) as Hm.
      destruct (pow_bits (common_type T1 T2)) as [_ Hpos].
      revert Hm Hpos. unfold min_of, max_of.
      generalize (2 ^ (bits (common_type T1 T2) - 1)). intros m _ Hpos. lia. }
    split; [apply DivideValue_undefined|apply ModuloValue_undefined];
      (split; [lia|done]).
Qed.

(** C10 fails as stated at the most negative value divided by -1: on two
    INTEGER values the division has no defined result, and on two TINYINT
    values the value returned is -128, not the quotient 128. *)
Lemma DivideValue_min_by_minus_one :
  DivideValue int32_t int32_t
    (mkValue (-2147483648) 0 INTEGER) (mkValue (-1) 0 INTEGER) = Undefined ∧
  ModuloValue int32_t int32_t
    (mkValue (-2147483648) 0 INTEGER) (mkValue (-1) 0 INTEGER) = Undefined ∧
  DivideValue int8_t int8_t
    (mkValue (-128) 0 TINYINT) (mkValue (-1) 0 TINYINT) = Returns TINYINT int8_t (-128) ∧
  Z.quot (-128) (-1) = 128.
Proof. split_and!; reflexivity. Qed.

(** C10 (as amended) at 7 / 2 and 7 % 2 with an INTEGER dividend and a
    TINYINT divisor, and at -128 % -1 on two TINYINT values, where the
    quotient 128 fits the promoted type only. *)
Lemma DivideValue_ModuloValue_guarded_witness :
  DivideValue int32_t int8_t (mkValue 7 0 INTEGER) (mkValue 2 0 TINYINT)
    = Returns INTEGER int32_t 3 ∧
  ModuloValue int32_t int8_t (mkValue 7 0 INTEGER) (mkValue 2 0 TINYINT)
    = Returns INTEGER int32_t 1 ∧
  ModuloValue int8_t int8_t (mkValue (-128) 0 TINYINT) (mkValue (-1) 0 TINYINT)
    = Returns TINYINT int8_t 0.
Proof.
  assert (Hy : GetAs int8_t (mkValue 2 0 TINYINT) ≠ 0) by discriminate.
  assert (Hw : representable (wider int32_t int8_t)
                 (Z.quot (GetAs int32_t (mkValue 7 0 INTEGER))
                         (GetAs int8_t (mkValue 2 0 TINYINT))))
    by (vm_compute; split; discriminate).
  assert (Hc : representable (common_type int32_t int8_t)
                 (Z.quot (GetAs int32_t (mkValue 7 0 INTEGER))
                         (GetAs int8_t (mkValue 2 0 TINYINT))))
    by (vm_compute; split; discriminate).
  assert (Hy' : GetAs int8_t (mkValue (-1) 0 TINYINT) ≠ 0) by discriminate.
  assert (Hc' : representable (common_type int8_t int8_t)
                  (Z.quot (GetAs int8_t (mkValue (-128) 0 TINYINT))
                          (GetAs int8_t (mkValue (-1) 0 TINYINT))))
    by (vm_compute; split; discriminate).
  split_and!.
  - exact (proj1 (proj2 (proj2 (DivideValue_ModuloValue_guarded int32_t int8_t
             (mkValue 7 0 INTEGER) (mkValue 2 0 TINYINT)))) Hy Hw).
  - exact (proj1 (proj1 (proj2 (proj2 (proj2 (DivideValue_ModuloValue_guarded
             int32_t int8_t (mkValue 7 0 INTEGER) (mkValue 2 0 TINYINT))))) Hy Hc)).
  - exact (proj1 (proj1 (proj2 (proj2 (proj2 (DivideValue_ModuloValue_guarded
             int8_t int8_t (mkValue (-128) 0 TINYINT) (mkValue (-1) 0 TINYINT))))) Hy' Hc')).
Defined.

(** ** Addition, subtraction and multiplication *)

Lemma representable_dec (T : CInt) (z : Z) : {representable T z} + {¬ representable T z}.
Proof.
  destruct (representableb T z) eqn:E.
  - left. by apply representableb_spec.
  - right. intros H%representableb_spec. congruence.
Qed.

Lemma representable_wider_r (T1 T2 : CInt) (z : Z) :
  representable T2 z → representable (wider T1 T2) z.
Proof.
  unfold representable.
  pose proof (min_max_of T2) as H1. pose proof (min_max_of (wider T1 T2)) as H2.
  revert H1 H2. generalize (min_of (wider T1 T2)) (max_of (wider T1 T2)).
  generalize (min_of T2) (max_of T2). intros a b c d.
  destruct T1, T2; simpl; intros [= -> ->] [= -> ->]; lia.
Qed.

Lemma checked_representable T1 T2 lhs rhs r bad :
  representable (wider T1 T2) r →
  checked T1 T2 lhs rhs r bad =
    if bad r then Throws OUT_OF_RANGE
    else Returns (wider_type_id T1 T2 lhs rhs) (wider T1 T2) r.
Proof.
  unfold checked, wider, wider_type_id.
  destruct (sizeof T2 <=? sizeof T1) eqn:Hs; intros Hr;
    rewrite (static_cast_id _ _ Hr), Z.eqb_refl; simpl;
    by rewrite ?andb_false_r.
Qed.

Lemma checked_unrepresentable T1 T2 lhs rhs r bad :
  ¬ representable (wider T1 T2) r →
  checked T1 T2 lhs rhs r bad = Throws OUT_OF_RANGE.
Proof.
  intros Hr. unfold checked.
  assert (r ≠ static_cast T1 r) as H1%Z.eqb_neq.
  { intros E. apply Hr, representable_wider_l. rewrite E.
    apply static_cast_representable. }
  assert (r ≠ static_cast T2 r) as H2%Z.eqb_neq.
  { intros E. apply Hr, representable_wider_r. rewrite E.
    apply static_cast_representable. }
  by rewrite H1, H2.
Qed.

Lemma AddValue_checked T1 T2 lhs rhs :
  AddValue T1 T2 lhs rhs =
    checked T1 T2 lhs rhs
      (cpp_add (common_type T1 T2) (GetAs T1 lhs) (GetAs T2 rhs))
      (add_bad (GetAs T1 lhs) (GetAs T2 rhs)).
Proof. reflexivity. Qed.

Lemma SubtractValue_checked T1 T2 lhs rhs :
  SubtractValue T1 T2 lhs rhs =
    checked T1 T2 lhs rhs
      (cpp_sub (common_type T1 T2) (GetAs T1 lhs) (GetAs T2 rhs))
      (sub_mul_bad (GetAs T1 lhs) (GetAs T2 rhs)).
Proof. reflexivity. Qed.

Lemma MultiplyValue_checked T1 T2 lhs rhs :
  MultiplyValue T1 T2 lhs rhs =
    checked T1 T2 lhs rhs
      (cpp_mul (common_type T1 T2) (GetAs T1 lhs) (GetAs T2 rhs))
      (sub_mul_bad (GetAs T1 lhs) (GetAs T2 rhs)).
Proof. reflexivity. Qed.

(** Without overflow the built-in operators are exact. *)
Lemma cpp_add_exact C x y : representable C (x + y) → cpp_add C x y = x + y.
Proof. apply static_cast_id. Qed.

Lemma cpp_sub_exact C x y : representable C (x - y) → cpp_sub C x y = x - y.
Proof. apply static_cast_id. Qed.

Lemma cpp_mul_exact C x y : representable C (x * y) → cpp_mul C x y = x * y.
Proof. apply static_cast_id. Qed.

Lemma add_bad_exact x y : add_bad x y (x + y) = false.
Proof. unfold add_bad. lia. Qed.

Lemma sub_bad_exact x y : sub_mul_bad x y (x - y) = false.
Proof. unfold sub_mul_bad. lia. Qed.

Lemma mul_bad_exact x y : sub_mul_bad x y (x * y) = (0 <? x) && (y <? 0).
Proof.
  unfold sub_mul_bad.
  destruct (Z.ltb_spec 0 x), (Z.ltb_spec y 0), (Z.ltb_spec x 0), (Z.ltb_spec 0 y),
    (Z.ltb_spec (x * y) 0), (Z.ltb_spec 0 (x * y)); simpl; try reflexivity; nia.
Qed.

(** What an exact result [r] of the built-in operator leads to. *)
Lemma checked_cases T1 T2 lhs rhs r bad :
  (representable (wider T1 T2) r → bad r = false →
     checked T1 T2 lhs rhs r bad = Returns (wider_type_id T1 T2 lhs rhs) (wider T1 T2) r) ∧
  (representable (wider T1 T2) r → bad r = true →
     checked T1 T2 lhs rhs r bad = Throws OUT_OF_RANGE) ∧
  (¬ representable (wider T1 T2) r → checked T1 T2 lhs rhs r bad = Throws OUT_OF_RANGE) ∧
  (∀ t T v, checked T1 T2 lhs rhs r bad = Returns t T v →
     v = r ∧ T = wider T1 T2 ∧ t = wider_type_id T1 T2 lhs rhs).
Proof.
  split_and!.
  - intros Hr Hb. by rewrite checked_representable, Hb.
  - intros Hr Hb. by rewrite checked_representable, Hb.
  - apply checked_unrepresentable.
  - intros t T v. destruct (representable_dec (wider T1 T2) r) as [Hr|Hr].
    + rewrite checked_representable by done. destruct (bad r); [done|].
      by intros [= <- <- <-].
    + by rewrite checked_unrepresentable.
Qed.

(** X16. AddValue where the addition does not overflow. When the promoted
    type the sum is computed in (int, or int64_t if an operand is int64_t)
    can represent x + y, AddValue returns the exact sum, in the wider
    operand's type (the left operand's on equal widths) with that operand's
    type id, if that type can represent the sum, and throws OutOfRange if
    it cannot; whatever it returns is the exact sum. *)
Theorem AddValue_exact_or_out_of_range (T1 T2 : CInt) (lhs rhs : Value) :
  representable (common_type T1 T2) (GetAs T1 lhs + GetAs T2 rhs) →
  (representable (wider T1 T2) (GetAs T1 lhs + GetAs T2 rhs) →
     AddValue T1 T2 lhs rhs =
       Returns (wider_type_id T1 T2 lhs rhs) (wider T1 T2) (GetAs T1 lhs + GetAs T2 rhs)) ∧
  (¬ representable (wider T1 T2) (GetAs T1 lhs + GetAs T2 rhs) →
     AddValue T1 T2 lhs rhs = Throws OUT_OF_RANGE) ∧
  (∀ t T v, AddValue T1 T2 lhs rhs = Returns t T v →
     v = GetAs T1 lhs + GetAs T2 rhs ∧ T = wider T1 T2 ∧
     t = wider_type_id T1 T2 lhs rhs).
Proof.
  intros Hc. rewrite AddValue_checked, (cpp_add_exact _ _ _ Hc).
  destruct (checked_cases T1 T2 lhs rhs (GetAs T1 lhs + GetAs T2 rhs)
              (add_bad (GetAs T1 lhs) (GetAs T2 rhs))) as (H1 & _ & H3 & H4).
  split_and!; [|done|done].
  intros Hr. apply H1; [done|apply add_bad_exact].
Qed.

(** X16 at 7 + 2 with an INTEGER and a TINYINT operand, and at 100 + 100
    on two TINYINT values. *)
Lemma AddValue_exact_or_out_of_range_witness :
  AddValue int32_t int8_t (mkValue 7 0 INTEGER) (mkValue 2 0 TINYINT)
    = Returns INTEGER int32_t 9 ∧
  AddValue int8_t int8_t (mkValue 100 0 TINYINT) (mkValue 100 0 TINYINT)
    = Throws OUT_OF_RANGE.
Proof.
  assert (Hc : representable (common_type int32_t int8_t)
                 (GetAs int32_t (mkValue 7 0 INTEGER) + GetAs int8_t (mkValue 2 0 TINYINT)))
    by (vm_compute; split; discriminate).
  assert (Hw : representable (wider int32_t int8_t)
                 (GetAs int32_t (mkValue 7 0 INTEGER) + GetAs int8_t (mkValue 2 0 TINYINT)))
    by (vm_compute; split; discriminate).
  assert (Hc' : representable (common_type int8_t int8_t)
                  (GetAs int8_t (mkValue 100 0 TINYINT)
                   + GetAs int8_t (mkValue 100 0 TINYINT)))
    by (vm_compute; split; discriminate).
  assert (Hw' : ¬ representable (wider int8_t int8_t)
                    (GetAs int8_t (mkValue 100 0 TINYINT)
                     + GetAs int8_t (mkValue 100 0 TINYINT)))
    by (vm_compute; intros [_ H]; by apply H).
  split.
  - exact (proj1 (AddValue_exact_or_out_of_range int32_t int8_t
                    (mkValue 7 0 INTEGER) (mkValue 2 0 TINYINT) Hc) Hw).
  - exact (proj1 (proj2 (AddValue_exact_or_out_of_range int8_t int8_t
                    (mkValue 100 0 TINYINT) (mkValue 100 0 TINYINT) Hc')) Hw').
Defined.

(** X17. SubtractValue where the subtraction does not overflow. When the
    promoted type the difference is computed in can represent x - y,
    SubtractValue returns the exact difference, in the wider operand's type
    with that operand's type id, if that type can represent it, and throws
    OutOfRange if it cannot; whatever it returns is the exact difference. *)
Theorem SubtractValue_exact_or_out_of_range (T1 T2 : CInt) (lhs rhs : Value) :
  representable (common_type T1 T2) (GetAs T1 lhs - GetAs T2 rhs) →
  (representable (wider T1 T2) (GetAs T1 lhs - GetAs T2 rhs) →
     SubtractValue T1 T2 lhs rhs =
       Returns (wider_type_id T1 T2 lhs rhs) (wider T1 T2) (GetAs T1 lhs - GetAs T2 rhs)) ∧
  (¬ representable (wider T1 T2) (GetAs T1 lhs - GetAs T2 rhs) →
     SubtractValue T1 T2 lhs rhs = Throws OUT_OF_RANGE) ∧
  (∀ t T v, SubtractValue T1 T2 lhs rhs = Returns t T v →
     v = GetAs T1 lhs - GetAs T2 rhs ∧ T = wider T1 T2 ∧
     t = wider_type_id T1 T2 lhs rhs).
Proof.
  intros Hc. rewrite SubtractValue_checked, (cpp_sub_exact _ _ _ Hc).
  destruct (checked_cases T1 T2 lhs rhs (GetAs T1 lhs - GetAs T2 rhs)
              (sub_mul_bad (GetAs T1 lhs) (GetAs T2 rhs))) as (H1 & _ & H3 & H4).
  split_and!; [|done|done].
  intros Hr. apply H1; [done|apply sub_bad_exact].
Qed.

(** X17 at 7 - 9 with a TINYINT and an INTEGER operand, and at -100 - 100
    on two TINYINT values. *)
Lemma SubtractValue_exact_or_out_of_range_witness :
  SubtractValue int8_t int32_t (mkValue 7 0 TINYINT) (mkValue 9 0 INTEGER)
    = Returns INTEGER int32_t (-2) ∧
  SubtractValue int8_t int8_t (mkValue (-100) 0 TINYINT) (mkValue 100 0 TINYINT)
    = Throws OUT_OF_RANGE.
Proof.
  assert (Hc : representable (common_type int8_t int32_t)
                 (GetAs int8_t (mkValue 7 0 TINYINT) - GetAs int32_t (mkValue 9 0 INTEGER)))
    by (vm_compute; split; discriminate).
  assert (Hw : representable (wider int8_t int32_t)
                 (GetAs int8_t (mkValue 7 0 TINYINT) - GetAs int32_t (mkValue 9 0 INTEGER)))
    by (vm_compute; split; discriminate).
  assert (Hc' : representable (common_type int8_t int8_t)
                  (GetAs int8_t (mkValue (-100) 0 TINYINT)
                   - GetAs int8_t (mkValue 100 0 TINYINT)))
    by (vm_compute; split; discriminate).
  assert (Hw' : ¬ representable (wider int8_t int8_t)
                    (GetAs int8_t (mkValue (-100) 0 TINYINT)
                     - GetAs int8_t (mkValue 100 0 TINYINT)))
    by (vm_compute; intros [H _]; by apply H).
  split.
  - exact (proj1 (SubtractValue_exact_or_out_of_range int8_t int32_t
                    (mkValue 7 0 TINYINT) (mkValue 9 0 INTEGER) Hc) Hw).
  - exact (proj1 (proj2 (SubtractValue_exact_or_out_of_range int8_t int8_t
                    (mkValue (-100) 0 TINYINT) (mkValue 100 0 TINYINT) Hc')) Hw').
Defined.

(** X18. MultiplyValue where the multiplication does not overflow: it
    applies the sign test of SubtractValue to the product. When the
    promoted type the product is computed in can represent x * y, a
    positive left operand times a negative right operand throws
    OutOfRange, however small the product; for every other pair
    MultiplyValue returns the exact product in the wider operand's type if
    that type can represent it; it throws OutOfRange if that type cannot;
    whatever it returns is the exact product. *)
Theorem MultiplyValue_rejects_positive_times_negative (T1 T2 : CInt) (lhs rhs : Value) :
  representable (common_type T1 T2) (GetAs T1 lhs * GetAs T2 rhs) →
  (0 < GetAs T1 lhs → GetAs T2 rhs < 0 →
     MultiplyValue T1 T2 lhs rhs = Throws OUT_OF_RANGE) ∧
  (representable (wider T1 T2) (GetAs T1 lhs * GetAs T2 rhs) →
   ¬ (0 < GetAs T1 lhs ∧ GetAs T2 rhs < 0) →
     MultiplyValue T1 T2 lhs rhs =
       Returns (wider_type_id T1 T2 lhs rhs) (wider T1 T2) (GetAs T1 lhs * GetAs T2 rhs)) ∧
  (¬ representable (wider T1 T2) (GetAs T1 lhs * GetAs T2 rhs) →
     MultiplyValue T1 T2 lhs rhs = Throws OUT_OF_RANGE) ∧
  (∀ t T v, MultiplyValue T1 T2 lhs rhs = Returns t T v →
     v = GetAs T1 lhs * GetAs T2 rhs ∧ T = wider T1 T2 ∧
     t = wider_type_id T1 T2 lhs rhs).
Proof.
  intros Hc. rewrite MultiplyValue_checked, (cpp_mul_exact _ _ _ Hc).
  destruct (checked_cases T1 T2 lhs rhs (GetAs T1 lhs * GetAs T2 rhs)
              (sub_mul_bad (GetAs T1 lhs) (GetAs T2 rhs))) as (H1 & H2 & H3 & H4).
  rewrite mul_bad_exact in H1, H2.
  split_and!; [| |done|done].
  - intros Hx Hy.
    destruct (representable_dec (wider T1 T2) (GetAs T1 lhs * GetAs T2 rhs)) as [Hr|Hr];
      [|auto]. apply H2; [done|]. apply andb_true_iff. lia.
  - intros Hr Hs. apply H1; [done|]. apply andb_false_iff. lia.
Qed.

(** X18 at 2 * -3 and -3 * 2 on two INTEGER values: the first is out of
    range, the second is -6. *)
Lemma MultiplyValue_rejects_witness :
  MultiplyValue int32_t int32_t (mkValue 2 0 INTEGER) (mkValue (-3) 0 INTEGER)
    = Throws OUT_OF_RANGE ∧
  MultiplyValue int32_t int32_t (mkValue (-3) 0 INTEGER) (mkValue 2 0 INTEGER)
    = Returns INTEGER int32_t (-6).
Proof.
  assert (Hc : representable (common_type int32_t int32_t)
                 (GetAs int32_t (mkValue 2 0 INTEGER)
                  * GetAs int32_t (mkValue (-3) 0 INTEGER)))
    by (vm_compute; split; discriminate).
  assert (Hx : 0 < GetAs int32_t (mkValue 2 0 INTEGER)) by reflexivity.
  assert (Hy : GetAs int32_t (mkValue (-3) 0 INTEGER) < 0) by reflexivity.
  assert (Hc' : representable (common_type int32_t int32_t)
                  (GetAs int32_t (mkValue (-3) 0 INTEGER)
                   * GetAs int32_t (mkValue 2 0 INTEGER)))
    by (vm_compute; split; discriminate).
  assert (Hw' : representable (wider int32_t int32_t)
                  (GetAs int32_t (mkValue (-3) 0 INTEGER)
                   * GetAs int32_t (mkValue 2 0 INTEGER)))
    by (vm_compute; split; discriminate).
  assert (Hs' : ¬ (0 < GetAs int32_t (mkValue (-3) 0 INTEGER)
                   ∧ GetAs int32_t (mkValue 2 0 INTEGER) < 0))
    by (intros [H _]; discriminate H).
  split.
  - exact (proj1 (MultiplyValue_rejects_positive_times_negative int32_t int32_t
                    (mkValue 2 0 INTEGER) (mkValue (-3) 0 INTEGER) Hc) Hx Hy).
  - exact (proj1 (proj2 (MultiplyValue_rejects_positive_times_negative int32_t int32_t
                    (mkValue (-3) 0 INTEGER) (mkValue 2 0 INTEGER) Hc')) Hw' Hs').
Defined.

(** X19. Quotient and remainder fit together. For a nonzero divisor whose
    truncated quotient the wider operand's type can represent, DivideValue
    returns q and ModuloValue returns r, both in that type, with
    x = q * y + r, |r| < |y|, and r zero or of the sign of x. *)
Theorem DivideValue_ModuloValue_identity (T1 T2 : CInt) (lhs rhs : Value) :
  GetAs T2 rhs ≠ 0 →
  representable (wider T1 T2) (Z.quot (GetAs T1 lhs) (GetAs T2 rhs)) →
  ∃ q r,
    DivideValue T1 T2 lhs rhs = Returns (wider_type_id T1 T2 lhs rhs) (wider T1 T2) q ∧
    ModuloValue T1 T2 lhs rhs = Returns (wider_type_id T1 T2 lhs rhs) (wider T1 T2) r ∧
    GetAs T1 lhs = q * GetAs T2 rhs + r ∧
    Z.abs r < Z.abs (GetAs T2 rhs) ∧
    0 ≤ r * GetAs T1 lhs.
Proof.
  intros Hy Hq. exists (Z.quot (GetAs T1 lhs) (GetAs T2 rhs)),
    (Z.rem (GetAs T1 lhs) (GetAs T2 rhs)).
  split_and!.
  - by apply DivideValue_nonzero.
  - by apply ModuloValue_nonzero.
  - rewrite Z.mul_comm. apply Z.quot_rem'.
  - by apply Z.rem_bound_abs.
  - by apply Z.rem_sign_mul.
Qed.

(** X19 at -7 and 2. *)
Lemma DivideValue_ModuloValue_identity_witness :
  ∃ q r,
    DivideValue int32_t int8_t (mkValue (-7) 0 INTEGER) (mkValue 2 0 TINYINT)
      = Returns INTEGER int32_t q ∧
    ModuloValue int32_t int8_t (mkValue (-7) 0 INTEGER) (mkValue 2 0 TINYINT)
      = Returns INTEGER int32_t r ∧
    -7 = q * 2 + r ∧ Z.abs r < 2 ∧ 0 ≤ r * -7.
Proof.
  apply (DivideValue_ModuloValue_identity int32_t int8_t
           (mkValue (-7) 0 INTEGER) (mkValue 2 0 TINYINT)).
  - vm_compute. discriminate.
  - vm_compute. split; discriminate.
Defined.

End IntegerParentTypeFacts.

(* ===================================================================== *)
(** * Exception names (common/exception.h)                                *)
(* ===================================================================== *)

Module ExceptionFacts.

Lemma ExceptionType_value_range (e : ExceptionType) : 0 ≤ ExceptionType_value e ≤ 12.
Proof. destruct e; simpl; lia. Qed.

Lemma ExceptionType_value_surj (z : Z) :
  0 ≤ z ≤ 12 → ∃ e, ExceptionType_value e = z.
Proof.
  intros Hz.
  assert (z = 0 ∨ z = 1 ∨ z = 2 ∨ z = 3 ∨ z = 4 ∨ z = 5 ∨ z = 6 ∨ z = 7 ∨ z = 8 ∨
          z = 9 ∨ z = 10 ∨ z = 11 ∨ z = 12) as H by lia.
  destruct H as [->|[->|[->|[->|[->|[->|[->|[->|[->|[->|[->|[->| ->]]]]]]]]]]]].
  - by exists INVALID_EXCEPTION.
  - by exists OUT_OF_RANGE.
  - by exists CONVERSION.
  - by exists UNKNOWN_TYPE.
  - by exists DECIMAL_EXCEPTION.
  - by exists MISMATCH_TYPE.
  - by exists DIVIDE_BY_ZERO.
  - by exists INCOMPATIBLE_TYPE.
  - by exists OUT_OF_MEMORY.
  - by exists NOT_IMPLEMENTED.
  - by exists IO.
  - by exists UNREACHABLE.
  - by exists LOGIC_ERROR.
Qed.

Lemma ExceptionTypeToString_default (z : Z) :
  ¬ (0 ≤ z ≤ 12) → ExceptionTypeToString z = "Unknown Exception Type".
Proof.
  intros Hz. destruct z as [|p|p]; [lia| |done].
  unfold ExceptionTypeToString.
  repeat (first [done | lia | destruct p as [p|p|]]).
Qed.

(** X20. ExceptionTypeToString names the type: two exception types with
    the same name are the same type, and the name is
    [Unknown Exception Type] exactly for the values that are no
    enumerator. *)
Theorem ExceptionTypeToString_names_the_type :
  (∀ e1 e2,
     ExceptionTypeToString (ExceptionType_value e1)
       = ExceptionTypeToString (ExceptionType_value e2) → e1 = e2) ∧
  (∀ z, ExceptionTypeToString z = "Unknown Exception Type" ↔
        ¬ ∃ e, ExceptionType_value e = z).
Proof.
  split.
  - intros e1 e2. destruct e1, e2; simpl; first [reflexivity | discriminate].
  - intros z. split.
    + intros Hs [e <-]. by destruct e.
    + intros Hn. apply ExceptionTypeToString_default.
      intros Hz. apply Hn. by apply ExceptionType_value_surj.
Qed.

End ExceptionFacts.
